(** * MCPedia: the entry store (internal/db) and the MCP dispatcher (internal/mcp)

    A shallow embedding of the Go sources.  The SQLite database is a record of
    tables, each table a list of rows in rowid order; every SQL statement the
    Go code issues is one function on that record, with the constraints of
    schema.sql (UNIQUE, CHECK, PRIMARY KEY, FOREIGN KEY, ON DELETE CASCADE)
    written out.  A transaction runs its statements on a working copy and
    either commits the copy or, on the first error, leaves the database as it
    was; a statement sent outside a transaction is committed on its own.
    What SQLite, the Go runtime and the standard library compute on their
    own (the FTS5 matcher, SHA-256, strings.TrimSpace, base64, strconv) is
    taken through two interfaces, [Engine] and [Codec]; the decoding of
    request parameters by encoding/json is written out.

    A statement of a write path (create, update, delete, the tag
    replacement) fails when a constraint of the schema rejects it or when
    the storage does: a third interface, [Storage], says for each call and
    database whether the storage answers with an error of its own (an I/O
    error, a full disk, a busy database).  [reliable] is the storage that
    never does, and a statement that names no storage is about [reliable].
    The read paths are modelled on [reliable] only. *)

From stdpp Require Import base decidable option list strings gmap sorting.
From Stdlib Require Import ZArith Lia.

Local Open Scope Z_scope.

(** ** Go values *)

(** The dynamic values that travel in [map[string]any]. A [float64] carries
    the integer that Go's [int(n)] conversion yields, the only thing the
    sources read from it. *)
#[warnings="-register-all"]
Inductive any : Type :=
  | VNil
  | VBool (b : bool)
  | VFloat64 (n : Z)
  | VInt (n : Z)
  | VString (s : string)
  | VStrings (l : list string)
  | VSlice (l : list any)
  | VMap (m : list (string * any)).

(** A Go slice is either nil or a (possibly empty) sequence; the two differ
    once marshalled ([null] against [[]]). *)
Inductive slice (A : Type) : Type :=
  | NilSlice
  | Slice (elems : list A).
Arguments NilSlice {A}.
Arguments Slice {A} elems.

Definition items {A} (s : slice A) : list A :=
  match s with
  | NilSlice => []
  | Slice l => l
  end.

Definition go_append {A} (s : slice A) (x : A) : slice A := Slice (items s ++ [x]).

Definition len {A} (s : slice A) : Z := Z.of_nat (length (items s)).

Definition is_nil {A} (s : slice A) : bool :=
  match s with
  | NilSlice => true
  | Slice _ => false
  end.

(** [for rows.Next() { xs = append(xs, x) }] starting from [var xs []T]. *)
Definition collect {A} (rows : list A) : slice A := foldl go_append NilSlice rows.

(** ** Errors *)

Inductive error : Type :=
  | ErrNoRows
  | ErrConstraint (what : string)
  | ErrDriver (what : string)
  | Errorf (msg : string)
  | Wrapf (prefix : string) (cause : error).

Global Instance error_eq_dec : EqDecision error.
Proof. solve_decision. Defined.

Fixpoint Error (e : error) : string :=
  match e with
  | ErrNoRows => "sql: no rows in result set"
  | ErrConstraint what => "constraint failed: " +:+ what
  | ErrDriver what => what
  | Errorf msg => msg
  | Wrapf prefix cause => prefix +:+ ": " +:+ Error cause
  end.

Inductive result (A : Type) : Type :=
  | Ok (a : A)
  | Err (e : error).
Arguments Ok {A} a.
Arguments Err {A} e.

Definition is_ok {A} (r : result A) : bool :=
  match r with
  | Ok _ => true
  | Err _ => false
  end.

Module db.

(** ** Rows of schema.sql *)

Record EntryRow := mkEntryRow {
  e_id : Z;
  e_slug : string;
  e_title : string;
  e_description : string;
  e_content : string;
  e_kind : string;
  e_language : string;
  e_domain : string;
  e_project : string;
  e_version : Z;
  e_created_at : string;
  e_updated_at : string
}.

Record TagRow := mkTagRow { t_id : Z; t_name : string }.

Record EntryTagRow := mkEntryTagRow { et_entry_id : Z; et_tag_id : Z }.

Record StatsRow := mkStatsRow {
  es_entry_id : Z;
  es_reads : Z;
  es_searches : Z;
  es_updates : Z;
  es_last_read_at : option string;
  es_last_search_at : option string;
  es_last_update_at : option string
}.

(** The single row [id = 1] of table [lock]. *)
Record LockRow := mkLockRow { lock_active : Z; lock_token : string }.

Record FtsRow := mkFtsRow {
  fts_rowid : Z;
  fts_title : string;
  fts_description : string;
  fts_content : string
}.

Global Instance EntryRow_eq_dec : EqDecision EntryRow.
Proof. solve_decision. Defined.
Global Instance TagRow_eq_dec : EqDecision TagRow.
Proof. solve_decision. Defined.
Global Instance EntryTagRow_eq_dec : EqDecision EntryTagRow.
Proof. solve_decision. Defined.
Global Instance StatsRow_eq_dec : EqDecision StatsRow.
Proof. solve_decision. Defined.
Global Instance FtsRow_eq_dec : EqDecision FtsRow.
Proof. solve_decision. Defined.

(** The database: the six relations, and the two AUTOINCREMENT counters that
    SQLite keeps in [sqlite_sequence]. *)
Record DB := mkDB {
  entries : list EntryRow;
  entries_seq : Z;
  tags : list TagRow;
  tags_seq : Z;
  entry_tags : list EntryTagRow;
  entry_stats : list StatsRow;
  lock : LockRow;
  entries_fts : list FtsRow
}.

Definition with_entries (d : DB) (rows : list EntryRow) (seq : Z) : DB :=
  mkDB rows seq (tags d) (tags_seq d) (entry_tags d) (entry_stats d) (lock d) (entries_fts d).
Definition with_tags (d : DB) (rows : list TagRow) (seq : Z) : DB :=
  mkDB (entries d) (entries_seq d) rows seq (entry_tags d) (entry_stats d) (lock d) (entries_fts d).
Definition with_entry_tags (d : DB) (rows : list EntryTagRow) : DB :=
  mkDB (entries d) (entries_seq d) (tags d) (tags_seq d) rows (entry_stats d) (lock d) (entries_fts d).
Definition with_entry_stats (d : DB) (rows : list StatsRow) : DB :=
  mkDB (entries d) (entries_seq d) (tags d) (tags_seq d) (entry_tags d) rows (lock d) (entries_fts d).
Definition with_lock (d : DB) (l : LockRow) : DB :=
  mkDB (entries d) (entries_seq d) (tags d) (tags_seq d) (entry_tags d) (entry_stats d) l (entries_fts d).
Definition with_entries_fts (d : DB) (rows : list FtsRow) : DB :=
  mkDB (entries d) (entries_seq d) (tags d) (tags_seq d) (entry_tags d) (entry_stats d) (lock d) rows.

(** [Open] on a fresh path: schema.sql has run, the lock row is
    [(1, 0, '')], the FTS5 table exists and is empty. *)
Definition Open : DB := mkDB [] 0 [] 0 [] [] (mkLockRow 0 "") [].

(** ** Go structs of db.go *)

Record Entry := mkEntry {
  ID : Z;
  Slug : string;
  Title : string;
  Description : string;
  Content : string;
  Kind : string;
  Language : string;
  Domain : string;
  Project : string;
  Version : Z;
  CreatedAt : string;
  UpdatedAt : string;
  Tags : slice string;
  Snippet : string
}.

Record EntryStats := mkEntryStats {
  Reads : Z;
  Searches : Z;
  Updates : Z;
  LastReadAt : option string;
  LastSearchAt : option string;
  LastUpdateAt : option string
}.

Record Tag := mkTag { Name : string; Count : Z }.

Record Filter := mkFilter {
  FilterKind : string;
  FilterLanguage : string;
  FilterDomain : string;
  FilterProject : string;
  FilterTag : string;
  FilterTags : slice string
}.

(** [db.Filter{}] *)
Definition no_filter : Filter := mkFilter "" "" "" "" "" NilSlice.

(** ** What the storage engine and the Go library compute *)

Class Engine := {
  (** SQLite's [length(X)] on a TEXT value *)
  sqlite_length : string → Z;
  (** whether FTS5 accepts the string as a MATCH expression *)
  fts5_syntax_ok : string → bool;
  (** [entries_fts MATCH ?] on one index row *)
  fts5_match : string → FtsRow → bool;
  (** the hidden [rank] column (bm25), which depends on the whole index *)
  fts5_rank : string → list FtsRow → FtsRow → Z;
  (** [snippet(entries_fts, 2, '>>>', '<<<', '...', 32)] *)
  fts5_snippet : string → FtsRow → string;
  (** the text SQLite stores when a number is bound to a TEXT column *)
  number_text : any → string;
  (** [hex.EncodeToString(sha256.Sum256(b))] *)
  sha256_hex : string → string;
  (** [strings.TrimSpace] *)
  TrimSpace : string → string
}.

(** ** Storage faults *)

(** The calls on [*sql.DB] and [*sql.Tx] whose error the write paths of
    db.go check. *)
Inductive call : Type :=
  | Begin
  | Commit
  | InsertEntries
  | InsertEntriesFts
  | DeleteEntriesFts
  | InsertEntryStats
  | DeleteEntryTags
  | InsertTags
  | SelectTagsId
  | InsertEntryTags
  | SelectEntriesId
  | UpdateEntries
  | SelectEntriesText
  | UpdateEntryStats
  | DeleteEntries
  | SelectEntriesVersion.

Global Instance call_eq_dec : EqDecision call.
Proof. solve_decision. Defined.

(** What the storage does to a call for reasons of its own (an I/O error, a
    full disk, a lock that outlasts [busy_timeout], a cancelled context):
    the error the driver returns, or nothing.  It may depend on the call
    and on the database the call meets. *)
Class Storage := { fault : call → DB → option error }.

(** The storage on which no call fails for such a reason.  It is the
    storage of every statement that names none. *)
Global Instance reliable : Storage := {| fault _ _ := None |}.

Section operations.
Context {eng : Engine} {io : Storage}.

(** ** Transactions *)

(** A statement sequence run on the transaction's working copy. *)
Definition Tx (A : Type) : Type := DB → result (A * DB).

Global Instance Tx_ret : MRet Tx := λ A a d, Ok (a, d).
Global Instance Tx_bind : MBind Tx := λ A B f m d,
  match m d with
  | Ok (a, d') => f a d'
  | Err e => Err e
  end.

(** [return fmt.Errorf(...)] inside a transaction body *)
Definition fail {A} (e : error) : Tx A := λ _, Err e.

(** [if err != nil { return fmt.Errorf("prefix: %w", err) }] *)
Definition wrapf {A} (prefix : string) (m : Tx A) : Tx A := λ d,
  match m d with
  | Ok r => Ok r
  | Err e => Err (Wrapf prefix e)
  end.

(** A call through [database/sql]: the storage's fault when it has one,
    the statement otherwise. *)
Definition run {A} (c : call) (m : Tx A) : Tx A := λ d,
  match fault c d with
  | Some e => Err e
  | None => m d
  end.

(** [tx, err := d.db.Begin(); defer tx.Rollback(); ...; tx.Commit()]:
    the effects of the calls from [Begin] to [Commit] become the database
    only when all of them, [Commit] included, return without error. *)
Definition transaction {A} (body : Tx A) (d : DB) : result A * DB :=
  match body d with
  | Ok (a, d') => (Ok a, d')
  | Err e => (Err e, d)
  end.

(** A statement issued on [d.db] itself is a transaction of its own. *)
Definition autocommit {A} (statement : Tx A) (d : DB) : result A * DB :=
  transaction statement d.

(** ** The SQL statements *)

(** AUTOINCREMENT: one more than the largest rowid the table ever held. *)
Definition next_rowid (seq : Z) (ids : list Z) : Z := 1 + foldr Z.max seq ids.

(** [INSERT INTO entries (slug, title, description, content, kind, language,
    domain, project) VALUES (?, ...)], returning [LastInsertId]. *)
Definition exec_insert_entries (now slug title description content kind language domain project : string) : Tx Z := λ d,
  if decide (32768 < sqlite_length content) then
    Err (ErrConstraint "CHECK constraint failed: length(content) <= 32768")
  else if decide (slug ∈ e_slug <$> entries d) then
    Err (ErrConstraint "UNIQUE constraint failed: entries.slug")
  else
    let id := next_rowid (entries_seq d) (e_id <$> entries d) in
    let row := mkEntryRow id slug title description content kind language domain project 1 now now in
    Ok (id, with_entries d (entries d ++ [row]) id).

(** [INSERT INTO entries_fts(rowid, title, description, content) VALUES (?, ?, ?, ?)] *)
Definition exec_insert_fts (rowid : Z) (title description content : string) : Tx unit := λ d,
  if decide (rowid ∈ fts_rowid <$> entries_fts d) then
    Err (ErrConstraint "constraint failed")
  else
    Ok (tt, with_entries_fts d (entries_fts d ++ [mkFtsRow rowid title description content])).

(** [DELETE FROM entries_fts WHERE rowid = ?] *)
Definition exec_delete_fts (rowid : Z) : Tx unit := λ d,
  Ok (tt, with_entries_fts d (filter (λ f, fts_rowid f ≠ rowid) (entries_fts d))).

(** [INSERT INTO entry_stats (entry_id) VALUES (?)] *)
Definition exec_insert_stats (entry_id : Z) : Tx unit := λ d,
  if decide (entry_id ∈ es_entry_id <$> entry_stats d) then
    Err (ErrConstraint "UNIQUE constraint failed: entry_stats.entry_id")
  else if decide (entry_id ∈ e_id <$> entries d) then
    Ok (tt, with_entry_stats d (entry_stats d ++ [mkStatsRow entry_id 0 0 0 None None None]))
  else
    Err (ErrConstraint "FOREIGN KEY constraint failed").

(** [DELETE FROM entry_tags WHERE entry_id = ?] *)
Definition exec_delete_entry_tags (entry_id : Z) : Tx unit := λ d,
  Ok (tt, with_entry_tags d (filter (λ et, et_entry_id et ≠ entry_id) (entry_tags d))).

(** [INSERT OR IGNORE INTO tags (name) VALUES (?)].  The rowid is drawn
    before the UNIQUE constraint is looked at, and the AUTOINCREMENT counter
    keeps it also when the row is ignored. *)
Definition exec_insert_or_ignore_tags (name : string) : Tx unit := λ d,
  let id := next_rowid (tags_seq d) (t_id <$> tags d) in
  if decide (name ∈ t_name <$> tags d) then Ok (tt, with_tags d (tags d) id)
  else Ok (tt, with_tags d (tags d ++ [mkTagRow id name]) id).

(** [SELECT id FROM tags WHERE name = ?], scanned with [QueryRow] *)
Definition query_tag_id (name : string) : Tx Z := λ d,
  match head (filter (λ t, t_name t = name) (tags d)) with
  | Some t => Ok (t_id t, d)
  | None => Err ErrNoRows
  end.

(** [INSERT OR IGNORE INTO entry_tags (entry_id, tag_id) VALUES (?, ?)] *)
Definition exec_insert_or_ignore_entry_tags (entry_id tag_id : Z) : Tx unit := λ d,
  if decide (mkEntryTagRow entry_id tag_id ∈ entry_tags d) then Ok (tt, d)
  else if decide (entry_id ∈ e_id <$> entries d ∧ tag_id ∈ t_id <$> tags d) then
    Ok (tt, with_entry_tags d (entry_tags d ++ [mkEntryTagRow entry_id tag_id]))
  else
    Err (ErrConstraint "FOREIGN KEY constraint failed").

(** [SELECT id FROM entries WHERE slug = ?] *)
Definition query_entry_id (slug : string) (d : DB) : option Z :=
  e_id <$> head (filter (λ e, e_slug e = slug) (entries d)).

(** What [database/sql] and SQLite make of a Go value bound to a TEXT
    column. *)
Inductive sqlvalue : Type :=
  | SqlNull
  | SqlText (s : string).

Definition bind (v : any) : result sqlvalue :=
  match v with
  | VNil => Ok SqlNull
  | VString s => Ok (SqlText s)
  | VBool b => Ok (SqlText (if b then "1" else "0"))
  | VFloat64 _ | VInt _ => Ok (SqlText (number_text v))
  | VStrings _ | VSlice _ | VMap _ => Err (ErrDriver "sql: converting argument: unsupported type")
  end.

Fixpoint bind_all (sets : list (string * any)) : result (list (string * sqlvalue)) :=
  match sets with
  | [] => Ok []
  | (col, v) :: rest =>
    match bind v with
    | Err e => Err e
    | Ok sv =>
      match bind_all rest with
      | Err e => Err e
      | Ok svs => Ok ((col, sv) :: svs)
      end
    end
  end.

(** [SET col = ?] on one row *)
Definition set_column (r : EntryRow) (col v : string) : EntryRow :=
  let pick (name old : string) := if decide (col = name) then v else old in
  mkEntryRow (e_id r) (e_slug r)
    (pick "title" (e_title r)) (pick "description" (e_description r))
    (pick "content" (e_content r)) (pick "kind" (e_kind r))
    (pick "language" (e_language r)) (pick "domain" (e_domain r))
    (pick "project" (e_project r))
    (e_version r) (e_created_at r) (e_updated_at r).

(** The row after [SET c1 = ?, ..., version = version + 1,
    updated_at = datetime('now')]; [None] when a NOT NULL column would
    receive NULL. *)
Fixpoint updated_row (now : string) (r : EntryRow) (sets : list (string * sqlvalue)) : option EntryRow :=
  match sets with
  | [] =>
    Some (mkEntryRow (e_id r) (e_slug r) (e_title r) (e_description r) (e_content r)
            (e_kind r) (e_language r) (e_domain r) (e_project r)
            (e_version r + 1) (e_created_at r) now)
  | (_, SqlNull) :: _ => None
  | (col, SqlText v) :: rest => updated_row now (set_column r col v) rest
  end.

Fixpoint update_rows (now : string) (id : Z) (sets : list (string * sqlvalue)) (rows : list EntryRow) : result (list EntryRow) :=
  match rows with
  | [] => Ok []
  | r :: rest =>
    if decide (e_id r = id) then
      match updated_row now r sets with
      | None => Err (ErrConstraint "NOT NULL constraint failed")
      | Some r' =>
        if decide (32768 < sqlite_length (e_content r')) then
          Err (ErrConstraint "CHECK constraint failed: length(content) <= 32768")
        else
          match update_rows now id sets rest with
          | Err e => Err e
          | Ok rest' => Ok (r' :: rest')
          end
      end
    else
      match update_rows now id sets rest with
      | Err e => Err e
      | Ok rest' => Ok (r :: rest')
      end
  end.

(** [UPDATE entries SET <clauses>, version = version + 1,
    updated_at = datetime('now') WHERE id = ?] *)
Definition exec_update_entries (now : string) (id : Z) (sets : list (string * any)) : Tx unit := λ d,
  match bind_all sets with
  | Err e => Err e
  | Ok svs =>
    match update_rows now id svs (entries d) with
    | Err e => Err e
    | Ok rows => Ok (tt, with_entries d rows (entries_seq d))
    end
  end.

(** [SELECT title, description, content FROM entries WHERE id = ?] *)
Definition query_fts_source (id : Z) : Tx (string * string * string) := λ d,
  match head (filter (λ e, e_id e = id) (entries d)) with
  | Some e => Ok ((e_title e, e_description e, e_content e), d)
  | None => Err ErrNoRows
  end.

(** [UPDATE entry_stats SET updates = updates + 1, last_update_at = ?
    WHERE entry_id = ?] *)
Definition bump_updates (now : string) (entry_id : Z) (d : DB) : DB :=
  with_entry_stats d
    ((λ s, if decide (es_entry_id s = entry_id)
           then mkStatsRow (es_entry_id s) (es_reads s) (es_searches s) (es_updates s + 1)
                  (es_last_read_at s) (es_last_search_at s) (Some now)
           else s) <$> entry_stats d).

(** [UPDATE entry_stats SET reads = reads + 1, last_read_at = ?
    WHERE entry_id = ?] *)
Definition bump_reads (now : string) (entry_id : Z) (d : DB) : DB :=
  with_entry_stats d
    ((λ s, if decide (es_entry_id s = entry_id)
           then mkStatsRow (es_entry_id s) (es_reads s + 1) (es_searches s) (es_updates s)
                  (Some now) (es_last_search_at s) (es_last_update_at s)
           else s) <$> entry_stats d).

(** [UPDATE entry_stats SET searches = searches + 1, last_search_at = ?
    WHERE entry_id = ?] *)
Definition bump_searches (now : string) (entry_id : Z) (d : DB) : DB :=
  with_entry_stats d
    ((λ s, if decide (es_entry_id s = entry_id)
           then mkStatsRow (es_entry_id s) (es_reads s) (es_searches s + 1) (es_updates s)
                  (es_last_read_at s) (Some now) (es_last_update_at s)
           else s) <$> entry_stats d).

Definition exec_bump_updates (now : string) (entry_id : Z) : Tx unit := λ d,
  Ok (tt, bump_updates now entry_id d).

(** [DELETE FROM entries WHERE id = ?]; with [PRAGMA foreign_keys=ON] the
    deletion of the row cascades to [entry_tags] and [entry_stats]. *)
Definition exec_delete_entries (id : Z) : Tx unit := λ d,
  if decide (id ∈ e_id <$> entries d) then
    Ok (tt, mkDB (filter (λ e, e_id e ≠ id) (entries d)) (entries_seq d)
              (tags d) (tags_seq d)
              (filter (λ et, et_entry_id et ≠ id) (entry_tags d))
              (filter (λ s, es_entry_id s ≠ id) (entry_stats d))
              (lock d) (entries_fts d))
  else Ok (tt, d).

(** ** Helpers of db.go *)

Definition hashToken (token : string) : string := sha256_hex token.

Definition defaultStr (s def : string) : string :=
  if decide (s = "") then def else s.

(** The loop of [setTags]. *)
Fixpoint setTags_loop (entryID : Z) (tags : list string) : Tx unit :=
  match tags with
  | [] => mret tt
  | tagName :: rest =>
    let tagName := TrimSpace tagName in
    if decide (tagName = "") then setTags_loop entryID rest
    else
      _ ← run InsertTags (exec_insert_or_ignore_tags tagName);
      tagID ← run SelectTagsId (query_tag_id tagName);
      _ ← run InsertEntryTags (exec_insert_or_ignore_entry_tags entryID tagID);
      setTags_loop entryID rest
  end.

(** [setTags] replaces all tags for an entry within a transaction. *)
Definition setTags (entryID : Z) (tags : slice string) : Tx unit :=
  _ ← run DeleteEntryTags (exec_delete_entry_tags entryID);
  setTags_loop entryID (items tags).

(** The rows of [SELECT t.name FROM tags t JOIN entry_tags et
    ON et.tag_id = t.id WHERE et.entry_id = ?], before ORDER BY. *)
Definition query_tag_names (d : DB) (entryID : Z) : list string :=
  t ← tags d;
  et ← entry_tags d;
  if decide (et_tag_id et = t_id t ∧ et_entry_id et = entryID) then [t_name t] else [].

(** [getTagsForEntry] returns all tag names for a given entry,
    [ORDER BY t.name]. *)
Definition getTagsForEntry (d : DB) (entryID : Z) : slice string :=
  let tags := collect (merge_sort String.le (query_tag_names d entryID)) in
  if is_nil tags then Slice [] else tags.


(** ** Operations of db.go *)

(** [QueryRow(`SELECT id FROM entries WHERE slug = ?`).Scan(&entryID)] *)
Definition query_row_entry_id (slug : string) : Tx Z := λ d,
  match query_entry_id slug d with
  | Some entryID => Ok (entryID, d)
  | None => Err ErrNoRows
  end.

(** ... with the branches on its error that follow it in [UpdateEntry]
    and [DeleteEntry]. *)
Definition scan_entry_id (slug : string) : Tx Z := λ d,
  match run SelectEntriesId (query_row_entry_id slug) d with
  | Ok r => Ok r
  | Err ErrNoRows => Err (Errorf ("entry not found: " +:+ slug))
  | Err err => Err (Wrapf "lookup" err)
  end.

(** [QueryRow(`SELECT version, created_at, updated_at FROM entries
    WHERE id = ?`).Scan(...)] *)
Definition query_row_version (id : Z) : Tx EntryRow := λ d,
  match head (filter (λ r, e_id r = id) (entries d)) with
  | Some r => Ok (r, d)
  | None => Err ErrNoRows
  end.

(** [CreateEntry] inserts a new entry with its tags and stats row.  The
    [*Entry] argument comes back with ID, Version, CreatedAt and UpdatedAt
    filled in; the read-back that fills the last three runs on [d.db],
    after [Commit]. *)
Definition CreateEntry (now : string) (e : Entry) (d : DB) : result Entry * DB :=
  let body : Tx Z :=
    _ ← wrapf "begin" (run Begin (mret tt));
    entryID ← wrapf "insert entry"
      (run InsertEntries
         (exec_insert_entries now (Slug e) (Title e) (Description e) (Content e)
            (defaultStr (Kind e) "skill") (Language e) (Domain e) (Project e)));
    _ ← wrapf "insert fts"
      (run InsertEntriesFts (exec_insert_fts entryID (Title e) (Description e) (Content e)));
    _ ← wrapf "insert stats" (run InsertEntryStats (exec_insert_stats entryID));
    _ ← wrapf "set tags" (setTags entryID (Tags e));
    _ ← wrapf "commit" (run Commit (mret tt));
    mret entryID in
  match transaction body d with
  | (Err err, d') => (Err err, d')
  | (Ok entryID, d') =>
    match run SelectEntriesVersion (query_row_version entryID) d' with
    | Ok (r, _) =>
      (Ok (mkEntry entryID (Slug e) (Title e) (Description e) (Content e) (Kind e)
             (Language e) (Domain e) (Project e)
             (e_version r) (e_created_at r) (e_updated_at r) (Tags e) (Snippet e)), d')
    | Err err => (Err err, d')
    end
  end.

(** A scanned row with all columns. *)
Definition full_entry (r : EntryRow) (tags : slice string) : Entry :=
  mkEntry (e_id r) (e_slug r) (e_title r) (e_description r) (e_content r) (e_kind r)
    (e_language r) (e_domain r) (e_project r) (e_version r)
    (e_created_at r) (e_updated_at r) tags "".

(** A scanned row of a SELECT that leaves [content] out. *)
Definition listed_entry (r : EntryRow) (tags : slice string) (snippet : string) : Entry :=
  mkEntry (e_id r) (e_slug r) (e_title r) (e_description r) "" (e_kind r)
    (e_language r) (e_domain r) (e_project r) (e_version r)
    (e_created_at r) (e_updated_at r) tags snippet.

(** [GetEntry] retrieves a full entry by slug and bumps the read counter. *)
Definition GetEntry (now : string) (slug : string) (d : DB) : result Entry * DB :=
  match head (filter (λ r, e_slug r = slug) (entries d)) with
  | None => (Err (Errorf ("entry not found: " +:+ slug)), d)
  | Some r =>
    let tags := getTagsForEntry d (e_id r) in
    (Ok (full_entry r tags), bump_reads now (e_id r) d)
  end.

Definition columns : list string :=
  ["title"; "description"; "content"; "kind"; "language"; "domain"; "project"].

(** The [setClauses]/[args] pair built from the keys present in [fields]. *)
Definition set_clauses (fields : gmap string any) : list (string * any) :=
  omap (λ col, (λ v, (col, v)) <$> fields !! col) columns.

(** The type switch on [fields["tags"]]. *)
Definition tag_list (tagsVal : any) : slice string :=
  match tagsVal with
  | VStrings v => Slice v
  | VSlice v =>
    foldl (λ tagList t, match t with VString s => go_append tagList s | _ => tagList end)
      NilSlice v
  | _ => NilSlice
  end.

(** [UpdateEntry] updates only the provided fields for the entry
    identified by slug. *)
Definition UpdateEntry (now : string) (slug : string) (fields : gmap string any) (d : DB) : result unit * DB :=
  let body : Tx unit :=
    _ ← wrapf "begin" (run Begin (mret tt));
    entryID ← scan_entry_id slug;
    _ ← wrapf "update entry"
      (run UpdateEntries (exec_update_entries now entryID (set_clauses fields)));
    _ ← wrapf "fts delete" (run DeleteEntriesFts (exec_delete_fts entryID));
    src ← wrapf "fts read" (run SelectEntriesText (query_fts_source entryID));
    _ ← wrapf "fts insert" (run InsertEntriesFts (exec_insert_fts entryID src.1.1 src.1.2 src.2));
    _ ← match fields !! "tags" with
        | Some tagsVal => wrapf "update tags" (setTags entryID (tag_list tagsVal))
        | None => mret tt
        end;
    _ ← wrapf "update stats" (run UpdateEntryStats (exec_bump_updates now entryID));
    run Commit (mret tt) in
  transaction body d.

(** [DeleteEntry] removes an entry by slug; CASCADE handles entry_tags and
    entry_stats.  The lookup and the two DELETEs go to [d.db] one by one,
    with no transaction around them. *)
Definition DeleteEntry (slug : string) (d : DB) : result unit * DB :=
  match autocommit (scan_entry_id slug) d with
  | (Err err, d1) => (Err err, d1)
  | (Ok entryID, d1) =>
    match autocommit (wrapf "delete fts" (run DeleteEntriesFts (exec_delete_fts entryID))) d1 with
    | (Err err, d2) => (Err err, d2)
    | (Ok _, d2) =>
      match autocommit (wrapf "delete entry" (run DeleteEntries (exec_delete_entries entryID))) d2 with
      | (Err err, d3) => (Err err, d3)
      | (Ok _, d3) => (Ok tt, d3)
      end
    end
  end.

(** The sentinel [ErrNotFound] of the revision of db.go that threads a
    [context.Context] through its calls, and [errors.Is]. *)
Definition ErrNotFound : error := Errorf "entry not found".

Fixpoint errors_Is (err target : error) : bool :=
  bool_decide (err = target)
  || match err with
     | Wrapf _ cause => errors_Is cause target
     | _ => false
     end.

(** [DeleteEntry(ctx, slug)] of that revision: FTS and entry deletion are
    done in a single transaction. *)
Definition DeleteEntry_ctx (slug : string) (d : DB) : result unit * DB :=
  let lookup : Tx Z := λ d,
    match run SelectEntriesId (query_row_entry_id slug) d with
    | Ok r => Ok r
    | Err err =>
      if errors_Is err ErrNoRows
      then Err (Wrapf ("entry not found: " +:+ slug) ErrNotFound)
      else Err (Wrapf "lookup" err)
    end in
  let body : Tx unit :=
    _ ← wrapf "begin" (run Begin (mret tt));
    entryID ← lookup;
    _ ← wrapf "delete fts" (run DeleteEntriesFts (exec_delete_fts entryID));
    _ ← wrapf "delete entry" (run DeleteEntries (exec_delete_entries entryID));
    run Commit (mret tt) in
  transaction body d.

(** The conjunction of the [e.kind = ?], [e.language = ?], [e.domain = ?]
    and [e.project = ?] clauses that the non-empty filter fields add. *)
Definition matches (f : Filter) (e : EntryRow) : bool :=
  (bool_decide (FilterKind f = "") || bool_decide (e_kind e = FilterKind f))
  && (bool_decide (FilterLanguage f = "") || bool_decide (e_language e = FilterLanguage f))
  && (bool_decide (FilterDomain f = "") || bool_decide (e_domain e = FilterDomain f))
  && (bool_decide (FilterProject f = "") || bool_decide (e_project e = FilterProject f)).

(** [JOIN entry_tags et ON et.entry_id = e.id JOIN tags t ON t.id = et.tag_id]
    with [t.name = ?]: one output row per matching pair. *)
Definition join_tag {A} (d : DB) (key : A → Z) (name : string) (rows : list A) : list A :=
  r ← rows;
  et ← entry_tags d;
  t ← tags d;
  if decide (et_entry_id et = key r ∧ t_id t = et_tag_id et ∧ t_name t = name) then [r] else [].

Definition by_title (a b : EntryRow) : Prop := String.le (e_title a) (e_title b).
Definition by_slug (a b : EntryRow) : Prop := String.le (e_slug a) (e_slug b).

Global Instance by_title_dec : RelDecision by_title.
Proof. intros a b. unfold by_title. apply _. Defined.
Global Instance by_slug_dec : RelDecision by_slug.
Proof. intros a b. unfold by_slug. apply _. Defined.

(** [ListEntries] returns entries without content, optionally filtered. *)
Definition ListEntries (f : Filter) (d : DB) : result (slice Entry) :=
  let rows := filter (λ e, matches f e = true) (entries d) in
  let rows := if decide (FilterTag f = "") then rows else join_tag d e_id (FilterTag f) rows in
  let rows := merge_sort by_title rows in
  Ok (collect ((λ r, listed_entry r (getTagsForEntry d (e_id r)) "") <$> rows)).

(** The rows of the search query before ORDER BY and LIMIT: the index
    joined with [entries] on the rowid. *)
Definition search_hits (queryStr : string) (f : Filter) (d : DB) : list (FtsRow * EntryRow) :=
  let hits :=
    fts ← entries_fts d;
    e ← entries d;
    if decide (e_id e = fts_rowid fts ∧ fts5_match queryStr fts = true ∧ matches f e = true)
    then [(fts, e)] else [] in
  if decide (FilterTag f = "") then hits else join_tag d (λ h, e_id h.2) (FilterTag f) hits.

Definition by_rank (queryStr : string) (d : DB) (a b : FtsRow * EntryRow) : Prop :=
  fts5_rank queryStr (entries_fts d) a.1 ≤ fts5_rank queryStr (entries_fts d) b.1.

Global Instance by_rank_dec queryStr d : RelDecision (by_rank queryStr d).
Proof. intros a b. unfold by_rank. apply _. Defined.

(** [if limit <= 0 || limit > 50 { limit = def }], the first statement of
    [SearchEntries] (with 10) and of [GetEntriesByContext] (with 20). *)
Definition effective_limit (def limit : Z) : Z :=
  if decide (limit ≤ 0 ∨ limit > 50) then def else limit.

(** [SearchEntries] runs FTS5 search with optional filters, returns entries
    with snippets (no full content), and bumps the search counter of every
    returned entry. *)
Definition SearchEntries (now : string) (queryStr : string) (f : Filter) (limit : Z) (d : DB) : result (slice Entry) * DB :=
  let limit := effective_limit 10 limit in
  if fts5_syntax_ok queryStr then
    let rows := take (Z.to_nat limit) (merge_sort (by_rank queryStr d) (search_hits queryStr f d)) in
    let entries :=
      collect ((λ h, listed_entry h.2 (getTagsForEntry d (e_id h.2)) (fts5_snippet queryStr h.1)) <$> rows) in
    (Ok entries, foldl (λ d' e, bump_searches now (ID e) d') d (items entries))
  else (Err (Wrapf "search" (ErrDriver "fts5: syntax error")), d).

(** The rows of the context query before ORDER BY and LIMIT: every listed
    tag adds one more pair of joins. *)
Definition context_rows (f : Filter) (d : DB) : list EntryRow :=
  let rows := filter (λ e, matches f e = true) (entries d) in
  if decide (len (FilterTags f) > 0) then
    foldl (λ rows tag, join_tag d e_id tag rows) rows (items (FilterTags f))
  else if decide (FilterTag f = "") then rows
  else join_tag d e_id (FilterTag f) rows.

(** The tables in the FROM clause of the context query: [entries], and an
    [entry_tags] and a [tags] for every listed tag. *)
Definition context_tables (f : Filter) : Z :=
  if decide (len (FilterTags f) > 0) then 1 + 2 * len (FilterTags f)
  else if decide (FilterTag f = "") then 1
  else 3.

(** SQLite refuses to prepare a join of more tables than its bitmask of 64
    holds; [too_many_tables] is its message, which the driver hands on. *)
Definition sqlite_max_join : Z := 64.
Definition too_many_tables : error := ErrDriver "at most 64 tables in a join".

(** [GetEntriesByContext] returns full entries matching the given filters
    and bumps the read counter of every returned entry. *)
Definition GetEntriesByContext (now : string) (f : Filter) (limit : Z) (d : DB) : result (slice Entry) * DB :=
  let limit := effective_limit 20 limit in
  if decide (context_tables f > sqlite_max_join) then
    (Err (Wrapf "get by context" too_many_tables), d)
  else
    let rows := take (Z.to_nat limit) (merge_sort by_title (context_rows f d)) in
    let entries := collect ((λ r, full_entry r (getTagsForEntry d (e_id r))) <$> rows) in
    (Ok entries, foldl (λ d' e, bump_reads now (ID e) d') d (items entries)).

Definition by_count (a b : Tag) : Prop :=
  Count b < Count a ∨ (Count a = Count b ∧ String.le (Name a) (Name b)).

Global Instance by_count_dec : RelDecision by_count.
Proof. intros a b. unfold by_count. apply _. Defined.

(** [ListTags] returns all tags with their entry counts: the inner join
    grouped by the tag's primary key, [ORDER BY cnt DESC, t.name]. *)
Definition ListTags (d : DB) : result (slice Tag) :=
  let groups :=
    omap (λ t,
      let cnt := Z.of_nat (length (filter (λ et, et_tag_id et = t_id t) (entry_tags d))) in
      if decide (cnt = 0) then None else Some (mkTag (t_name t) cnt)) (tags d) in
  Ok (collect (merge_sort by_count groups)).

(** [GetStats] returns usage statistics for an entry. *)
Definition GetStats (slug : string) (d : DB) : result EntryStats :=
  let rows :=
    es ← entry_stats d;
    e ← entries d;
    if decide (e_id e = es_entry_id es ∧ e_slug e = slug) then [es] else [] in
  match head rows with
  | Some s =>
    Ok (mkEntryStats (es_reads s) (es_searches s) (es_updates s)
          (es_last_read_at s) (es_last_search_at s) (es_last_update_at s))
  | None => Err (Errorf ("entry not found: " +:+ slug))
  end.

(** [AllEntries] returns all entries with full content and tags. *)
Definition AllEntries (d : DB) : result (slice Entry) :=
  let rows := merge_sort by_slug (entries d) in
  Ok (collect ((λ r, full_entry r (getTagsForEntry d (e_id r))) <$> rows)).

(** [IsLocked] returns true if the database write lock is active. *)
Definition IsLocked (d : DB) : bool := bool_decide (lock_active (lock d) = 1).

(** [Lock] activates the write lock with the given token. *)
Definition Lock (token : string) (d : DB) : result unit * DB :=
  if decide (token = "") then (Err (Errorf "token must not be empty"), d)
  else if IsLocked d then (Err (Errorf "database is already locked"), d)
  else
    let hashed := hashToken token in
    (Ok tt, with_lock d (mkLockRow 1 hashed)).

(** [Unlock] deactivates the write lock; the token must match the one used
    to lock. *)
Definition Unlock (token : string) (d : DB) : result unit * DB :=
  if decide (token = "") then (Err (Errorf "token must not be empty"), d)
  else if negb (IsLocked d) then (Err (Errorf "database is not locked"), d)
  else
    let storedHash := lock_token (lock d) in
    if decide (storedHash ≠ hashToken token) then (Err (Errorf "invalid token"), d)
    else (Ok tt, with_lock d (mkLockRow 0 "")).

End operations.

(** ** Reading results, and the constraints of schema.sql as a predicate *)

(** The elements a listing call handed back ([nil] on error). *)
Definition found {A} (r : result (slice A)) : list A :=
  match r with
  | Ok xs => items xs
  | Err _ => []
  end.

(** The value of a text column, by its SQL name. *)
Definition column (col : string) (r : EntryRow) : string :=
  if decide (col = "title") then e_title r
  else if decide (col = "description") then e_description r
  else if decide (col = "content") then e_content r
  else if decide (col = "kind") then e_kind r
  else if decide (col = "language") then e_language r
  else if decide (col = "domain") then e_domain r
  else if decide (col = "project") then e_project r
  else "".

(** The index row that mirrors an entry row. *)
Definition index_row (e : EntryRow) : FtsRow :=
  mkFtsRow (e_id e) (e_title e) (e_description e) (e_content e).

(** The row a successful [DeleteEntry] of entry [id] leaves nothing of. *)
Definition without_entry (id : Z) (d : DB) : DB :=
  mkDB (filter (λ e, e_id e ≠ id) (entries d)) (entries_seq d)
       (tags d) (tags_seq d)
       (filter (λ et, et_entry_id et ≠ id) (entry_tags d))
       (filter (λ s, es_entry_id s ≠ id) (entry_stats d))
       (lock d)
       (filter (λ f, fts_rowid f ≠ id) (entries_fts d)).

Section invariants.
Context {eng : Engine}.

(** PRIMARY KEY and UNIQUE of [entries], [tags], [entry_tags] and
    [entry_stats], the CHECK on [content], and the foreign key of
    [entry_stats]. *)
Definition schema_ok (d : DB) : Prop :=
  NoDup (e_id <$> entries d)
  ∧ NoDup (e_slug <$> entries d)
  ∧ Forall (λ e, sqlite_length (e_content e) ≤ 32768) (entries d)
  ∧ NoDup (t_id <$> tags d)
  ∧ NoDup (t_name <$> tags d)
  ∧ NoDup (entry_tags d)
  ∧ NoDup (es_entry_id <$> entry_stats d)
  ∧ Forall (λ s, es_entry_id s ∈ e_id <$> entries d) (entry_stats d).

(** The full-text index holds exactly one row per entry, the mirror of its
    title, description and content. *)
Definition index_synced (d : DB) : Prop :=
  NoDup (fts_rowid <$> entries_fts d)
  ∧ Forall (λ f, f ∈ index_row <$> entries d) (entries_fts d)
  ∧ Forall (λ e, index_row e ∈ entries_fts d) (entries d).

Definition consistent (d : DB) : Prop := schema_ok d ∧ index_synced d.

Global Instance schema_ok_dec d : Decision (schema_ok d).
Proof. unfold schema_ok. apply _. Defined.
Global Instance index_synced_dec d : Decision (index_synced d).
Proof. unfold index_synced. apply _. Defined.
Global Instance consistent_dec d : Decision (consistent d).
Proof. unfold consistent. apply _. Defined.

(** The value column [col] holds after the SET clauses [svs] ran on a row
    that held [old]. *)
Fixpoint assigned (col : string) (svs : list (string * sqlvalue)) (old : string) : string :=
  match svs with
  | [] => old
  | (c, SqlText v) :: rest => assigned col rest (if decide (c = col) then v else old)
  | (_, SqlNull) :: rest => assigned col rest old
  end.

(** How [UPDATE ... WHERE id = ?] relates a row before to the row after. *)
Definition row_updated (now : string) (id : Z) (svs : list (string * sqlvalue)) (r r' : EntryRow) : Prop :=
  if decide (e_id r = id) then updated_row now r svs = Some r' else r' = r.

(** A property that every successful run of a statement sequence keeps. *)
Definition preserves {A} (P : DB → Prop) (m : Tx A) : Prop :=
  ∀ d a d', P d → m d = Ok (a, d') → P d'.

(** A statement sequence that neither reads nor writes the lock row: run
    under any lock row it does the same and hands the lock row back. *)
Definition lock_blind {A} (m : Tx A) : Prop :=
  ∀ d l, m (with_lock d l)
         = match m d with
           | Ok (a, d') => Ok (a, with_lock d' l)
           | Err e => Err e
           end.


(** [d'] differs from [d] in the AUTOINCREMENT counter of [tags] at
    most. *)
Definition same_rows (d d' : DB) : Prop :=
  entries d' = entries d
  ∧ entries_seq d' = entries_seq d
  ∧ tags d' = tags d
  ∧ entry_tags d' = entry_tags d
  ∧ entry_stats d' = entry_stats d
  ∧ lock d' = lock d
  ∧ entries_fts d' = entries_fts d.

(** [d'] differs from [d] only by tag rows added and by associations of
    entry [id] added. *)
Definition tags_grow (id : Z) (d d' : DB) : Prop :=
  entries d' = entries d
  ∧ entries_seq d' = entries_seq d
  ∧ entry_stats d' = entry_stats d
  ∧ lock d' = lock d
  ∧ entries_fts d' = entries_fts d
  ∧ (∃ added, tags d' = tags d ++ added)
  ∧ (∃ added, entry_tags d' = entry_tags d ++ added
              ∧ Forall (λ et, et_entry_id et = id) added).

End invariants.


(** The row [CreateEntry] inserts for [e] under rowid [id]. *)
Definition created_row (now : string) (e : Entry) (id : Z) : EntryRow :=
  mkEntryRow id (Slug e) (Title e) (Description e) (Content e)
    (defaultStr (Kind e) "skill") (Language e) (Domain e) (Project e) 1 now now.

(** The stats row [INSERT INTO entry_stats (entry_id)] creates. *)
Definition zero_stats (id : Z) : StatsRow := mkStatsRow id 0 0 0 None None None.

(** The database once the entry row, the index row and the stats row of a
    new entry are in, before its tags are set. *)
Definition with_new_entry (now : string) (e : Entry) (d : DB) : DB :=
  let id := next_rowid (entries_seq d) (e_id <$> entries d) in
  mkDB (entries d ++ [created_row now e id]) id (tags d) (tags_seq d)
    (entry_tags d) (entry_stats d ++ [zero_stats id]) (lock d)
    (entries_fts d ++ [index_row (created_row now e id)]).

(** The database once [UpdateEntry] has rewritten the entry rows to [rows]
    and resynchronised the index row of entry [id] from [src], before tags
    and stats are touched. *)
Definition with_updated_entry (id : Z) (rows : list EntryRow) (src : EntryRow) (d : DB) : DB :=
  mkDB rows (entries_seq d) (tags d) (tags_seq d) (entry_tags d)
    (entry_stats d) (lock d)
    (filter (λ f, fts_rowid f ≠ id) (entries_fts d) ++ [index_row src]).

(** ** The limit rule as the specification words it *)

(** "clamp to [lo, hi]" *)
Definition clamp (lo hi x : Z) : Z := Z.max lo (Z.min hi x).

(** "default [def] when unspecified, clamp to [1, 50]" *)
Definition spec_limit (def : Z) (limit : option Z) : Z :=
  match limit with
  | None => def
  | Some n => clamp 1 50 n
  end.

End db.

Module mcp.

(** ** JSON-RPC types *)

Record jsonrpcRequest := mkRequest {
  req_JSONRPC : string;
  req_ID : any;
  req_Method : string;
  (** the raw [params] member, already parsed as JSON; [None] when absent *)
  req_Params : option any
}.

Record rpcError := mkRpcError { Code : Z; Message : string }.

Record jsonrpcResponse := mkResponse {
  resp_JSONRPC : string;
  resp_ID : any;
  (** [VNil] when the member is left out *)
  resp_Result : any;
  resp_Error : option rpcError
}.

Definition rpcResult (id : any) (result : any) : jsonrpcResponse :=
  mkResponse "2.0" id result None.

Definition rpcErr (id : any) (code : Z) (msg : string) : jsonrpcResponse :=
  mkResponse "2.0" id VNil (Some (mkRpcError code msg)).

(** What a handler hands to [json.Marshal] inside [toolResult]. *)
Inductive payload : Type :=
  | PEntries (entries : slice db.Entry)
  | PEntry (entry : db.Entry)
  | PTags (tags : slice db.Tag)
  | PStrings (m : list (string * string)).

(** The goroutine either returns a response or panics. *)
Inductive reply : Type :=
  | Reply (resp : jsonrpcResponse)
  | Panic (msg : string).

Class Codec := {
  (** [json.Marshal] *)
  json_Marshal : payload → string;
  (** [base64.StdEncoding.EncodeToString] and [DecodeString] *)
  base64_encode : string → string;
  base64_decode : string → option string;
  (** the [int] that [strconv.Atoi] returns, its error dropped *)
  Atoi : string → Z;
  Atoi_int : ∀ s, - 2 ^ 63 ≤ Atoi s < 2 ^ 63;
  (** [strconv.Itoa] *)
  Itoa : Z → string
}.

Definition protocolVersion : string := "2025-11-25".
Definition serverName : string := "mcpedia".
Definition serverVersion : string := "0.1.0".
Definition resourcesPerPage : Z := 50.

(** [Server] implements the MCP protocol over HTTP. *)
Record Server := mkServer {
  DB : db.DB;
  Token : string;
  sessions : gset string
}.

Definition with_DB (s : Server) (d : db.DB) : Server := mkServer d (Token s) (sessions s).

(** Go's [int] addition on a 64-bit platform. *)
Definition wrap64 (x : Z) : Z := (x + 2 ^ 63) mod 2 ^ 64 - 2 ^ 63.

Definition LF : string := String (Ascii.ascii_of_nat 10) "".
Definition DQ : string := String (Ascii.ascii_of_nat 34) "".

(** [strings.TrimPrefix] *)
Definition TrimPrefix (s prefix : string) : string :=
  if String.prefix prefix s
  then String.substring (String.length prefix) (String.length s - String.length prefix) s
  else s.

(** ** Decoding request parameters *)

(** [m[key]] on a [map[string]any] written as an association list; of a
    key written twice the last one counts. *)
Fixpoint get_field (m : list (string * any)) (key : string) : option any :=
  match m with
  | [] => None
  | (k, v) :: rest =>
    match get_field rest key with
    | Some v' => Some v'
    | None => if decide (k = key) then Some v else None
    end
  end.

(** [json.Unmarshal] into a struct goes through the members of the JSON
    object in the order they are written.  A member goes to the field whose
    name it equals or, failing that, equals under case folding; a member
    that names no field is skipped.  A string field takes a JSON string,
    and [null] leaves it as it is; a map field takes the members of a JSON
    object, adding them to the map it holds, and [null] empties it.  A
    value of another type leaves the field as it is and is remembered:
    once the whole object is read, [Unmarshal] returns the first such
    mismatch as its error. *)

(** The [*json.UnmarshalTypeError]; its text also names the JSON type and
    the field. *)
Definition unmarshal_error : error := ErrDriver "json: cannot unmarshal value into Go struct field".

(** An ASCII letter without its case. *)
Definition fold_byte (a : Ascii.ascii) : Ascii.ascii :=
  let n := Ascii.nat_of_ascii a in
  if decide (65 ≤ n ≤ 90)%nat then Ascii.ascii_of_nat (n + 32) else a.

(** A key under the simple case folding of [encoding/json]: ASCII letters
    lose their case, and the two letters outside ASCII that fold onto ASCII
    ones, U+017F (long s, bytes C5 BF) and U+212A (Kelvin sign, bytes
    E2 84 AA), become [s] and [k]. *)
Fixpoint fold_key (s : string) : string :=
  let byte (a : Ascii.ascii) (n : nat) := bool_decide (Ascii.nat_of_ascii a = n) in
  match s with
  | EmptyString => EmptyString
  | String a rest =>
    match rest with
    | String b rest' =>
      if byte a 197%nat && byte b 191%nat then "s" +:+ fold_key rest'
      else
        match rest' with
        | String c rest'' =>
          if byte a 226%nat && byte b 132%nat && byte c 170%nat then "k" +:+ fold_key rest''
          else String (fold_byte a) (fold_key rest)
        | EmptyString => String (fold_byte a) (fold_key rest)
        end
    | EmptyString => String (fold_byte a) EmptyString
    end
  end.

(** Whether the member written under [key] goes to the field tagged
    [name].  The field names of one struct here differ under folding, so
    that the exact match needs no precedence over the folded one. *)
Definition names_field (name key : string) : bool :=
  bool_decide (key = name) || bool_decide (fold_key key = fold_key name).

(** [d.saveError]: the first error is the one that stays. *)
Definition saveError (saved : option error) (e : error) : option error :=
  match saved with
  | Some _ => saved
  | None => Some e
  end.

(** A value into a [string] field. *)
Definition store_string (v : any) (cur : string) (saved : option error) : string * option error :=
  match v with
  | VNil => (cur, saved)
  | VString s => (s, saved)
  | _ => (cur, saveError saved unmarshal_error)
  end.

(** A value into a [map[string]any] field. *)
Definition store_map (v : any) (cur : gmap string any) (saved : option error) : gmap string any * option error :=
  match v with
  | VNil => (∅, saved)
  | VMap kvs => (foldl (λ acc kv, <[kv.1 := kv.2]> acc) cur kvs, saved)
  | _ => (cur, saveError saved unmarshal_error)
  end.

(** A value into a [map[string]string] field: every member of the object
    sets its key, to the zero value when it is not a string. *)
Definition store_string_map (v : any) (cur : gmap string string) (saved : option error) : gmap string string * option error :=
  match v with
  | VNil => (∅, saved)
  | VMap kvs =>
    foldl (λ acc kv, let elem := store_string kv.2 "" acc.2 in (<[kv.1 := elem.1]> acc.1, elem.2))
      (cur, saved) kvs
  | _ => (cur, saveError saved unmarshal_error)
  end.

(** What [json.Unmarshal] returns for the error it saved. *)
Definition unmarshalled {A} (a : A) (saved : option error) : result A :=
  match saved with
  | None => Ok a
  | Some e => Err e
  end.

(** [json.Unmarshal(req.Params, &params)] for
    [struct { Name string; Arguments map[string]any }]: the struct as
    [Unmarshal] leaves it, and the saved error. *)
Definition decode_tools_call (p : option any) : (string * gmap string any) * option error :=
  match p with
  | None => (("", ∅), Some (ErrDriver "unexpected end of JSON input"))
  | Some VNil => (("", ∅), None)
  | Some (VMap m) =>
    foldl (λ st kv,
             if names_field "name" kv.1 then
               let f := store_string kv.2 st.1.1 st.2 in ((f.1, st.1.2), f.2)
             else if names_field "arguments" kv.1 then
               let f := store_map kv.2 st.1.2 st.2 in ((st.1.1, f.1), f.2)
             else st)
      (("", ∅), None) m
  | Some _ => (("", ∅), Some unmarshal_error)
  end.

Definition unmarshal_tools_call (p : option any) : result (string * gmap string any) :=
  unmarshalled (decode_tools_call p).1 (decode_tools_call p).2.

(** ... for [struct { Name string; Arguments map[string]string }]. *)
Definition decode_prompts_get (p : option any) : (string * gmap string string) * option error :=
  match p with
  | None => (("", ∅), Some (ErrDriver "unexpected end of JSON input"))
  | Some VNil => (("", ∅), None)
  | Some (VMap m) =>
    foldl (λ st kv,
             if names_field "name" kv.1 then
               let f := store_string kv.2 st.1.1 st.2 in ((f.1, st.1.2), f.2)
             else if names_field "arguments" kv.1 then
               let f := store_string_map kv.2 st.1.2 st.2 in ((st.1.1, f.1), f.2)
             else st)
      (("", ∅), None) m
  | Some _ => (("", ∅), Some unmarshal_error)
  end.

Definition unmarshal_prompts_get (p : option any) : result (string * gmap string string) :=
  unmarshalled (decode_prompts_get p).1 (decode_prompts_get p).2.

(** ... for a struct with the single string field tagged [name]. *)
Definition decode_string (name : string) (p : option any) : string * option error :=
  match p with
  | None => ("", Some (ErrDriver "unexpected end of JSON input"))
  | Some VNil => ("", None)
  | Some (VMap m) =>
    foldl (λ st kv, if names_field name kv.1 then store_string kv.2 st.1 st.2 else st)
      ("", None) m
  | Some _ => ("", Some unmarshal_error)
  end.

Definition unmarshal_string (name : string) (p : option any) : result string :=
  unmarshalled (decode_string name p).1 (decode_string name p).2.

(** ** Helpers *)

Definition str (m : gmap string any) (key : string) : string :=
  match m !! key with
  | Some (VString s) => s
  | _ => ""
  end.

Definition intVal (m : gmap string any) (key : string) (def : Z) : Z :=
  match m !! key with
  | Some (VFloat64 n) => n
  | Some (VInt n) => n
  | _ => def
  end.

Definition strSlice (m : gmap string any) (key : string) : slice string :=
  match m !! key with
  | None => NilSlice
  | Some (VSlice s) =>
    Slice (omap (λ item, match item with VString str => Some str | _ => None end) s)
  | Some (VStrings s) => Slice s
  | Some _ => NilSlice
  end.

(** ** The names the dispatcher knows, and what a tool-level failure is *)

(** The cases of the [switch req.Method] in [dispatch]. *)
Definition methods : list string :=
  ["initialize"; "ping"; "tools/list"; "tools/call"; "resources/list"; "resources/read";
   "resources/templates/list"; "prompts/list"; "prompts/get"].

(** The cases of the [switch params.Name] in [handleToolsCall]. *)
Definition tool_names : list string :=
  ["search_entries"; "get_entry"; "get_entries_by_context"; "list_entries"; "list_tags";
   "create_entry"; "update_entry"; "delete_entry"].

(** The cases of the [switch params.Name] in [handlePromptsGet]. *)
Definition prompt_names : list string := ["apply-entry"; "review-with-entry"; "save-learnings"].

(** "A successful protocol result marked as a tool-level failure": no
    [error] member, and a result whose [isError] is true. *)
Definition is_tool_failure (resp : jsonrpcResponse) : bool :=
  match resp_Error resp, resp_Result resp with
  | None, VMap m =>
    match get_field m "isError" with
    | Some (VBool true) => true
    | _ => false
    end
  | _, _ => false
  end.

(** "A protocol-level error": an [error] member and no result. *)
Definition is_protocol_error (code : Z) (resp : jsonrpcResponse) : bool :=
  match resp_Error resp, resp_Result resp with
  | Some e, VNil => bool_decide (Code e = code)
  | _, _ => false
  end.

Section handlers.
Context {eng : db.Engine} {io : db.Storage} {codec : Codec}.

Definition toolResult (id : any) (data : payload) : jsonrpcResponse :=
  let j := json_Marshal data in
  rpcResult id (VMap [
    ("content", VSlice [VMap [("type", VString "text"); ("text", VString j)]]);
    ("isError", VBool false)]).

Definition toolError (id : any) (msg : string) : jsonrpcResponse :=
  rpcResult id (VMap [
    ("content", VSlice [VMap [("type", VString "text"); ("text", VString msg)]]);
    ("isError", VBool true)]).

(** ** Initialize *)

(** [sessionID] is what [generateSessionID] draws from [crypto/rand]. *)
Definition handleInitialize (sessionID : string) (req : jsonrpcRequest) (s : Server) : jsonrpcResponse * Server :=
  let result := VMap [
    ("protocolVersion", VString protocolVersion);
    ("capabilities", VMap [("tools", VMap []); ("resources", VMap []); ("prompts", VMap [])]);
    ("serverInfo", VMap [("name", VString serverName); ("version", VString serverVersion)]);
    ("_sessionId", VString sessionID)] in
  (rpcResult (req_ID req) result, mkServer (DB s) (Token s) ({[sessionID]} ∪ sessions s)).

(** ** Tools *)

Definition checkLock (s : Server) : option error :=
  if db.IsLocked (DB s)
  then Some (Errorf "database is locked. Write operations are disabled")
  else None.

Definition toolSearchEntries (now : string) (id : any) (args : gmap string any) (s : Server) : jsonrpcResponse * Server :=
  let query := str args "query" in
  if decide (query = "") then (toolError id "query is required", s)
  else
    let limit := intVal args "limit" 10 in
    let f := db.mkFilter (str args "kind") (str args "language") (str args "domain")
               (str args "project") (str args "tag") NilSlice in
    match db.SearchEntries now query f limit (DB s) with
    | (Err err, d) => (toolError id (Error err), with_DB s d)
    | (Ok entries, d) => (toolResult id (PEntries entries), with_DB s d)
    end.

Definition toolGetEntry (now : string) (id : any) (args : gmap string any) (s : Server) : jsonrpcResponse * Server :=
  let slug := str args "slug" in
  if decide (slug = "") then (toolError id "slug is required", s)
  else
    match db.GetEntry now slug (DB s) with
    | (Err err, d) => (toolError id (Error err), with_DB s d)
    | (Ok entry, d) => (toolResult id (PEntry entry), with_DB s d)
    end.

Definition toolGetEntriesByContext (now : string) (id : any) (args : gmap string any) (s : Server) : jsonrpcResponse * Server :=
  let limit := intVal args "limit" 20 in
  let f := db.mkFilter (str args "kind") (str args "language") (str args "domain")
             (str args "project") "" (strSlice args "tags") in
  match db.GetEntriesByContext now f limit (DB s) with
  | (Err err, d) => (toolError id (Error err), with_DB s d)
  | (Ok entries, d) => (toolResult id (PEntries entries), with_DB s d)
  end.

Definition toolListEntries (id : any) (args : gmap string any) (s : Server) : jsonrpcResponse :=
  let f := db.mkFilter (str args "kind") (str args "language") (str args "domain")
             (str args "project") "" NilSlice in
  match db.ListEntries f (DB s) with
  | Err err => toolError id (Error err)
  | Ok entries => toolResult id (PEntries entries)
  end.

Definition toolListTags (id : any) (s : Server) : jsonrpcResponse :=
  match db.ListTags (DB s) with
  | Err err => toolError id (Error err)
  | Ok tags => toolResult id (PTags tags)
  end.

Definition toolCreateEntry (now : string) (id : any) (args : gmap string any) (s : Server) : jsonrpcResponse * Server :=
  match checkLock s with
  | Some err => (toolError id (Error err), s)
  | None =>
    let slug := str args "slug" in
    let title := str args "title" in
    let content := str args "content" in
    if decide (slug = "" ∨ title = "" ∨ content = "") then
      (toolError id "slug, title, and content are required", s)
    else
      let e := db.mkEntry 0 slug title (str args "description") content (str args "kind")
                 (str args "language") (str args "domain") (str args "project")
                 0 "" "" (strSlice args "tags") "" in
      match db.CreateEntry now e (DB s) with
      | (Err err, d) => (toolError id (Error err), with_DB s d)
      | (Ok e', d) => (toolResult id (PEntry e'), with_DB s d)
      end
  end.

Definition toolUpdateEntry (now : string) (id : any) (args : gmap string any) (s : Server) : jsonrpcResponse * Server :=
  match checkLock s with
  | Some err => (toolError id (Error err), s)
  | None =>
    let slug := str args "slug" in
    if decide (slug = "") then (toolError id "slug is required", s)
    else
      let fields : gmap string any :=
        foldl (λ fields key,
                 match args !! key with
                 | Some v => <[key := v]> fields
                 | None => fields
                 end) ∅ db.columns in
      let fields :=
        match args !! "tags" with
        | Some v => <["tags" := v]> fields
        | None => fields
        end in
      match db.UpdateEntry now slug fields (DB s) with
      | (Err err, d) => (toolError id (Error err), with_DB s d)
      | (Ok _, d) =>
        match db.GetEntry now slug d with
        | (Err err, d') => (toolError id (Error err), with_DB s d')
        | (Ok entry, d') => (toolResult id (PEntry entry), with_DB s d')
        end
      end
  end.

Definition toolDeleteEntry (id : any) (args : gmap string any) (s : Server) : jsonrpcResponse * Server :=
  match checkLock s with
  | Some err => (toolError id (Error err), s)
  | None =>
    let slug := str args "slug" in
    if decide (slug = "") then (toolError id "slug is required", s)
    else
      match db.DeleteEntry slug (DB s) with
      | (Err err, d) => (toolError id (Error err), with_DB s d)
      | (Ok _, d) => (toolResult id (PStrings [("deleted", slug)]), with_DB s d)
      end
  end.

(** [toolDefinitions]: the eight tool schemas. *)
Definition prop (type description : string) : any :=
  VMap [("type", VString type); ("description", VString description)].

Definition strings_prop (description : string) : any :=
  VMap [("type", VString "array"); ("items", VMap [("type", VString "string")]);
        ("description", VString description)].

Definition tool (name description : string) (inputSchema : list (string * any)) : any :=
  VMap [("name", VString name); ("description", VString description);
        ("inputSchema", VMap (("type", VString "object") :: inputSchema))].

Definition toolDefinitions : list any := [
  tool "search_entries"
    "Search knowledge entries using full-text search. Returns matching entries with snippets (no full content)."
    [("properties", VMap [
        ("query", prop "string" "Search query");
        ("language", prop "string" "Filter by programming language");
        ("domain", prop "string" "Filter by domain (e.g. fintech, ml, cli)");
        ("kind", prop "string" "Filter by kind (skill, rule, context, pattern, reference, guide)");
        ("tag", prop "string" "Filter by tag");
        ("project", prop "string" "Filter by project");
        ("limit", prop "integer" "Max results (default 10, max 50)")]);
     ("required", VStrings ["query"])];
  tool "get_entry"
    "Get a single knowledge entry by its slug, including full content."
    [("properties", VMap [("slug", prop "string" "The unique slug of the entry")]);
     ("required", VStrings ["slug"])];
  tool "get_entries_by_context"
    "Get all entries matching the given context (language, domain, kind, tags, project). Returns full content. Use this at the start of a task to load relevant knowledge."
    [("properties", VMap [
        ("language", prop "string" "Programming language");
        ("domain", prop "string" "Domain");
        ("kind", prop "string" "Entry kind");
        ("tags", strings_prop "Tags to match (all must be present)");
        ("project", prop "string" "Project slug");
        ("limit", prop "integer" "Max results (default 20, max 50)")])];
  tool "list_entries"
    "List all knowledge entries (slug, title, kind, language, domain -- no content). Supports optional filters."
    [("properties", VMap [
        ("kind", prop "string" "Filter by kind");
        ("language", prop "string" "Filter by language");
        ("domain", prop "string" "Filter by domain");
        ("project", prop "string" "Filter by project")])];
  tool "list_tags"
    "List all tags with their entry counts."
    [("additionalProperties", VBool false)];
  tool "create_entry"
    "Create a new knowledge entry. Requires slug, title, and content. Blocked if the database is locked."
    [("properties", VMap [
        ("slug", prop "string" "Unique slug (e.g. rust-error-handling)");
        ("title", prop "string" "Entry title");
        ("content", prop "string" "Main content (markdown, max 32KB)");
        ("description", prop "string" "Short summary for discovery");
        ("kind", prop "string" "Entry kind: skill, rule, context, pattern, reference, guide");
        ("language", prop "string" "Programming language");
        ("domain", prop "string" "Domain");
        ("project", prop "string" "Project slug");
        ("tags", strings_prop "Tags")]);
     ("required", VStrings ["slug"; "title"; "content"])];
  tool "update_entry"
    "Update an existing knowledge entry by slug. Only provided fields are updated. Blocked if the database is locked."
    [("properties", VMap [
        ("slug", prop "string" "Slug of the entry to update");
        ("title", prop "string" "New title");
        ("content", prop "string" "New content");
        ("description", prop "string" "New description");
        ("kind", prop "string" "New kind");
        ("language", prop "string" "New language");
        ("domain", prop "string" "New domain");
        ("project", prop "string" "New project");
        ("tags", strings_prop "New tags (replaces all existing tags)")]);
     ("required", VStrings ["slug"])];
  tool "delete_entry"
    "Delete a knowledge entry by slug. Blocked if the database is locked."
    [("properties", VMap [("slug", prop "string" "Slug of the entry to delete")]);
     ("required", VStrings ["slug"])]
].

Definition handleToolsList (req : jsonrpcRequest) : jsonrpcResponse :=
  rpcResult (req_ID req) (VMap [("tools", VSlice toolDefinitions)]).

Definition handleToolsCall (now : string) (req : jsonrpcRequest) (s : Server) : jsonrpcResponse * Server :=
  match unmarshal_tools_call (req_Params req) with
  | Err err => (rpcErr (req_ID req) (-32602) ("Invalid params: " +:+ Error err), s)
  | Ok (name, arguments) =>
    if decide (name = "search_entries") then toolSearchEntries now (req_ID req) arguments s
    else if decide (name = "get_entry") then toolGetEntry now (req_ID req) arguments s
    else if decide (name = "get_entries_by_context") then toolGetEntriesByContext now (req_ID req) arguments s
    else if decide (name = "list_entries") then (toolListEntries (req_ID req) arguments s, s)
    else if decide (name = "list_tags") then (toolListTags (req_ID req) s, s)
    else if decide (name = "create_entry") then toolCreateEntry now (req_ID req) arguments s
    else if decide (name = "update_entry") then toolUpdateEntry now (req_ID req) arguments s
    else if decide (name = "delete_entry") then toolDeleteEntry (req_ID req) arguments s
    else (rpcErr (req_ID req) (-32602) ("Unknown tool: " +:+ name), s)
  end.

(** ** Resources *)

(** [entries[offset:end]]; [None] is the run-time panic on bad bounds. *)
Definition subslice {A} (l : list A) (lo hi : Z) : option (list A) :=
  if decide (0 ≤ lo ∧ lo ≤ hi ∧ hi ≤ Z.of_nat (length l))
  then Some (take (Z.to_nat (hi - lo)) (drop (Z.to_nat lo) l))
  else None.

Definition resource_of (e : db.Entry) : any :=
  VMap [("uri", VString ("mcpedia://entries/" +:+ db.Slug e));
        ("name", VString (db.Slug e));
        ("title", VString (db.Title e));
        ("description", VString (db.Description e));
        ("mimeType", VString "text/markdown")].

(** The [offset] that [handleResourcesList] reads out of the request: the
    decimal number inside the base64 cursor, 0 without a usable cursor.
    The error of [json.Unmarshal] is dropped and the struct used as the
    decoder left it. *)
Definition cursor_offset (req : jsonrpcRequest) : Z :=
  let cursor :=
    match req_Params req with
    | None => ""
    | Some _ => (decode_string "cursor" (req_Params req)).1
    end in
  if decide (cursor = "") then 0
  else match base64_decode cursor with
       | Some decoded => Atoi decoded
       | None => 0
       end.

Definition handleResourcesList (req : jsonrpcRequest) (s : Server) : reply :=
  let offset := cursor_offset req in
  match db.ListEntries db.no_filter (DB s) with
  | Err err => Reply (rpcErr (req_ID req) (-32603) (Error err))
  | Ok entries =>
    let end_ := wrap64 (offset + resourcesPerPage) in
    let end_ := if decide (end_ > len entries) then len entries else end_ in
    let page :=
      if decide (offset < len entries) then subslice (items entries) offset end_
      else Some [] in
    match page with
    | None => Panic "slice bounds out of range"
    | Some page =>
      let resources := VSlice (resource_of <$> page) in
      let result :=
        if decide (end_ < len entries)
        then [("resources", resources); ("nextCursor", VString (base64_encode (Itoa end_)))]
        else [("resources", resources)] in
      Reply (rpcResult (req_ID req) (VMap result))
    end
  end.

Definition handleResourcesRead (now : string) (req : jsonrpcRequest) (s : Server) : jsonrpcResponse * Server :=
  match unmarshal_string "uri" (req_Params req) with
  | Err _ => (rpcErr (req_ID req) (-32602) "Invalid params", s)
  | Ok uri =>
    let slug := TrimPrefix uri "mcpedia://entries/" in
    if decide (slug = "" ∨ slug = uri) then
      (rpcErr (req_ID req) (-32002) ("Invalid resource URI: " +:+ uri), s)
    else
      match db.GetEntry now slug (DB s) with
      | (Err err, d) => (rpcErr (req_ID req) (-32002) (Error err), with_DB s d)
      | (Ok entry, d) =>
        (rpcResult (req_ID req) (VMap [
           ("contents", VSlice [VMap [
              ("uri", VString uri);
              ("mimeType", VString "text/markdown");
              ("text", VString (db.Content entry))]])]),
         with_DB s d)
      end
  end.

Definition handleResourcesTemplatesList (req : jsonrpcRequest) : jsonrpcResponse :=
  rpcResult (req_ID req) (VMap [
    ("resourceTemplates", VSlice [VMap [
       ("uriTemplate", VString "mcpedia://entries/{slug}");
       ("name", VString "MCPedia Entry");
       ("description", VString "Access a knowledge entry by its slug");
       ("mimeType", VString "text/markdown")]])]).

(** ** Prompts *)

Definition prompt_argument (name description : string) : any :=
  VMap [("name", VString name); ("description", VString description); ("required", VBool true)].

Definition handlePromptsList (req : jsonrpcRequest) : jsonrpcResponse :=
  rpcResult (req_ID req) (VMap [
    ("prompts", VSlice [
       VMap [("name", VString "apply-entry"); ("title", VString "Apply Entry");
             ("description", VString "Apply a knowledge entry's guidelines to the current task");
             ("arguments", VSlice [prompt_argument "slug" "The slug of the entry to apply"])];
       VMap [("name", VString "review-with-entry"); ("title", VString "Review With Entry");
             ("description", VString "Review code against a knowledge entry's guidelines");
             ("arguments", VSlice [prompt_argument "slug" "The slug of the entry to review against"])];
       VMap [("name", VString "save-learnings"); ("title", VString "Save Learnings");
             ("description", VString "Extract and save reusable knowledge from the current task");
             ("arguments", VSlice [])]])]).

Definition prompt_result (description text : string) : any :=
  VMap [("description", VString description);
        ("messages", VSlice [VMap [
           ("role", VString "user");
           ("content", VMap [("type", VString "text"); ("text", VString text)])]])].

Definition save_learnings_text : string :=
  "Analyze what was accomplished in this conversation and identify reusable knowledge that should be saved. For each piece of knowledge:"
  +:+ LF +:+ LF
  +:+ "1. Determine if it's a skill, rule, context, pattern, reference, or guide" +:+ LF
  +:+ "2. Choose a descriptive slug (e.g. " +:+ DQ +:+ "rust-error-handling" +:+ DQ +:+ ", "
  +:+ DQ +:+ "project-foo-auth-flow" +:+ DQ +:+ ")" +:+ LF
  +:+ "3. Write concise, actionable content (under 32KB)" +:+ LF
  +:+ "4. Assign appropriate language, domain, project, and tags" +:+ LF +:+ LF
  +:+ "Use the create_entry tool to save each piece. Keep entries granular -- one concept per entry.".

Definition handlePromptsGet (now : string) (req : jsonrpcRequest) (s : Server) : jsonrpcResponse * Server :=
  match unmarshal_prompts_get (req_Params req) with
  | Err _ => (rpcErr (req_ID req) (-32602) "Invalid params", s)
  | Ok (name, arguments) =>
    if decide (name = "apply-entry") then
      let slug := default "" (arguments !! "slug") in
      if decide (slug = "") then (rpcErr (req_ID req) (-32602) "slug argument is required", s)
      else
        match db.GetEntry now slug (DB s) with
        | (Err err, d) => (rpcErr (req_ID req) (-32602) (Error err), with_DB s d)
        | (Ok entry, d) =>
          (rpcResult (req_ID req)
             (prompt_result ("Apply entry: " +:+ db.Title entry)
                ("You have been given the following guide to follow:" +:+ LF +:+ LF +:+ "# "
                 +:+ db.Title entry +:+ LF +:+ LF +:+ db.Content entry +:+ LF +:+ LF
                 +:+ "Apply these guidelines to the current task. Follow them precisely.")),
           with_DB s d)
        end
    else if decide (name = "review-with-entry") then
      let slug := default "" (arguments !! "slug") in
      if decide (slug = "") then (rpcErr (req_ID req) (-32602) "slug argument is required", s)
      else
        match db.GetEntry now slug (DB s) with
        | (Err err, d) => (rpcErr (req_ID req) (-32602) (Error err), with_DB s d)
        | (Ok entry, d) =>
          (rpcResult (req_ID req)
             (prompt_result ("Review with entry: " +:+ db.Title entry)
                ("Review the code in this conversation against the following guidelines:"
                 +:+ LF +:+ LF +:+ "# " +:+ db.Title entry +:+ LF +:+ LF +:+ db.Content entry
                 +:+ LF +:+ LF
                 +:+ "Point out any violations and suggest fixes. Be specific with line references.")),
           with_DB s d)
        end
    else if decide (name = "save-learnings") then
      (rpcResult (req_ID req)
         (prompt_result "Save learnings from the current task" save_learnings_text), s)
    else (rpcErr (req_ID req) (-32602) ("Unknown prompt: " +:+ name), s)
  end.

(** ** The method table *)

Definition dispatch (now sessionID : string) (req : jsonrpcRequest) (s : Server) : reply * Server :=
  let returned (r : jsonrpcResponse * Server) : reply * Server := (Reply r.1, r.2) in
  if decide (req_Method req = "initialize") then returned (handleInitialize sessionID req s)
  else if decide (req_Method req = "ping") then (Reply (rpcResult (req_ID req) (VMap [])), s)
  else if decide (req_Method req = "tools/list") then (Reply (handleToolsList req), s)
  else if decide (req_Method req = "tools/call") then returned (handleToolsCall now req s)
  else if decide (req_Method req = "resources/list") then (handleResourcesList req s, s)
  else if decide (req_Method req = "resources/read") then returned (handleResourcesRead now req s)
  else if decide (req_Method req = "resources/templates/list") then (Reply (handleResourcesTemplatesList req), s)
  else if decide (req_Method req = "prompts/list") then (Reply (handlePromptsList req), s)
  else if decide (req_Method req = "prompts/get") then returned (handlePromptsGet now req s)
  else (Reply (rpcErr (req_ID req) (-32601) ("Method not found: " +:+ req_Method req)), s).

End handlers.

(** ** The HTTP handler *)

(** What [serveRequest] reads of an [*http.Request]. *)
Record httpRequest := mkHttpRequest {
  http_Method : string;
  (** [r.Header.Get("Authorization")] *)
  Authorization : string;
  (** [io.ReadAll(r.Body)] followed by [json.Unmarshal(body, &req)]: [None]
      when the body cannot be read, [Some None] when it is not the JSON of
      a request *)
  http_Body : option (option jsonrpcRequest);
  (** [r.Header.Get("Mcp-Session-Id")] *)
  McpSessionId : string
}.

(** What it writes: [http.Error], [writeJSON] (with the [Mcp-Session-Id]
    header when one was set), a bare [WriteHeader], or nothing because the
    handler panicked. *)
Inductive httpResponse : Type :=
  | HttpError (status : Z) (msg : string)
  | HttpJSON (status : Z) (session : option string) (resp : jsonrpcResponse)
  | HttpStatus (status : Z)
  | HttpPanic (msg : string).

(** The [_sessionId] member of an initialize result moves to the header:
    [w.Header().Set("Mcp-Session-Id", sid); delete(result, "_sessionId")]. *)
Definition strip_session (resp : jsonrpcResponse) : option string * jsonrpcResponse :=
  match resp_Error resp, resp_Result resp with
  | None, VMap result =>
    match get_field result "_sessionId" with
    | Some (VString sid) =>
      (Some sid,
       mkResponse (resp_JSONRPC resp) (resp_ID resp)
         (VMap (filter (λ kv, kv.1 ≠ "_sessionId") result)) (resp_Error resp))
    | _ => (None, resp)
    end
  | _, _ => (None, resp)
  end.

Section transport.
Context {eng : db.Engine} {io : db.Storage} {codec : Codec}.

(** [newSessionID] is what [generateSessionID] would draw. *)
Definition serveRequest (now newSessionID : string) (r : httpRequest) (s : Server) : httpResponse * Server :=
  if decide (http_Method r ≠ "POST") then (HttpError 405 "Method not allowed", s)
  else if decide (Token s ≠ ""
                  ∧ (String.prefix "Bearer " (Authorization r) = false
                     ∨ TrimPrefix (Authorization r) "Bearer " ≠ Token s))
  then (HttpError 401 "Unauthorized", s)
  else
    match http_Body r with
    | None => (HttpError 400 "Bad request", s)
    | Some None => (HttpJSON 200 None (rpcErr VNil (-32700) "Parse error"), s)
    | Some (Some req) =>
      if decide (req_JSONRPC req ≠ "2.0") then
        (HttpJSON 200 None (rpcErr (req_ID req) (-32600) "Invalid request: jsonrpc must be 2.0"), s)
      else
        match req_ID req with
        | VNil => (HttpStatus 202, s)
        | _ =>
          if decide (req_Method req ≠ "initialize" ∧ McpSessionId r ≠ ""
                     ∧ McpSessionId r ∉ sessions s)
          then (HttpJSON 200 None (rpcErr (req_ID req) (-32600) "Invalid session"), s)
          else
            match dispatch now newSessionID req s with
            | (Panic msg, s') => (HttpPanic msg, s')
            | (Reply resp, s') =>
              if decide (req_Method req = "initialize")
              then (HttpJSON 200 (strip_session resp).1 (strip_session resp).2, s')
              else (HttpJSON 200 None resp, s')
            end
        end
    end.

End transport.
End mcp.

(** ** A concrete engine and codec, for running the model *)

Module fixture.

Definition contains (needle hay : string) : bool :=
  match String.index 0 needle hay with
  | Some _ => true
  | None => false
  end.

Fixpoint trim_left (s : string) : string :=
  match s with
  | String a rest => if Ascii.is_space a then trim_left rest else s
  | EmptyString => EmptyString
  end.

Definition trim (s : string) : string :=
  String.rev (trim_left (String.rev (trim_left s))).

(** Substring match on the three indexed columns, rowid as rank, the
    content as snippet, a tagged copy of the token as its digest. *)
Definition engine : db.Engine := {|
  db.sqlite_length s := Z.of_nat (String.length s);
  db.fts5_syntax_ok q := negb (bool_decide (q = ""));
  db.fts5_match q r :=
    contains q (db.fts_title r) || contains q (db.fts_description r) || contains q (db.fts_content r);
  db.fts5_rank q index r := db.fts_rowid r;
  db.fts5_snippet q r := db.fts_content r;
  db.number_text v := "0";
  db.sha256_hex s := "sha256:" +:+ s;
  db.TrimSpace := trim
|}.

Definition codec : mcp.Codec := {|
  mcp.json_Marshal p := "";
  mcp.base64_encode s := s;
  mcp.base64_decode s := Some s;
  mcp.Atoi s := 0;
  mcp.Atoi_int s := ltac:(lia);
  mcp.Itoa n := ""
|}.

Definition entry (slug title content : string) (tags : list string) : db.Entry :=
  db.mkEntry 0 slug title "" content "" "" "" "" 0 "" "" (Slice tags) "".

(** The database after [create(e)], whatever the outcome. *)
Definition created (now : string) (e : db.Entry) (d : db.DB) : db.DB :=
  (db.CreateEntry (eng := engine) now e d).2.

(** Eleven entries whose text all contains "go". *)
Definition eleven : db.DB :=
  foldl (λ d slug, created "2026-01-01 00:00:00" (entry slug ("Go " +:+ slug) "go idioms" ["go"]) d)
    db.Open ["e01"; "e02"; "e03"; "e04"; "e05"; "e06"; "e07"; "e08"; "e09"; "e10"; "e11"].

(** One entry, tagged, in an unlocked database. *)
Definition one : db.DB :=
  created "2026-01-01 00:00:00" (entry "go-err" "Go errors" "wrap errors" [" errors "; "go"; ""]) db.Open.

(** The same with a second entry. *)
Definition two : db.DB :=
  created "2026-01-02 00:00:00" (entry "py-err" "Python errors" "raise exceptions" ["errors"]) one.

Definition server (d : db.DB) : mcp.Server := mcp.mkServer d "" ∅.

Definition call (method : string) (params : list (string * any)) : mcp.jsonrpcRequest :=
  mcp.mkRequest "2.0" (VInt 1) method (Some (VMap params)).

(** A storage on which the call [c] meets a disk error and every other call
    goes through. *)
Definition failing (c : db.call) : db.Storage :=
  {| db.fault c' _ := if decide (c' = c) then Some (ErrDriver "disk I/O error") else None |}.
End fixture.


(** * Properties *)

Section lock_facts.
Context {eng : db.Engine} {codec : mcp.Codec}.

Lemma IsLocked_with_lock d l : db.IsLocked (db.with_lock d l) = bool_decide (db.lock_active l = 1).
Proof. reflexivity. Qed.

Lemma Lock_empty d : db.Lock "" d = (Err (Errorf "token must not be empty"), d).
Proof. reflexivity. Qed.

Lemma Lock_locked token d :
  token ≠ "" → db.IsLocked d = true →
  db.Lock token d = (Err (Errorf "database is already locked"), d).
Proof. intros Htok Hl. unfold db.Lock. rewrite decide_False by done. by rewrite Hl. Qed.

Lemma Lock_unlocked token d :
  token ≠ "" → db.IsLocked d = false →
  db.Lock token d = (Ok tt, db.with_lock d (db.mkLockRow 1 (db.hashToken token))).
Proof. intros Htok Hl. unfold db.Lock. rewrite decide_False by done. by rewrite Hl. Qed.

Lemma Unlock_not_locked token d :
  token ≠ "" → db.IsLocked d = false →
  db.Unlock token d = (Err (Errorf "database is not locked"), d).
Proof. intros Htok Hl. unfold db.Unlock. rewrite decide_False by done. by rewrite Hl. Qed.

Lemma Unlock_mismatch token d :
  token ≠ "" → db.IsLocked d = true → db.lock_token (db.lock d) ≠ db.hashToken token →
  db.Unlock token d = (Err (Errorf "invalid token"), d).
Proof.
  intros Htok Hl Hne. unfold db.Unlock. rewrite decide_False by done.
  rewrite Hl. simpl. by rewrite decide_True.
Qed.

Lemma Unlock_match token d :
  token ≠ "" → db.IsLocked d = true → db.lock_token (db.lock d) = db.hashToken token →
  db.Unlock token d = (Ok tt, db.with_lock d (db.mkLockRow 0 "")).
Proof.
  intros Htok Hl Heq. unfold db.Unlock. rewrite decide_False by done.
  rewrite Hl. simpl. rewrite decide_False; [done|]. by intros [].
Qed.

Lemma checkLock_locked s :
  db.IsLocked (mcp.DB s) = true →
  mcp.checkLock s = Some (Errorf "database is locked. Write operations are disabled").
Proof. intros Hl. unfold mcp.checkLock. by rewrite Hl. Qed.

Lemma checkLock_unlocked s : db.IsLocked (mcp.DB s) = false → mcp.checkLock s = None.
Proof. intros Hl. unfold mcp.checkLock. by rewrite Hl. Qed.

(** Reads never look at the lock row. *)
Lemma getTagsForEntry_with_lock d l id :
  db.getTagsForEntry (db.with_lock d l) id = db.getTagsForEntry d id.
Proof. reflexivity. Qed.

Lemma bump_reads_with_lock now id d l :
  db.bump_reads now id (db.with_lock d l) = db.with_lock (db.bump_reads now id d) l.
Proof. reflexivity. Qed.

Lemma bump_searches_with_lock now id d l :
  db.bump_searches now id (db.with_lock d l) = db.with_lock (db.bump_searches now id d) l.
Proof. reflexivity. Qed.

Lemma foldl_bump_with_lock (bump : Z → db.DB → db.DB) (es : list db.Entry) d l :
  (∀ id d, bump id (db.with_lock d l) = db.with_lock (bump id d) l) →
  foldl (λ d' e, bump (db.ID e) d') (db.with_lock d l) es
  = db.with_lock (foldl (λ d' e, bump (db.ID e) d') d es) l.
Proof.
  intros Hb. revert d. induction es as [|e es IH]; intros d; simpl; [done|].
  by rewrite Hb, IH.
Qed.

Lemma GetEntry_with_lock now slug d l :
  db.GetEntry now slug (db.with_lock d l)
  = ((db.GetEntry now slug d).1, db.with_lock (db.GetEntry now slug d).2 l).
Proof.
  unfold db.GetEntry. simpl.
  destruct (head (filter _ (db.entries d))) as [r|]; reflexivity.
Qed.

Lemma ListEntries_with_lock f d l : db.ListEntries f (db.with_lock d l) = db.ListEntries f d.
Proof. reflexivity. Qed.

Lemma SearchEntries_with_lock now q f limit d l :
  db.SearchEntries now q f limit (db.with_lock d l)
  = ((db.SearchEntries now q f limit d).1, db.with_lock (db.SearchEntries now q f limit d).2 l).
Proof.
  unfold db.SearchEntries. destruct (db.fts5_syntax_ok q); [|done].
  cbv zeta. cbn [fst snd]. f_equal.
  apply (foldl_bump_with_lock (db.bump_searches now)). intros. apply bump_searches_with_lock.
Qed.

Lemma GetEntriesByContext_with_lock now f limit d l :
  db.GetEntriesByContext now f limit (db.with_lock d l)
  = ((db.GetEntriesByContext now f limit d).1,
     db.with_lock (db.GetEntriesByContext now f limit d).2 l).
Proof.
  unfold db.GetEntriesByContext. cbv zeta. case_decide; [done|]. cbn [fst snd]. f_equal.
  apply (foldl_bump_with_lock (db.bump_reads now)). intros. apply bump_reads_with_lock.
Qed.

Lemma GetStats_with_lock slug d l : db.GetStats slug (db.with_lock d l) = db.GetStats slug d.
Proof. reflexivity. Qed.

Lemma ListTags_with_lock d l : db.ListTags (db.with_lock d l) = db.ListTags d.
Proof. reflexivity. Qed.

End lock_facts.


Section slice_facts.
Context {A : Type}.

Lemma foldl_go_append (s : slice A) (l : list A) :
  foldl go_append s l = match l with [] => s | _ => Slice (items s ++ l) end.
Proof.
  revert s. induction l as [|x l IH]; intros s; [done|].
  simpl. rewrite IH. destruct l as [|y l]; simpl.
  - done.
  - by rewrite <- app_assoc.
Qed.

Lemma items_collect (l : list A) : items (collect l) = l.
Proof. unfold collect. rewrite foldl_go_append. by destruct l. Qed.

Lemma len_collect (l : list A) : len (collect l) = Z.of_nat (length l).
Proof. unfold len. by rewrite items_collect. Qed.

Lemma collect_cons (x : A) (l : list A) : collect (x :: l) = Slice (x :: l).
Proof. unfold collect. by rewrite foldl_go_append. Qed.

End slice_facts.

(** Reads the calls of a statement sequence on the reliable storage, where
    each is the statement itself. *)
Ltac on_reliable := cbv beta iota delta [db.run db.fault db.reliable] in *.

Section tx_facts.
Context {eng : db.Engine}.

(** On the reliable storage a call is the statement. *)
Lemma run_reliable {A} c (m : db.Tx A) : db.run (io := db.reliable) c m = m.
Proof. reflexivity. Qed.

(** A call that returned without error met no fault. *)
Lemma run_inv {io : db.Storage} {A} c (m : db.Tx A) d r :
  db.run c m d = Ok r → db.fault c d = None ∧ m d = Ok r.
Proof. unfold db.run. by destruct (db.fault c d). Qed.

Lemma run_fault {io : db.Storage} {A} c (m : db.Tx A) d e :
  db.fault c d = Some e → db.run c m d = Err e.
Proof. unfold db.run. by intros ->. Qed.

Lemma run_no_fault {io : db.Storage} {A} c (m : db.Tx A) d :
  db.fault c d = None → db.run c m d = m d.
Proof. unfold db.run. by intros ->. Qed.

Lemma bind_inv {A B} (m : db.Tx A) (f : A → db.Tx B) d b d' :
  (m ≫= f) d = Ok (b, d') → ∃ a d1, m d = Ok (a, d1) ∧ f a d1 = Ok (b, d').
Proof.
  unfold mbind, db.Tx_bind. destruct (m d) as [[a d1]|e]; [|done]. eauto.
Qed.

Lemma bind_Ok {A B} (m : db.Tx A) (f : A → db.Tx B) d a d1 :
  m d = Ok (a, d1) → (m ≫= f) d = f a d1.
Proof. unfold mbind, db.Tx_bind. by intros ->. Qed.

Lemma bind_Err {A B} (m : db.Tx A) (f : A → db.Tx B) d e :
  m d = Err e → (m ≫= f) d = Err e.
Proof. unfold mbind, db.Tx_bind. by intros ->. Qed.

Lemma wrapf_inv {A} prefix (m : db.Tx A) d r : db.wrapf prefix m d = Ok r → m d = Ok r.
Proof. unfold db.wrapf. by destruct (m d). Qed.

Lemma wrapf_Ok {A} prefix (m : db.Tx A) d r : m d = Ok r → db.wrapf prefix m d = Ok r.
Proof. unfold db.wrapf. by intros ->. Qed.

Lemma ret_inv {A} (a b : A) d d' : (mret a : db.Tx A) d = Ok (b, d') → a = b ∧ d = d'.
Proof. unfold mret, db.Tx_ret. by intros [= -> ->]. Qed.

Lemma transaction_Ok {A} (body : db.Tx A) d a d' :
  db.transaction body d = (Ok a, d') ↔ body d = Ok (a, d').
Proof.
  unfold db.transaction. destruct (body d) as [[a1 d1]|e]; split; intros H; by simplify_eq.
Qed.

(** A failed transaction leaves the database as it was. *)
Lemma transaction_Err {A} (body : db.Tx A) d e d' :
  db.transaction body d = (Err e, d') → d' = d.
Proof. unfold db.transaction. destruct (body d) as [[a1 d1]|e1]; by intros [= ]. Qed.

Lemma preserves_ret {A} P (a : A) : db.preserves P (mret a).
Proof. intros d b d' HP [_ <-]%ret_inv. done. Qed.

Lemma preserves_bind {A B} P (m : db.Tx A) (f : A → db.Tx B) :
  db.preserves P m → (∀ a, db.preserves P (f a)) → db.preserves P (m ≫= f).
Proof.
  intros Hm Hf d b d' HP (a & d1 & H1 & H2)%bind_inv. eapply Hf; [|done]. eapply Hm; done.
Qed.

Lemma preserves_wrapf {A} P prefix (m : db.Tx A) :
  db.preserves P m → db.preserves P (db.wrapf prefix m).
Proof. intros Hm d a d' HP H%wrapf_inv. eapply Hm; done. Qed.

Lemma next_rowid_gt seq ids id : id ∈ ids → id < db.next_rowid seq ids.
Proof.
  unfold db.next_rowid. induction ids as [|x ids IH]; intros Hin.
  - by apply elem_of_nil in Hin.
  - apply elem_of_cons in Hin as [->|Hin]; simpl; [lia|]. specialize (IH Hin). lia.
Qed.

Lemma next_rowid_fresh seq ids : db.next_rowid seq ids ∉ ids.
Proof. intros H%(next_rowid_gt seq). lia. Qed.

End tx_facts.

Section list_facts.
Context {A : Type}.

Lemma head_filter_Some (P : A → Prop) `{∀ x, Decision (P x)} (l : list A) x :
  head (filter P l) = Some x → x ∈ l ∧ P x.
Proof.
  intros Hh. assert (x ∈ filter P l) as Hin.
  { destruct (filter P l); simplify_eq/=. left. }
  apply list_elem_of_filter in Hin. tauto.
Qed.

Lemma head_filter_None (P : A → Prop) `{∀ x, Decision (P x)} (l : list A) :
  head (filter P l) = None ↔ ∀ x, x ∈ l → ¬ P x.
Proof.
  split.
  - intros Hh x Hin HP.
    assert (x ∈ filter P l) as Hx by (apply list_elem_of_filter; done).
    destruct (filter P l); [by apply elem_of_nil in Hx|done].
  - intros Hall. destruct (filter P l) as [|y l'] eqn:E; [done|].
    assert (y ∈ filter P l) as Hy by (rewrite E; left).
    apply list_elem_of_filter in Hy as [HP Hin]. by destruct (Hall y Hin).
Qed.

Lemma head_filter_is_Some (P : A → Prop) `{∀ x, Decision (P x)} (l : list A) x :
  x ∈ l → P x → is_Some (head (filter P l)).
Proof.
  intros Hin HP. destruct (head (filter P l)) eqn:E; [done|].
  rewrite head_filter_None in E. by destruct (E x Hin).
Qed.

Lemma head_filter_app_l (P : A → Prop) `{∀ x, Decision (P x)} (l k : list A) x :
  head (filter P l) = Some x → head (filter P (l ++ k)) = Some x.
Proof. rewrite filter_app. by destruct (filter P l). Qed.

Lemma filter_none (P : A → Prop) `{∀ x, Decision (P x)} (l : list A) :
  (∀ x, x ∈ l → ¬ P x) → filter P l = [].
Proof.
  intros Hall. induction l as [|y l IH]; [done|].
  rewrite filter_cons_False; [|apply Hall; left].
  apply IH. intros x Hx. apply Hall. by right.
Qed.

Lemma filter_all (P : A → Prop) `{∀ x, Decision (P x)} (l : list A) :
  (∀ x, x ∈ l → P x) → filter P l = l.
Proof.
  intros Hall. induction l as [|y l IH]; [done|].
  rewrite filter_cons_True; [|apply Hall; left].
  f_equal. apply IH. intros x Hx. apply Hall. by right.
Qed.

(** Under a uniqueness constraint a key selects at most its own row. *)
Lemma filter_key_unique {K} `{EqDecision K} (key : A → K) (l : list A) x :
  NoDup (key <$> l) → x ∈ l → filter (λ y, key y = key x) l = [x].
Proof.
  induction l as [|y l IH]; intros Hnd Hin; [by apply elem_of_nil in Hin|].
  rewrite fmap_cons in Hnd. apply NoDup_cons in Hnd as [Hy Hnd].
  apply elem_of_cons in Hin as [->|Hin].
  - rewrite filter_cons_True by done. f_equal.
    apply filter_none. intros z Hz Hk. apply Hy. rewrite <- Hk.
    by apply list_elem_of_fmap_2.
  - rewrite filter_cons_False; [by apply IH|].
    intros Hk. apply Hy. rewrite Hk. by apply list_elem_of_fmap_2.
Qed.

Lemma filter_key_absent {K} `{EqDecision K} (key : A → K) (l : list A) k :
  k ∉ key <$> l → filter (λ y, key y = k) l = [].
Proof.
  intros Hk. apply filter_none. intros x Hx <-. apply Hk. by apply list_elem_of_fmap_2.
Qed.

Lemma filter_ne_absent {K} `{EqDecision K} (key : A → K) (l : list A) k :
  k ∉ key <$> l → filter (λ y, key y ≠ k) l = l.
Proof.
  intros Hk. apply filter_all. intros x Hx <-. apply Hk. by apply list_elem_of_fmap_2.
Qed.

Lemma filter_ne_key_gone {K} `{EqDecision K} (key : A → K) (l : list A) k :
  k ∉ key <$> filter (λ y, key y ≠ k) l.
Proof.
  intros (x & -> & Hx)%list_elem_of_fmap. apply list_elem_of_filter in Hx as [Hne _]. done.
Qed.

Lemma NoDup_fmap_filter {K} (key : A → K) (P : A → Prop) `{∀ x, Decision (P x)} (l : list A) :
  NoDup (key <$> l) → NoDup (key <$> filter P l).
Proof.
  induction l as [|y l IH]; [done|]. rewrite fmap_cons. intros [Hy Hnd]%NoDup_cons.
  destruct (decide (P y)).
  - rewrite filter_cons_True by done. rewrite fmap_cons. apply NoDup_cons. split; [|by apply IH].
    intros (x & Hk & Hx)%list_elem_of_fmap. apply list_elem_of_filter in Hx as [_ Hx].
    apply Hy. rewrite Hk. by apply list_elem_of_fmap_2.
  - rewrite filter_cons_False by done. by apply IH.
Qed.

Lemma Forall_filter_keep (Q P : A → Prop) `{∀ x, Decision (P x)} (l : list A) :
  Forall Q l → Forall Q (filter P l).
Proof.
  rewrite !Forall_forall. intros HQ x [_ Hx]%list_elem_of_filter. by apply HQ.
Qed.

Lemma NoDup_snoc (l : list A) x : NoDup l → x ∉ l → NoDup (l ++ [x]).
Proof.
  intros Hnd Hx. apply NoDup_app. split_and!; [done| |apply NoDup_singleton].
  intros y Hy ->%list_elem_of_singleton. done.
Qed.

End list_facts.

Section statement_facts.
Context {eng : db.Engine}.

Ltac tx_inv H :=
  repeat first
    [ apply bind_inv in H as (? & ? & ? & H)
    | apply wrapf_inv in H
    | apply ret_inv in H as [? ?] ].

Lemma tags_grow_refl id d : db.tags_grow id d d.
Proof.
  unfold db.tags_grow. split_and!; try done.
  - exists []. by rewrite app_nil_r.
  - exists []. by rewrite app_nil_r.
Qed.

Lemma tags_grow_trans id d1 d2 d3 : db.tags_grow id d1 d2 → db.tags_grow id d2 d3 → db.tags_grow id d1 d3.
Proof.
  intros (E1 & E2 & E3 & E4 & E5 & [t1 Ht1] & [a1 [Ha1 Hf1]])
         (F1 & F2 & F3 & F4 & F5 & [t2 Ht2] & [a2 [Ha2 Hf2]]).
  unfold db.tags_grow. split_and!; try congruence.
  - exists (t1 ++ t2). by rewrite Ht2, Ht1, app_assoc.
  - exists (a1 ++ a2). split; [by rewrite Ha2, Ha1, app_assoc|]. by apply Forall_app.
Qed.

Lemma exec_insert_or_ignore_tags_inv name d d' :
  db.exec_insert_or_ignore_tags name d = Ok (tt, d') →
  name ∈ db.t_name <$> db.tags d'
  ∧ ((name ∈ db.t_name <$> db.tags d
      ∧ d' = db.with_tags d (db.tags d) (db.next_rowid (db.tags_seq d) (db.t_id <$> db.tags d)))
     ∨ ((name ∉ db.t_name <$> db.tags d)
        ∧ d' = db.with_tags d
                 (db.tags d ++ [db.mkTagRow (db.next_rowid (db.tags_seq d) (db.t_id <$> db.tags d)) name])
                 (db.next_rowid (db.tags_seq d) (db.t_id <$> db.tags d)))).
Proof.
  unfold db.exec_insert_or_ignore_tags. cbv zeta. case_decide as Hin; intros [= <-].
  - split; [done|]. by left.
  - split; [|by right]. simpl. rewrite fmap_app. apply elem_of_app. right. simpl. left.
Qed.

Lemma exec_insert_or_ignore_tags_grow id name d d' :
  db.exec_insert_or_ignore_tags name d = Ok (tt, d') → db.tags_grow id d d'.
Proof.
  intros [_ [[_ ->]|[_ ->]]]%exec_insert_or_ignore_tags_inv.
  all: unfold db.tags_grow; simpl; split_and!; try done.
  all: first [by eexists | exists []; by rewrite app_nil_r].
Qed.

Lemma query_tag_id_inv name d tid d' :
  db.query_tag_id name d = Ok (tid, d') →
  d' = d ∧ ∃ t, head (filter (λ t, db.t_name t = name) (db.tags d)) = Some t ∧ db.t_id t = tid.
Proof.
  unfold db.query_tag_id. destruct (head _) as [t|] eqn:E; [|done].
  intros [= <- <-]. eauto.
Qed.

Lemma exec_insert_or_ignore_entry_tags_inv id tid d d' :
  db.exec_insert_or_ignore_entry_tags id tid d = Ok (tt, d') →
  db.mkEntryTagRow id tid ∈ db.entry_tags d'
  ∧ ((db.mkEntryTagRow id tid ∈ db.entry_tags d ∧ d' = d)
     ∨ ((db.mkEntryTagRow id tid ∉ db.entry_tags d)
        ∧ d' = db.with_entry_tags d (db.entry_tags d ++ [db.mkEntryTagRow id tid]))).
Proof.
  unfold db.exec_insert_or_ignore_entry_tags. case_decide as Hin; [intros [= <-]|].
  - split; [done|]. by left.
  - case_decide; [|done]. intros [= <-]. split; [|by right].
    simpl. apply elem_of_app. right. left.
Qed.

Lemma exec_insert_or_ignore_entry_tags_grow id tid d d' :
  db.exec_insert_or_ignore_entry_tags id tid d = Ok (tt, d') → db.tags_grow id d d'.
Proof.
  intros [_ [[_ ->]|[_ ->]]]%exec_insert_or_ignore_entry_tags_inv; [apply tags_grow_refl|].
  unfold db.tags_grow. simpl. split_and!; try done.
  - exists []. by rewrite app_nil_r.
  - eexists. split; [done|]. by apply Forall_singleton.
Qed.

Lemma setTags_loop_grow id ts d d' :
  db.setTags_loop id ts d = Ok (tt, d') → db.tags_grow id d d'.
Proof.
  revert d. induction ts as [|t ts IH]; intros d H; simpl in H.
  - apply ret_inv in H as [_ <-]. apply tags_grow_refl.
  - case_decide; [by apply IH|]. on_reliable.
    apply bind_inv in H as ([] & d1 & H1 & H).
    apply bind_inv in H as (tid & d2 & H2 & H).
    apply bind_inv in H as ([] & d3 & H3 & H).
    apply query_tag_id_inv in H2 as [-> _].
    eapply tags_grow_trans; [by eapply exec_insert_or_ignore_tags_grow|].
    eapply tags_grow_trans; [by eapply exec_insert_or_ignore_entry_tags_grow|].
    by apply IH.
Qed.

(** On the reliable storage [setTags] cannot fail on an entry that exists. *)
Lemma setTags_loop_ok id ts d :
  id ∈ db.e_id <$> db.entries d → ∃ d', db.setTags_loop id ts d = Ok (tt, d').
Proof.
  revert d. induction ts as [|t ts IH]; intros d Hid; simpl.
  - by eexists.
  - case_decide; [by apply IH|]. on_reliable.
    destruct (db.exec_insert_or_ignore_tags (db.TrimSpace t) d) as [[[] d1]|e] eqn:E1;
      [|unfold db.exec_insert_or_ignore_tags in E1; by case_decide].
    erewrite bind_Ok by done.
    pose proof (exec_insert_or_ignore_tags_grow id _ _ _ E1) as (Hent1 & _).
    apply exec_insert_or_ignore_tags_inv in E1 as [Hin _].
    apply list_elem_of_fmap in Hin as (tr & Hname & Htr).
    destruct (head_filter_is_Some (λ t0, db.t_name t0 = db.TrimSpace t) (db.tags d1) tr Htr)
      as [tr' Hhead]; [done|].
    assert (db.query_tag_id (db.TrimSpace t) d1 = Ok (db.t_id tr', d1)) as E2.
    { unfold db.query_tag_id. by rewrite Hhead. }
    erewrite bind_Ok by done.
    apply head_filter_Some in Hhead as [Htr' _].
    destruct (db.exec_insert_or_ignore_entry_tags id (db.t_id tr') d1) as [[[] d2]|e] eqn:E3.
    + erewrite bind_Ok by done. apply IH.
      apply exec_insert_or_ignore_entry_tags_grow in E3 as (-> & _). by rewrite Hent1.
    + unfold db.exec_insert_or_ignore_entry_tags in E3. case_decide; [done|].
      case_decide as Hfk; [done|]. destruct Hfk. split; [by rewrite Hent1|].
      by apply list_elem_of_fmap_2.
Qed.

Lemma setTags_inv id ts d d' :
  db.setTags id ts d = Ok (tt, d') →
  db.setTags_loop id (items ts)
    (db.with_entry_tags d (filter (λ et, db.et_entry_id et ≠ id) (db.entry_tags d))) = Ok (tt, d').
Proof.
  unfold db.setTags. on_reliable. intros ([] & d1 & H1 & H)%bind_inv.
  unfold db.exec_delete_entry_tags in H1. by simplify_eq.
Qed.

Lemma setTags_ok id ts d :
  id ∈ db.e_id <$> db.entries d → ∃ d', db.setTags id ts d = Ok (tt, d').
Proof.
  intros Hid. unfold db.setTags. on_reliable.
  destruct (setTags_loop_ok id (items ts)
    (db.with_entry_tags d (filter (λ et, db.et_entry_id et ≠ id) (db.entry_tags d)))) as [d' H];
    [done|].
  exists d'. erewrite bind_Ok; [done|]. done.
Qed.

(** What [setTags] leaves alone: every table but [tags] and [entry_tags],
    the tag rows that were there, and the associations of other entries. *)
Lemma setTags_frame id ts d d' :
  db.setTags id ts d = Ok (tt, d') →
  db.entries d' = db.entries d
  ∧ db.entries_seq d' = db.entries_seq d
  ∧ db.entry_stats d' = db.entry_stats d
  ∧ db.lock d' = db.lock d
  ∧ db.entries_fts d' = db.entries_fts d
  ∧ (∃ added, db.tags d' = db.tags d ++ added)
  ∧ filter (λ et, db.et_entry_id et ≠ id) (db.entry_tags d')
    = filter (λ et, db.et_entry_id et ≠ id) (db.entry_tags d).
Proof.
  intros H%setTags_inv%setTags_loop_grow.
  destruct H as (E1 & E2 & E3 & E4 & E5 & Ht & [added [Ha Hf]]). simpl in *.
  split_and!; try done.
  rewrite Ha, filter_app, list_filter_filter.
  rewrite (filter_none _ added).
  - rewrite app_nil_r. apply list_filter_iff. tauto.
  - intros et Het. rewrite Forall_forall in Hf. specialize (Hf et Het). tauto.
Qed.

End statement_facts.

Section schema_facts.
Context {eng : db.Engine}.

Lemma schema_ok_Open : db.schema_ok db.Open.
Proof. unfold db.schema_ok. simpl. split_and!; constructor. Qed.

Lemma index_synced_Open : db.index_synced db.Open.
Proof. unfold db.index_synced. simpl. split_and!; constructor. Qed.

(** [schema_ok] reads four tables, and of [entry_stats] only the keys. *)
Lemma schema_ok_same d d' :
  db.entries d' = db.entries d → db.tags d' = db.tags d →
  db.entry_tags d' = db.entry_tags d →
  db.es_entry_id <$> db.entry_stats d' = db.es_entry_id <$> db.entry_stats d →
  db.schema_ok d → db.schema_ok d'.
Proof.
  unfold db.schema_ok. intros -> -> -> Hs (H1 & H2 & H3 & H4 & H5 & H6 & H7 & H8).
  split_and!; try done; [by rewrite Hs|].
  rewrite Forall_forall in H8. apply Forall_forall. intros s Hin.
  apply (list_elem_of_fmap_2 db.es_entry_id) in Hin. rewrite Hs in Hin.
  apply list_elem_of_fmap in Hin as (s0 & -> & Hin0). by apply H8.
Qed.

Lemma index_synced_same d d' :
  db.entries d' = db.entries d → db.entries_fts d' = db.entries_fts d →
  db.index_synced d → db.index_synced d'.
Proof. unfold db.index_synced. by intros -> ->. Qed.

Lemma bump_keys (g : db.StatsRow → db.StatsRow) (stats : list db.StatsRow) :
  (∀ s, db.es_entry_id (g s) = db.es_entry_id s) →
  db.es_entry_id <$> (g <$> stats) = db.es_entry_id <$> stats.
Proof. intros Hg. rewrite <- list_fmap_compose. apply list_fmap_ext. intros ? s _. apply Hg. Qed.

Lemma schema_ok_bump_reads now id d : db.schema_ok d → db.schema_ok (db.bump_reads now id d).
Proof.
  apply schema_ok_same; try done. simpl. apply bump_keys. intros s. by case_decide.
Qed.

Lemma schema_ok_bump_searches now id d : db.schema_ok d → db.schema_ok (db.bump_searches now id d).
Proof.
  apply schema_ok_same; try done. simpl. apply bump_keys. intros s. by case_decide.
Qed.

Lemma schema_ok_bump_updates now id d : db.schema_ok d → db.schema_ok (db.bump_updates now id d).
Proof.
  apply schema_ok_same; try done. simpl. apply bump_keys. intros s. by case_decide.
Qed.

Lemma schema_ok_with_lock d l : db.schema_ok d → db.schema_ok (db.with_lock d l).
Proof. by apply schema_ok_same. Qed.

Lemma schema_ok_with_entries_fts d rows : db.schema_ok d → db.schema_ok (db.with_entries_fts d rows).
Proof. by apply schema_ok_same. Qed.

Lemma preserves_insert_entries now slug title description content kind language domain project :
  db.preserves db.schema_ok
    (db.exec_insert_entries now slug title description content kind language domain project).
Proof.
  intros d id d' (H1 & H2 & H3 & H4 & H5 & H6 & H7 & H8).
  unfold db.exec_insert_entries. case_decide as Hlen; [done|]. case_decide as Hslug; [done|].
  intros [= <- <-]. unfold db.schema_ok. simpl. rewrite !fmap_app. simpl.
  split_and!; try done.
  - apply NoDup_snoc; [done|]. apply next_rowid_fresh.
  - by apply NoDup_snoc.
  - apply Forall_app. split; [done|]. apply Forall_singleton. simpl. lia.
  - eapply Forall_impl; [done|]. intros s Hs. apply elem_of_app. by left.
Qed.

Lemma preserves_insert_fts rowid title description content :
  db.preserves db.schema_ok (db.exec_insert_fts rowid title description content).
Proof.
  intros d [] d' Hok. unfold db.exec_insert_fts. case_decide; [done|].
  intros [= <-]. by apply schema_ok_with_entries_fts.
Qed.

Lemma preserves_delete_fts rowid : db.preserves db.schema_ok (db.exec_delete_fts rowid).
Proof. intros d [] d' Hok [= <-]. by apply schema_ok_with_entries_fts. Qed.

Lemma preserves_insert_stats id : db.preserves db.schema_ok (db.exec_insert_stats id).
Proof.
  intros d [] d' (H1 & H2 & H3 & H4 & H5 & H6 & H7 & H8).
  unfold db.exec_insert_stats. case_decide as Hpk; [done|]. case_decide as Hfk; [|done].
  intros [= <-]. unfold db.schema_ok. simpl. rewrite !fmap_app. simpl.
  split_and!; try done.
  - by apply NoDup_snoc.
  - apply Forall_app. split; [done|]. by apply Forall_singleton.
Qed.

Lemma preserves_delete_entry_tags id : db.preserves db.schema_ok (db.exec_delete_entry_tags id).
Proof.
  intros d [] d' (H1 & H2 & H3 & H4 & H5 & H6 & H7 & H8) [= <-].
  unfold db.schema_ok. simpl. split_and!; try done. by apply NoDup_filter.
Qed.

Lemma preserves_insert_or_ignore_tags name :
  db.preserves db.schema_ok (db.exec_insert_or_ignore_tags name).
Proof.
  intros d [] d' Hok [_ [[_ ->]|[Hfresh ->]]]%exec_insert_or_ignore_tags_inv; [done|].
  destruct Hok as (H1 & H2 & H3 & H4 & H5 & H6 & H7 & H8).
  unfold db.schema_ok. simpl. rewrite !fmap_app. simpl. split_and!; try done.
  - apply NoDup_snoc; [done|]. apply next_rowid_fresh.
  - by apply NoDup_snoc.
Qed.

Lemma preserves_query_tag_id name : db.preserves db.schema_ok (db.query_tag_id name).
Proof. intros d tid d' Hok [-> _]%query_tag_id_inv. done. Qed.

Lemma preserves_insert_or_ignore_entry_tags id tid :
  db.preserves db.schema_ok (db.exec_insert_or_ignore_entry_tags id tid).
Proof.
  intros d [] d' Hok [_ [[_ ->]|[Hfresh ->]]]%exec_insert_or_ignore_entry_tags_inv; [done|].
  destruct Hok as (H1 & H2 & H3 & H4 & H5 & H6 & H7 & H8).
  unfold db.schema_ok. simpl. split_and!; try done. by apply NoDup_snoc.
Qed.

Lemma preserves_setTags_loop id ts : db.preserves db.schema_ok (db.setTags_loop id ts).
Proof.
  induction ts as [|t ts IH]; simpl.
  - apply preserves_ret.
  - case_decide; [done|].
    apply preserves_bind; [apply preserves_insert_or_ignore_tags|intros _].
    apply preserves_bind; [apply preserves_query_tag_id|intros tid].
    apply preserves_bind; [apply preserves_insert_or_ignore_entry_tags|intros _]. done.
Qed.

Lemma preserves_setTags id ts : db.preserves db.schema_ok (db.setTags id ts).
Proof.
  apply preserves_bind; [apply preserves_delete_entry_tags|intros _].
  apply preserves_setTags_loop.
Qed.

Lemma preserves_bump_updates now id : db.preserves db.schema_ok (db.exec_bump_updates now id).
Proof. intros d [] d' Hok [= <-]. by apply schema_ok_bump_updates. Qed.

Lemma schema_ok_without_entry id d : db.schema_ok d → db.schema_ok (db.without_entry id d).
Proof.
  intros (H1 & H2 & H3 & H4 & H5 & H6 & H7 & H8).
  unfold db.schema_ok. simpl. split_and!; try done.
  - by apply NoDup_fmap_filter.
  - by apply NoDup_fmap_filter.
  - by apply Forall_filter_keep.
  - by apply NoDup_filter.
  - by apply NoDup_fmap_filter.
  - rewrite Forall_forall in H8. apply Forall_forall. intros s [Hne Hs]%list_elem_of_filter.
    apply H8 in Hs. apply list_elem_of_fmap in Hs as (e & He & Hin).
    apply list_elem_of_fmap. exists e. split; [done|]. apply list_elem_of_filter. split; [|done].
    congruence.
Qed.

End schema_facts.

Section read_facts.
Context {eng : db.Engine}.

Lemma elem_of_merge_sort {A} (R : relation A) `{∀ x y, Decision (R x y)} (l : list A) x :
  x ∈ merge_sort R l ↔ x ∈ l.
Proof. by rewrite merge_sort_Permutation. Qed.

Lemma length_merge_sort {A} (R : relation A) `{∀ x y, Decision (R x y)} (l : list A) :
  length (merge_sort R l) = length l.
Proof. by rewrite merge_sort_Permutation. Qed.

Lemma elem_of_take {A} (l : list A) n x : x ∈ take n l → x ∈ l.
Proof. intros H. rewrite <- (take_drop n l). apply elem_of_app. by left. Qed.

Lemma query_entry_id_Some slug d id :
  db.query_entry_id slug d = Some id →
  ∃ r, head (filter (λ e, db.e_slug e = slug) (db.entries d)) = Some r
       ∧ r ∈ db.entries d ∧ db.e_slug r = slug ∧ db.e_id r = id.
Proof.
  unfold db.query_entry_id. destruct (head _) as [r|] eqn:E; [|done].
  intros [= <-]. exists r. pose proof E as [? ?]%head_filter_Some. done.
Qed.

Lemma query_entry_id_None slug d :
  db.query_entry_id slug d = None ↔ slug ∉ db.e_slug <$> db.entries d.
Proof.
  unfold db.query_entry_id. rewrite fmap_None, head_filter_None. split.
  - intros H (r & -> & Hr)%list_elem_of_fmap. by apply (H r).
  - intros H r Hr Hs. apply H. subst. by apply list_elem_of_fmap_2.
Qed.

Lemma query_entry_id_is_Some slug d :
  slug ∈ db.e_slug <$> db.entries d → is_Some (db.query_entry_id slug d).
Proof.
  intros H. destruct (db.query_entry_id slug d) eqn:E; [done|].
  by apply query_entry_id_None in E.
Qed.

(** Under UNIQUE(slug) the slug selects one row. *)
Lemma slug_selects d r :
  NoDup (db.e_slug <$> db.entries d) → r ∈ db.entries d →
  filter (λ e, db.e_slug e = db.e_slug r) (db.entries d) = [r].
Proof. intros. by apply (filter_key_unique db.e_slug). Qed.

Lemma id_selects d r :
  NoDup (db.e_id <$> db.entries d) → r ∈ db.entries d →
  filter (λ e, db.e_id e = db.e_id r) (db.entries d) = [r].
Proof. intros. by apply (filter_key_unique db.e_id). Qed.

Lemma join_tag_elem {A} d (key : A → Z) name rows r :
  r ∈ db.join_tag d key name rows ↔
  r ∈ rows ∧ ∃ et t, et ∈ db.entry_tags d ∧ t ∈ db.tags d
                 ∧ db.et_entry_id et = key r ∧ db.t_id t = db.et_tag_id et ∧ db.t_name t = name.
Proof.
  unfold db.join_tag. rewrite list_elem_of_bind. split.
  - intros (r0 & Hr & Hr0). apply list_elem_of_bind in Hr as (et & Hr & Het).
    apply list_elem_of_bind in Hr as (t & Hr & Ht). case_decide as Hc; [|by apply elem_of_nil in Hr].
    apply list_elem_of_singleton in Hr as ->. split; [done|]. exists et, t. tauto.
  - intros (Hr & et & t & Het & Ht & H1 & H2 & H3). exists r. split; [|done].
    apply list_elem_of_bind. exists et. split; [|done].
    apply list_elem_of_bind. exists t. split; [|done].
    rewrite decide_True by done. left.
Qed.

Lemma join_tag_subset {A} d (key : A → Z) name rows r :
  r ∈ db.join_tag d key name rows → r ∈ rows.
Proof. by intros [? _]%join_tag_elem. Qed.

Lemma search_hits_elem q f d fts r :
  (fts, r) ∈ db.search_hits q f d →
  fts ∈ db.entries_fts d ∧ r ∈ db.entries d ∧ db.e_id r = db.fts_rowid fts
  ∧ db.fts5_match q fts = true ∧ db.matches f r = true.
Proof.
  unfold db.search_hits. intros H.
  assert ((fts, r) ∈ (fts ← db.entries_fts d; e ← db.entries d;
            if decide (db.e_id e = db.fts_rowid fts ∧ db.fts5_match q fts = true
                       ∧ db.matches f e = true) then [(fts, e)] else [])) as H'.
  { case_decide; [done|]. by apply join_tag_subset in H. }
  clear H. apply list_elem_of_bind in H' as (f0 & H & Hf0).
  apply list_elem_of_bind in H as (e0 & H & He0).
  case_decide as Hc; [|by apply elem_of_nil in H].
  apply list_elem_of_singleton in H. simplify_eq. tauto.
Qed.

Lemma search_hits_intro q f d fts r :
  db.FilterTag f = "" →
  fts ∈ db.entries_fts d → r ∈ db.entries d → db.e_id r = db.fts_rowid fts →
  db.fts5_match q fts = true → db.matches f r = true →
  (fts, r) ∈ db.search_hits q f d.
Proof.
  intros Htag Hf Hr Hid Hm Hw. unfold db.search_hits. rewrite decide_True by done.
  apply list_elem_of_bind. exists fts. split; [|done].
  apply list_elem_of_bind. exists r. split; [|done].
  rewrite decide_True by done. left.
Qed.

(** What [SearchEntries] hands back: the first [limit] hits by rank. *)
Lemma SearchEntries_found now q f limit d :
  db.found (db.SearchEntries now q f limit d).1 =
  if db.fts5_syntax_ok q then
    (λ h, db.listed_entry h.2 (db.getTagsForEntry d (db.e_id h.2)) (db.fts5_snippet q h.1))
    <$> take (Z.to_nat (db.effective_limit 10 limit))
          (merge_sort (db.by_rank q d) (db.search_hits q f d))
  else [].
Proof.
  unfold db.SearchEntries. destruct (db.fts5_syntax_ok q); [|done].
  cbv zeta. cbn [fst db.found]. by rewrite items_collect.
Qed.

Lemma SearchEntries_elem now q f limit d e :
  e ∈ db.found (db.SearchEntries now q f limit d).1 →
  ∃ fts r, (fts, r) ∈ db.search_hits q f d
         ∧ e = db.listed_entry r (db.getTagsForEntry d (db.e_id r)) (db.fts5_snippet q fts).
Proof.
  rewrite SearchEntries_found. destruct (db.fts5_syntax_ok q); [|by intros ?%elem_of_nil].
  intros ([fts r] & -> & Hh)%list_elem_of_fmap.
  apply elem_of_take, elem_of_merge_sort in Hh. by exists fts, r.
Qed.

Lemma GetEntriesByContext_found now f limit d :
  db.context_tables f ≤ db.sqlite_max_join →
  db.found (db.GetEntriesByContext now f limit d).1 =
  (λ r, db.full_entry r (db.getTagsForEntry d (db.e_id r)))
  <$> take (Z.to_nat (db.effective_limit 20 limit))
        (merge_sort db.by_title (db.context_rows f d)).
Proof.
  intros Hfits. unfold db.GetEntriesByContext. cbv zeta. rewrite decide_False by lia.
  cbn [fst db.found]. by rewrite items_collect.
Qed.

(** The query of [GetEntriesByContext] is refused when it joins too many
    tables. *)
Lemma GetEntriesByContext_refused now f limit d :
  db.context_tables f > db.sqlite_max_join →
  db.GetEntriesByContext now f limit d = (Err (Wrapf "get by context" db.too_many_tables), d).
Proof. intros Hmany. unfold db.GetEntriesByContext. cbv zeta. by rewrite decide_True. Qed.

Lemma ListEntries_found f d :
  db.found (db.ListEntries f d) =
  (λ r, db.listed_entry r (db.getTagsForEntry d (db.e_id r)) "")
  <$> merge_sort db.by_title
        (if decide (db.FilterTag f = "")
         then filter (λ e, db.matches f e = true) (db.entries d)
         else db.join_tag d db.e_id (db.FilterTag f)
                (filter (λ e, db.matches f e = true) (db.entries d))).
Proof. unfold db.ListEntries. cbv zeta. cbn [db.found]. by rewrite items_collect. Qed.

Lemma AllEntries_found d :
  db.found (db.AllEntries d) =
  (λ r, db.full_entry r (db.getTagsForEntry d (db.e_id r))) <$> merge_sort db.by_slug (db.entries d).
Proof. unfold db.AllEntries. cbv zeta. cbn [db.found]. by rewrite items_collect. Qed.

Lemma GetEntry_found now slug d r :
  head (filter (λ e, db.e_slug e = slug) (db.entries d)) = Some r →
  db.GetEntry now slug d
  = (Ok (db.full_entry r (db.getTagsForEntry d (db.e_id r))), db.bump_reads now (db.e_id r) d).
Proof. unfold db.GetEntry. by intros ->. Qed.

Lemma GetEntry_not_found now slug d :
  slug ∉ db.e_slug <$> db.entries d →
  db.GetEntry now slug d = (Err (Errorf ("entry not found: " +:+ slug)), d).
Proof.
  intros H. unfold db.GetEntry. assert (head (filter (λ e, db.e_slug e = slug) (db.entries d)) = None) as ->; [|done].
  apply head_filter_None. intros r Hr Hs. apply H. subst. by apply list_elem_of_fmap_2.
Qed.

Lemma GetStats_not_found slug d :
  slug ∉ db.e_slug <$> db.entries d →
  db.GetStats slug d = Err (Errorf ("entry not found: " +:+ slug)).
Proof.
  intros H. unfold db.GetStats.
  match goal with |- context [head ?l] => assert (l = []) as -> end; [|done].
  apply elem_of_nil_inv. intros s (es & Hs & Hes)%list_elem_of_bind.
  apply list_elem_of_bind in Hs as (e & Hs & He).
  case_decide as Hc; [|by apply elem_of_nil in Hs]. apply H. destruct Hc as [_ <-].
  by apply list_elem_of_fmap_2.
Qed.

End read_facts.

Section delete_facts.
Context {eng : db.Engine}.

(** The lookup by slug on the reliable storage. *)
Lemma scan_entry_id_reliable slug d :
  db.scan_entry_id slug d
  = match db.query_entry_id slug d with
    | Some entryID => Ok (entryID, d)
    | None => Err (Errorf ("entry not found: " +:+ slug))
    end.
Proof.
  unfold db.scan_entry_id, db.query_row_entry_id. on_reliable.
  by destruct (db.query_entry_id slug d).
Qed.

Lemma DeleteEntry_not_found slug d :
  slug ∉ db.e_slug <$> db.entries d →
  db.DeleteEntry slug d = (Err (Errorf ("entry not found: " +:+ slug)), d).
Proof.
  intros H%query_entry_id_None. unfold db.DeleteEntry, db.autocommit, db.transaction.
  by rewrite scan_entry_id_reliable, H.
Qed.

Lemma DeleteEntry_found slug d id :
  db.query_entry_id slug d = Some id →
  db.DeleteEntry slug d = (Ok tt, db.without_entry id d).
Proof.
  intros H. pose proof H as (r & _ & Hr & _ & Hid)%query_entry_id_Some.
  unfold db.DeleteEntry, db.autocommit, db.transaction.
  rewrite scan_entry_id_reliable, H. on_reliable.
  unfold db.wrapf, db.exec_delete_fts, db.exec_delete_entries.
  simpl. rewrite decide_True; [done|].
  subst id. by apply list_elem_of_fmap_2.
Qed.

(** On the reliable storage a [DeleteEntry] fails only for a slug that no
    entry has, and then changes nothing. *)
Lemma DeleteEntry_Err slug d e d' : db.DeleteEntry slug d = (Err e, d') → d' = d.
Proof.
  destruct (db.query_entry_id slug d) as [id|] eqn:E.
  - by rewrite (DeleteEntry_found _ _ _ E).
  - apply query_entry_id_None in E. rewrite (DeleteEntry_not_found _ _ E). by intros [= ].
Qed.

Lemma without_entry_slug_gone d r :
  NoDup (db.e_slug <$> db.entries d) → r ∈ db.entries d →
  db.e_slug r ∉ db.e_slug <$> db.entries (db.without_entry (db.e_id r) d).
Proof.
  intros Hnd Hr (r' & Hs & Hr')%list_elem_of_fmap. simpl in Hr'.
  apply list_elem_of_filter in Hr' as [Hne Hr'].
  pose proof (slug_selects d r Hnd Hr) as Hsel.
  assert (r' ∈ filter (λ e, db.e_slug e = db.e_slug r) (db.entries d)) as Hin
    by (apply list_elem_of_filter; done).
  rewrite Hsel in Hin. apply list_elem_of_singleton in Hin. by subst.
Qed.

Lemma ListTags_found d :
  db.found (db.ListTags d) =
  merge_sort db.by_count
    (omap (λ t,
       let cnt := Z.of_nat (length (filter (λ et, db.et_tag_id et = db.t_id t) (db.entry_tags d))) in
       if decide (cnt = 0) then None else Some (db.mkTag (db.t_name t) cnt)) (db.tags d)).
Proof. unfold db.ListTags. cbv zeta. cbn [db.found]. by rewrite items_collect. Qed.

(** After the cascade a tag's count is made of other entries'
    associations only. *)
Lemma ListTags_without_entry id d tg :
  tg ∈ db.found (db.ListTags (db.without_entry id d)) →
  ∃ t, t ∈ db.tags d ∧ db.Name tg = db.t_name t
     ∧ db.Count tg = Z.of_nat (length (filter (λ et, db.et_tag_id et = db.t_id t ∧ db.et_entry_id et ≠ id)
                                         (db.entry_tags d))).
Proof.
  rewrite ListTags_found, elem_of_merge_sort, list_elem_of_omap. simpl.
  intros (t & Ht & Hsome). exists t. split; [done|]. case_decide; [done|].
  simplify_eq. simpl. split; [done|]. by rewrite list_filter_filter.
Qed.

End delete_facts.

Section delete_cascade.
Context {eng : db.Engine}.

(** On the reliable storage [DeleteEntry] fails with "entry not found" when
    no entry has the slug. Otherwise it succeeds and the resulting state
    has lost the search-index row, the entry row, the entry's tag
    associations and its stats row; afterwards direct lookup and stats
    lookup fail with "entry not found", no search returns the entry, and
    every tag count is made of other entries' associations only. *)
Lemma DeleteEntry_cascade (slug : string) (d : db.DB) :
  db.schema_ok d →
  (slug ∉ db.e_slug <$> db.entries d →
     db.DeleteEntry slug d = (Err (Errorf ("entry not found: " +:+ slug)), d))
  ∧ (∀ r, r ∈ db.entries d → db.e_slug r = slug →
       let id := db.e_id r in
       let d' := db.without_entry id d in
       db.DeleteEntry slug d = (Ok tt, d')
       ∧ (id ∉ db.fts_rowid <$> db.entries_fts d')
       ∧ (id ∉ db.e_id <$> db.entries d')
       ∧ (id ∉ db.et_entry_id <$> db.entry_tags d')
       ∧ (id ∉ db.es_entry_id <$> db.entry_stats d')
       ∧ db.schema_ok d'
       ∧ (∀ now, db.GetEntry now slug d' = (Err (Errorf ("entry not found: " +:+ slug)), d'))
       ∧ (∀ now q f limit,
            Forall (λ e, db.ID e ≠ id) (db.found (db.SearchEntries now q f limit d').1))
       ∧ db.GetStats slug d' = Err (Errorf ("entry not found: " +:+ slug))
       ∧ (∀ tg, tg ∈ db.found (db.ListTags d') →
            ∃ t, t ∈ db.tags d ∧ db.Name tg = db.t_name t
               ∧ db.Count tg =
                 Z.of_nat (length (filter (λ et, db.et_tag_id et = db.t_id t ∧ db.et_entry_id et ≠ id)
                                     (db.entry_tags d))))).
Proof.
  intros Hok. split_and!.
  - apply DeleteEntry_not_found.
  - intros r Hr Hslug id d'.
    pose proof Hok as (Hid & Hsl & _).
    assert (db.query_entry_id slug d = Some id) as Hq.
    { unfold db.query_entry_id. subst slug. by rewrite (slug_selects d r Hsl Hr). }
    assert (slug ∉ db.e_slug <$> db.entries d') as Hgone.
    { subst slug. by apply without_entry_slug_gone. }
    split_and!.
    + by apply DeleteEntry_found.
    + apply (filter_ne_key_gone db.fts_rowid).
    + apply (filter_ne_key_gone db.e_id).
    + apply (filter_ne_key_gone db.et_entry_id).
    + apply (filter_ne_key_gone db.es_entry_id).
    + by apply schema_ok_without_entry.
    + intros now. by apply GetEntry_not_found.
    + intros now q f limit. apply Forall_forall. intros e (fts & r0 & Hh & ->)%SearchEntries_elem.
      apply search_hits_elem in Hh as (_ & Hr0 & _). simpl in Hr0.
      apply list_elem_of_filter in Hr0 as [Hne _]. done.
    + by apply GetStats_not_found.
    + apply ListTags_without_entry.
Qed.

End delete_cascade.

Section delete_storage_facts.
Context {eng : db.Engine} {io : db.Storage}.

(** [DeleteEntry] on an entry that exists, call by call: each of the three
    calls commits on its own, so that a fault of the last one comes when
    the index row is already gone. *)
Lemma DeleteEntry_cases slug d id :
  db.query_entry_id slug d = Some id →
  db.DeleteEntry slug d
  = match db.fault db.SelectEntriesId d with
    | Some ErrNoRows => (Err (Errorf ("entry not found: " +:+ slug)), d)
    | Some err => (Err (Wrapf "lookup" err), d)
    | None =>
      match db.fault db.DeleteEntriesFts d with
      | Some err => (Err (Wrapf "delete fts" err), d)
      | None =>
        let half := db.with_entries_fts d (filter (λ f, db.fts_rowid f ≠ id) (db.entries_fts d)) in
        match db.fault db.DeleteEntries half with
        | Some err => (Err (Wrapf "delete entry" err), half)
        | None => (Ok tt, db.without_entry id d)
        end
      end
    end.
Proof.
  intros Hq.
  assert (id ∈ db.e_id <$> db.entries d) as Hid.
  { pose proof Hq as (r & _ & Hr & _ & <-)%query_entry_id_Some. by apply list_elem_of_fmap_2. }
  unfold db.DeleteEntry, db.autocommit, db.transaction, db.scan_entry_id,
    db.query_row_entry_id, db.wrapf, db.run. rewrite Hq.
  destruct (db.fault db.SelectEntriesId d) as [[]|]; try done.
  destruct (db.fault db.DeleteEntriesFts d); [done|].
  unfold db.exec_delete_fts. cbv zeta.
  destruct (db.fault db.DeleteEntries _); [done|].
  unfold db.exec_delete_entries. cbn [db.entries db.with_entries_fts].
  by rewrite decide_True.
Qed.

(** [DeleteEntry] for a slug that no entry has. *)
Lemma DeleteEntry_absent slug d :
  slug ∉ db.e_slug <$> db.entries d →
  db.DeleteEntry slug d
  = match db.fault db.SelectEntriesId d with
    | None | Some ErrNoRows => (Err (Errorf ("entry not found: " +:+ slug)), d)
    | Some err => (Err (Wrapf "lookup" err), d)
    end.
Proof.
  intros H%query_entry_id_None. unfold db.DeleteEntry, db.autocommit, db.transaction,
    db.scan_entry_id, db.query_row_entry_id, db.run. rewrite H.
  by destruct (db.fault db.SelectEntriesId d) as [[]|].
Qed.

(** A [DeleteEntry] that returns without error did what the delete on the
    reliable storage does. *)
Lemma DeleteEntry_Ok_reliable slug d d' :
  db.DeleteEntry slug d = (Ok tt, d') → db.DeleteEntry (io := db.reliable) slug d = (Ok tt, d').
Proof.
  destruct (db.query_entry_id slug d) as [id|] eqn:Hq.
  - pose proof Hq as (r & _ & Hr & _ & Hid)%query_entry_id_Some.
    rewrite (DeleteEntry_cases slug d id Hq).
    rewrite (DeleteEntry_found slug d id Hq).
    destruct (db.fault db.SelectEntriesId d) as [[]|]; try done.
    destruct (db.fault db.DeleteEntriesFts d); [done|]. cbv zeta.
    by destruct (db.fault db.DeleteEntries _).
  - apply query_entry_id_None in Hq. rewrite (DeleteEntry_absent slug d Hq).
    by destruct (db.fault db.SelectEntriesId d) as [[]|].
Qed.

(** The revision with the transaction: a failure changes nothing. *)
Lemma DeleteEntry_ctx_rollback slug d err d' :
  db.DeleteEntry_ctx slug d = (Err err, d') → d' = d.
Proof. apply transaction_Err. Qed.

Lemma DeleteEntry_ctx_cases slug d id :
  db.query_entry_id slug d = Some id →
  db.fault db.Begin d = None → db.fault db.SelectEntriesId d = None →
  db.fault db.DeleteEntriesFts d = None →
  db.DeleteEntry_ctx slug d
  = let half := db.with_entries_fts d (filter (λ f, db.fts_rowid f ≠ id) (db.entries_fts d)) in
    match db.fault db.DeleteEntries half with
    | Some err => (Err (Wrapf "delete entry" err), d)
    | None =>
      match db.fault db.Commit (db.without_entry id d) with
      | Some err => (Err err, d)
      | None => (Ok tt, db.without_entry id d)
      end
    end.
Proof.
  intros Hq Hb Hs Hf.
  assert (id ∈ db.e_id <$> db.entries d) as Hid.
  { pose proof Hq as (r & _ & Hr & _ & <-)%query_entry_id_Some. by apply list_elem_of_fmap_2. }
  unfold db.DeleteEntry_ctx, db.transaction. cbv zeta.
  unfold mbind, db.Tx_bind, db.wrapf, db.run, db.query_row_entry_id, mret, db.Tx_ret.
  rewrite Hb, Hs, Hq, Hf. unfold db.exec_delete_fts.
  destruct (db.fault db.DeleteEntries _); [done|].
  unfold db.exec_delete_entries. cbn [db.entries db.with_entries_fts].
  rewrite decide_True by done.
  change (db.mkDB _ _ _ _ _ _ _ _) with (db.without_entry id d).
  by destruct (db.fault db.Commit _).
Qed.

Lemma DeleteEntry_ctx_absent slug d :
  slug ∉ db.e_slug <$> db.entries d →
  db.fault db.Begin d = None → db.fault db.SelectEntriesId d = None →
  db.DeleteEntry_ctx slug d = (Err (Wrapf ("entry not found: " +:+ slug) db.ErrNotFound), d).
Proof.
  intros H%query_entry_id_None Hb Hs. unfold db.DeleteEntry_ctx, db.transaction. cbv zeta.
  unfold mbind, db.Tx_bind, db.wrapf, db.run, db.query_row_entry_id, mret, db.Tx_ret.
  by rewrite Hb, Hs, H.
Qed.

Lemma DeleteEntry_ctx_Ok slug d d' :
  db.DeleteEntry_ctx slug d = (Ok tt, d') → db.DeleteEntry (io := db.reliable) slug d = (Ok tt, d').
Proof.
  unfold db.DeleteEntry_ctx. cbv zeta. intros H%transaction_Ok.
  apply bind_inv in H as ([] & d0 & [_ [_ <-]%ret_inv]%wrapf_inv%run_inv & H).
  apply bind_inv in H as (id & d1 & H0 & H).
  apply bind_inv in H as ([] & d2 & [_ H1]%wrapf_inv%run_inv & H).
  apply bind_inv in H as ([] & d3 & [_ H2]%wrapf_inv%run_inv & H).
  apply run_inv in H as [_ [_ <-]%ret_inv].
  destruct (db.run _ _ d) as [[id0 d0]|err] eqn:E; [|by destruct (db.errors_Is _ _)].
  apply run_inv in E as [_ E]. injection H0 as -> ->.
  unfold db.query_row_entry_id in E.
  destruct (db.query_entry_id slug d) as [id0|] eqn:Hq; [|done]. injection E as -> ->.
  rewrite (DeleteEntry_found slug d1 id Hq).
  pose proof Hq as (r & _ & Hr & _ & Hid)%query_entry_id_Some.
  unfold db.exec_delete_fts in H1. injection H1 as <-.
  unfold db.exec_delete_entries in H2. cbn [db.entries db.with_entries_fts] in H2.
  rewrite decide_True in H2 by (subst id; by apply list_elem_of_fmap_2).
  by injection H2 as <-.
Qed.

End delete_storage_facts.

Section claim_C3.
Context {eng : db.Engine} {io : db.Storage}.

(** C3, as the code has it. [DeleteEntry] fails with "entry not found" for
    a slug that no entry has; when it returns without error the index row,
    the entry row, the entry's tag associations and its stats row are gone,
    direct lookup and stats lookup fail with "entry not found", no search
    returns the entry and every tag count is made of other entries'
    associations only; with a storage that fails no call it does so for
    every entry. But the removal is one atomic unit only in the revision
    of db.go that opens a transaction, where every failure leaves the
    database as it was. The revision that the server calls sends its two
    DELETEs to the connection one by one: when the storage fails the
    second, the call returns "delete entry: ..." and the database keeps
    the entry, its tags and its stats without the index row, so that the
    entry is still found by slug while no search returns it. *)
Theorem C3_delete_cascade (slug : string) (d : db.DB) :
  db.schema_ok d →
  (slug ∉ db.e_slug <$> db.entries d →
     (db.fault db.SelectEntriesId d = None →
        db.DeleteEntry slug d = (Err (Errorf ("entry not found: " +:+ slug)), d))
     ∧ (db.fault db.Begin d = None → db.fault db.SelectEntriesId d = None →
        db.DeleteEntry_ctx slug d
        = (Err (Wrapf ("entry not found: " +:+ slug) db.ErrNotFound), d)))
  ∧ (∀ r, r ∈ db.entries d → db.e_slug r = slug →
       let id := db.e_id r in
       let d' := db.without_entry id d in
       let half := db.with_entries_fts d (filter (λ f, db.fts_rowid f ≠ id) (db.entries_fts d)) in
       (∀ dd, db.DeleteEntry slug d = (Ok tt, dd) ∨ db.DeleteEntry_ctx slug d = (Ok tt, dd) →
              dd = d')
       ∧ db.DeleteEntry (io := db.reliable) slug d = (Ok tt, d')
       ∧ db.DeleteEntry_ctx (io := db.reliable) slug d = (Ok tt, d')
       ∧ (id ∉ db.fts_rowid <$> db.entries_fts d')
       ∧ (id ∉ db.e_id <$> db.entries d')
       ∧ (id ∉ db.et_entry_id <$> db.entry_tags d')
       ∧ (id ∉ db.es_entry_id <$> db.entry_stats d')
       ∧ db.schema_ok d'
       ∧ (∀ now, db.GetEntry now slug d' = (Err (Errorf ("entry not found: " +:+ slug)), d'))
       ∧ (∀ now q f limit,
            Forall (λ e, db.ID e ≠ id) (db.found (db.SearchEntries now q f limit d').1))
       ∧ db.GetStats slug d' = Err (Errorf ("entry not found: " +:+ slug))
       ∧ (∀ tg, tg ∈ db.found (db.ListTags d') →
            ∃ t, t ∈ db.tags d ∧ db.Name tg = db.t_name t
               ∧ db.Count tg =
                 Z.of_nat (length (filter (λ et, db.et_tag_id et = db.t_id t ∧ db.et_entry_id et ≠ id)
                                     (db.entry_tags d))))
       ∧ (∀ err dd, db.DeleteEntry_ctx slug d = (Err err, dd) → dd = d)
       ∧ (∀ err,
            db.fault db.SelectEntriesId d = None → db.fault db.DeleteEntriesFts d = None →
            db.fault db.DeleteEntries half = Some err →
            db.DeleteEntry slug d = (Err (Wrapf "delete entry" err), half)
            ∧ db.entries half = db.entries d
            ∧ db.entry_tags half = db.entry_tags d
            ∧ db.entry_stats half = db.entry_stats d
            ∧ (id ∉ db.fts_rowid <$> db.entries_fts half)
            ∧ (∀ now, (db.GetEntry now slug half).1
                      = Ok (db.full_entry r (db.getTagsForEntry d id)))
            ∧ (∀ now q f limit,
                 Forall (λ e, db.ID e ≠ id) (db.found (db.SearchEntries now q f limit half).1))
            ∧ (db.fault db.Begin d = None →
               db.DeleteEntry_ctx slug d = (Err (Wrapf "delete entry" err), d)))).
Proof.
  intros Hok. pose proof Hok as (_ & Hslugs & _). split.
  - intros Habsent. split.
    + intros Hs. rewrite (DeleteEntry_absent slug d Habsent). by rewrite Hs.
    + intros Hb Hs. by apply DeleteEntry_ctx_absent.
  - intros r Hr Hslug id d' half.
    destruct (DeleteEntry_cascade slug d Hok) as [_ Hcascade].
    destruct (Hcascade r Hr Hslug)
      as (Hdel & Hfts & Hent & Htags & Hstats & Hok' & Hget & Hsearch & Hgs & Hlt).
    assert (db.query_entry_id slug d = Some id) as Hq.
    { unfold db.query_entry_id. subst slug. by rewrite (slug_selects d r Hslugs Hr). }
    split_and!; try done.
    + intros dd [H|H].
      * apply DeleteEntry_Ok_reliable in H. rewrite Hdel in H. by injection H.
      * apply DeleteEntry_ctx_Ok in H. rewrite Hdel in H. by injection H.
    + by rewrite (DeleteEntry_ctx_cases slug d id Hq).
    + intros err dd. apply DeleteEntry_ctx_rollback.
    + intros err Hs Hf He. split_and!; try done.
      * rewrite (DeleteEntry_cases slug d id Hq), Hs, Hf. cbv zeta. fold id half. by rewrite He.
      * intros now. unfold db.GetEntry. cbn [half db.entries db.with_entries_fts].
        subst slug. by rewrite (slug_selects d r Hslugs Hr).
      * intros now q f limit. apply Forall_forall.
        intros e (fts & r0 & Hh & ->)%SearchEntries_elem.
        apply search_hits_elem in Hh as (Hin & _ & Hid & _). simpl in Hin.
        apply list_elem_of_filter in Hin as [Hne _]. cbn [db.ID db.listed_entry]. congruence.
      * intros Hb. rewrite (DeleteEntry_ctx_cases slug d id Hq Hb Hs Hf). cbv zeta.
        fold id half. by rewrite He.
Qed.

End claim_C3.

Section tag_facts.
Context {eng : db.Engine}.

Lemma getTagsForEntry_eq d id :
  db.getTagsForEntry d id = Slice (merge_sort String.le (db.query_tag_names d id)).
Proof.
  unfold db.getTagsForEntry. cbv zeta.
  destruct (merge_sort String.le (db.query_tag_names d id)) as [|x l] eqn:E; [done|].
  by rewrite collect_cons.
Qed.

Lemma query_tag_names_elem d id name :
  name ∈ db.query_tag_names d id ↔
  ∃ t et, t ∈ db.tags d ∧ et ∈ db.entry_tags d
        ∧ db.et_tag_id et = db.t_id t ∧ db.et_entry_id et = id ∧ db.t_name t = name.
Proof.
  unfold db.query_tag_names. rewrite list_elem_of_bind. split.
  - intros (t & Hn & Ht). apply list_elem_of_bind in Hn as (et & Hn & Het).
    case_decide as Hc; [|by apply elem_of_nil in Hn].
    apply list_elem_of_singleton in Hn. destruct Hc as [? ?]. exists t, et. by split_and!.
  - intros (t & et & Ht & Het & H1 & H2 & H3). exists t. split; [|done].
    apply list_elem_of_bind. exists et. split; [|done].
    rewrite decide_True by done. apply list_elem_of_singleton. done.
Qed.

Lemma bind_const_filter {A B} (P : A → Prop) `{∀ x, Decision (P x)} (l : list A) (b : B) :
  (x ← l; if decide (P x) then [b] else []) = replicate (length (filter P l)) b.
Proof.
  induction l as [|x l IH]; [done|].
  rewrite bind_cons, IH. destruct (decide (P x)).
  - by rewrite filter_cons_True.
  - by rewrite filter_cons_False.
Qed.

Lemma NoDup_filter_length_le {A} (P : A → Prop) `{∀ x, Decision (P x)} (l : list A) a :
  NoDup l → (∀ x, P x → x = a) → (length (filter P l) ≤ 1)%nat.
Proof.
  intros Hnd HP. induction Hnd as [|x l Hx Hnd IH]; [simpl; lia|].
  destruct (decide (P x)) as [Hpx|Hpx].
  - rewrite filter_cons_True by done. rewrite (filter_none P l); [simpl; lia|].
    intros y Hy Hpy. apply Hx. rewrite (HP x Hpx). by rewrite <- (HP y Hpy).
  - by rewrite filter_cons_False.
Qed.

(** PRIMARY KEY (entry_id, tag_id) and UNIQUE(name) leave no name twice in
    the join. *)
Lemma query_tag_names_NoDup d id :
  NoDup (db.t_name <$> db.tags d) → NoDup (db.entry_tags d) →
  NoDup (db.query_tag_names d id).
Proof.
  intros Hnames Het. unfold db.query_tag_names.
  induction (db.tags d) as [|t ts IH]; [constructor|].
  rewrite fmap_cons in Hnames. apply NoDup_cons in Hnames as [Ht Hts].
  rewrite bind_cons. apply NoDup_app. split_and!.
  - rewrite bind_const_filter.
    pose proof (NoDup_filter_length_le
      (λ et, db.et_tag_id et = db.t_id t ∧ db.et_entry_id et = id) (db.entry_tags d)
      (db.mkEntryTagRow id (db.t_id t)) Het) as Hlen.
    destruct (length _) as [|[|n]].
    + constructor.
    + apply NoDup_singleton.
    + exfalso. assert (S (S n) ≤ 1)%nat; [|lia]. apply Hlen.
      intros [e1 e2] [H1 H2]. simpl in *. by subst.
  - intros name Hin (t' & Hin' & Ht')%list_elem_of_bind.
    rewrite bind_const_filter in Hin. apply elem_of_replicate in Hin as [-> _].
    rewrite bind_const_filter in Hin'. apply elem_of_replicate in Hin' as [Heq _].
    apply Ht. rewrite Heq. by apply list_elem_of_fmap_2.
  - by apply IH.
Qed.

Lemma getTagsForEntry_canonical d id :
  db.schema_ok d →
  ∃ l, db.getTagsForEntry d id = Slice l ∧ Sorted String.le l ∧ NoDup l.
Proof.
  intros (_ & _ & _ & _ & Hnames & Het & _).
  exists (merge_sort String.le (db.query_tag_names d id)). split_and!.
  - apply getTagsForEntry_eq.
  - apply Sorted_merge_sort. apply _.
  - rewrite merge_sort_Permutation. by apply query_tag_names_NoDup.
Qed.



End tag_facts.

Section claim_C10.
Context {eng : db.Engine}.


End claim_C10.


Section setTags_facts.
Context {eng : db.Engine}.

Lemma key_determines {A K} `{EqDecision K} (key : A → K) (l : list A) x y :
  NoDup (key <$> l) → x ∈ l → y ∈ l → key x = key y → x = y.
Proof.
  intros Hnd Hx Hy Hk.
  assert (x ∈ filter (λ z, key z = key y) l) as Hin by (apply list_elem_of_filter; done).
  rewrite (filter_key_unique key l y Hnd Hy) in Hin. by apply list_elem_of_singleton in Hin.
Qed.

(** One round of the loop of [setTags] adds the name [n] to the entry's
    names, and nothing else. *)
Lemma tag_step_names id n tid d d1 d3 :
  db.schema_ok d →
  db.exec_insert_or_ignore_tags n d = Ok (tt, d1) →
  db.query_tag_id n d1 = Ok (tid, d1) →
  db.exec_insert_or_ignore_entry_tags id tid d1 = Ok (tt, d3) →
  ∀ name, name ∈ db.query_tag_names d3 id ↔ name ∈ db.query_tag_names d id ∨ name = n.
Proof.
  intros Hok H1 H2 H3 name.
  pose proof (preserves_insert_or_ignore_tags n d tt d1 Hok H1) as (_ & _ & _ & Hids & _).
  apply query_tag_id_inv in H2 as (_ & tr & [Htr Hn]%head_filter_Some & Htid).
  assert (∀ t, t ∈ db.tags d → t ∈ db.tags d1) as Hsub.
  { intros t Ht. apply exec_insert_or_ignore_tags_inv in H1 as [_ [[_ ->]|[_ ->]]]; [done|].
    simpl. apply elem_of_app. by left. }
  assert (∀ t, t ∈ db.tags d1 → t ∈ db.tags d ∨ db.t_name t = n) as Hnew.
  { intros t Ht. apply exec_insert_or_ignore_tags_inv in H1 as [_ [[_ ->]|[_ ->]]]; [by left|].
    simpl in Ht. apply elem_of_app in Ht as [Ht|Ht%list_elem_of_singleton]; [by left|].
    right. by subst. }
  assert (db.entry_tags d1 = db.entry_tags d) as Het1.
  { apply exec_insert_or_ignore_tags_inv in H1 as [_ [[_ ->]|[_ ->]]]; done. }
  assert (db.tags d3 = db.tags d1) as Ht3.
  { apply exec_insert_or_ignore_entry_tags_inv in H3 as [_ [[_ ->]|[_ ->]]]; done. }
  pose proof H3 as [Hin3 Hcases]%exec_insert_or_ignore_entry_tags_inv.
  assert (∀ et, et ∈ db.entry_tags d3 → et ∈ db.entry_tags d ∨ et = db.mkEntryTagRow id tid) as Hetnew.
  { intros et Het. destruct Hcases as [[_ ->]|[_ ->]]; [left; by rewrite <- Het1|].
    simpl in Het. apply elem_of_app in Het as [Het|Het%list_elem_of_singleton]; [|by right].
    left. by rewrite <- Het1. }
  assert (∀ et, et ∈ db.entry_tags d → et ∈ db.entry_tags d3) as Hetsub.
  { intros et Het. rewrite <- Het1 in Het. destruct Hcases as [[_ ->]|[_ ->]]; [done|].
    simpl. apply elem_of_app. by left. }
  rewrite !query_tag_names_elem. split.
  - intros (t & et & Ht & Het & Hj & Hid & Hname). rewrite Ht3 in Ht.
    destruct (Hetnew et Het) as [Hold| ->].
    + destruct (Hnew t Ht) as [Htold|Htn]; [|right; congruence].
      left. by exists t, et.
    + right. simpl in Hj. assert (t = tr) as ->; [|congruence].
      apply (key_determines db.t_id (db.tags d1)); try done. congruence.
  - intros [(t & et & Ht & Het & Hj & Hid & Hname)| ->].
    + exists t, et. rewrite Ht3. split_and!; auto.
    + exists tr, (db.mkEntryTagRow id tid). rewrite Ht3. split_and!; auto.
Qed.

Lemma setTags_loop_names id ts d d' :
  db.schema_ok d → db.setTags_loop id ts d = Ok (tt, d') →
  ∀ name, name ∈ db.query_tag_names d' id ↔
          name ∈ db.query_tag_names d id ∨ (name ≠ "" ∧ ∃ t, t ∈ ts ∧ db.TrimSpace t = name).
Proof.
  revert d. induction ts as [|t ts IH]; intros d Hok H name; simpl in H.
  - apply ret_inv in H as [_ <-]. split; [by left|]. intros [?|(_ & t & Ht%elem_of_nil & _)]; done.
  - case_decide as Hblank.
    + rewrite (IH d Hok H name). split.
      * intros [?|(Hne & t' & Ht' & Heq)]; [by left|]. right. split; [done|].
        exists t'. split; [by right|done].
      * intros [?|(Hne & t' & Ht' & Heq)]; [by left|]. right. split; [done|].
        apply elem_of_cons in Ht' as [->|Ht']; [congruence|]. by exists t'.
    + apply bind_inv in H as ([] & d1 & H1 & H).
      apply bind_inv in H as (tid & d2 & H2 & H).
      apply bind_inv in H as ([] & d3 & H3 & H).
      pose proof H2 as [-> _]%query_tag_id_inv.
      pose proof (preserves_insert_or_ignore_tags _ d tt d1 Hok H1) as Hok1.
      pose proof (preserves_insert_or_ignore_entry_tags _ _ d1 tt d3 Hok1 H3) as Hok3.
      rewrite (IH d3 Hok3 H name).
      rewrite (tag_step_names id _ tid d d1 d3 Hok H1 H2 H3 name). split.
      * intros [[?| ->]|(Hne & t' & Ht' & Heq)]; [by left| |].
        -- right. split; [done|]. exists t. split; [left|done].
        -- right. split; [done|]. exists t'. split; [by right|done].
      * intros [?|(Hne & t' & Ht' & Heq)]; [left; by left|].
        apply elem_of_cons in Ht' as [->|Ht']; [left; by right|].
        right. split; [done|]. by exists t'.
Qed.

(** The entry's tags after [setTags] are the non-blank trimmed names that
    were passed, whatever the entry carried before. *)
Lemma setTags_names id ts d d' :
  db.schema_ok d → db.setTags id ts d = Ok (tt, d') →
  ∀ name, name ∈ items (db.getTagsForEntry d' id) ↔
          name ≠ "" ∧ ∃ t, t ∈ items ts ∧ db.TrimSpace t = name.
Proof.
  intros Hok H name. pose proof H as Hloop%setTags_inv.
  assert (db.schema_ok (db.with_entry_tags d
            (filter (λ et, db.et_entry_id et ≠ id) (db.entry_tags d)))) as Hok0.
  { by apply (preserves_delete_entry_tags id d tt). }
  rewrite getTagsForEntry_eq. simpl. rewrite elem_of_merge_sort.
  rewrite (setTags_loop_names id (items ts) _ d' Hok0 Hloop name).
  split; [|by right]. intros [Hin|?]; [|done].
  apply query_tag_names_elem in Hin as (t & et & _ & Het & _ & Hid & _). simpl in Het.
  apply list_elem_of_filter in Het as [Hne _]. done.
Qed.

Lemma DB_eq (a b : db.DB) :
  db.entries a = db.entries b → db.entries_seq a = db.entries_seq b →
  db.tags a = db.tags b → db.tags_seq a = db.tags_seq b →
  db.entry_tags a = db.entry_tags b → db.entry_stats a = db.entry_stats b →
  db.lock a = db.lock b → db.entries_fts a = db.entries_fts b → a = b.
Proof. destruct a, b. simpl. by intros -> -> -> -> -> -> -> ->. Qed.

Lemma tags_seq_loop_grow id ts d d' t :
  db.setTags_loop id ts d = Ok (tt, d') → t ∈ db.tags d → t ∈ db.tags d'.
Proof.
  intros (_ & _ & _ & _ & _ & [added ->] & _)%setTags_loop_grow Ht. apply elem_of_app. by left.
Qed.

(** Running the loop again from a state that already has the final tag
    rows ends in the same rows; only the counter of [tags] moves on, by
    one for every name that is looked at. *)
Lemma setTags_loop_replay id ts a b a' :
  db.setTags_loop id ts a = Ok (tt, b) →
  db.entries a' = db.entries a → db.entries_seq a' = db.entries_seq a →
  db.entry_stats a' = db.entry_stats a → db.lock a' = db.lock a →
  db.entries_fts a' = db.entries_fts a → db.entry_tags a' = db.entry_tags a →
  db.tags a' = db.tags b →
  ∃ b', db.setTags_loop id ts a' = Ok (tt, b') ∧ db.same_rows b b'.
Proof.
  revert a a'. induction ts as [|t ts IH]; intros a a' H E1 E2 E3 E4 E5 E6 E7; simpl in *.
  - apply ret_inv in H as [_ <-]. exists a'. split; [done|]. by unfold db.same_rows.
  - case_decide as Hblank; [by eapply IH|]. on_reliable.
    apply bind_inv in H as ([] & a1 & H1 & H).
    apply bind_inv in H as (tid & a2 & H2 & H).
    apply bind_inv in H as ([] & a3 & H3 & H).
    pose proof H2 as (-> & tr & Hhead & Htid)%query_tag_id_inv.
    pose proof (exec_insert_or_ignore_tags_grow id _ _ _ H1) as (G1 & G2 & G3 & G4 & G5 & _ & [ea [G7 _]]).
    pose proof (exec_insert_or_ignore_entry_tags_grow _ _ _ _ H3) as (K1 & K2 & K3 & K4 & K5 & [ta K6] & _).
    pose proof (setTags_loop_grow _ _ _ _ H) as (_ & _ & _ & _ & _ & [tb L6] & _).
    assert (db.tags b = db.tags a1 ++ (ta ++ tb)) as Htb by (by rewrite L6, K6, app_assoc).
    assert (ea = []) as ->.
    { apply exec_insert_or_ignore_tags_inv in H1 as [_ [[_ ->]|[_ ->]]]; simpl in G7.
      - by apply (inj (app (db.entry_tags a))); rewrite app_nil_r.
      - by apply (inj (app (db.entry_tags a))); rewrite app_nil_r. }
    rewrite app_nil_r in G7.
    (* the tag row is there already *)
    set (a1' := db.with_tags a' (db.tags a')
                  (db.next_rowid (db.tags_seq a') (db.t_id <$> db.tags a'))).
    assert (db.exec_insert_or_ignore_tags (db.TrimSpace t) a' = Ok (tt, a1')) as R1.
    { unfold db.exec_insert_or_ignore_tags. cbv zeta. rewrite decide_True; [done|].
      rewrite E7, Htb, fmap_app. apply elem_of_app. left.
      by apply exec_insert_or_ignore_tags_inv in H1 as [? _]. }
    erewrite bind_Ok by exact R1.
    (* and the lookup finds the same row *)
    assert (db.query_tag_id (db.TrimSpace t) a1' = Ok (tid, a1')) as R2.
    { unfold db.query_tag_id. cbn [a1' db.tags db.with_tags]. rewrite E7, Htb.
      rewrite (head_filter_app_l _ _ _ tr Hhead). by rewrite Htid. }
    erewrite bind_Ok by exact R2.
    pose proof Hhead as [Htr _]%head_filter_Some.
    pose proof H3 as [_ [[Hin ->]|[Hnin ->]]]%exec_insert_or_ignore_entry_tags_inv.
    + assert (db.exec_insert_or_ignore_entry_tags id tid a1' = Ok (tt, a1')) as R3.
      { unfold db.exec_insert_or_ignore_entry_tags. rewrite decide_True; [done|].
        cbn [a1' db.entry_tags db.with_tags]. by rewrite E6, <- G7. }
      erewrite bind_Ok by exact R3.
      eapply IH; [exact H|cbn [a1' db.entries db.entries_seq db.entry_stats db.lock
                                 db.entries_fts db.entry_tags db.tags db.with_tags]; congruence..].
    + assert (db.exec_insert_or_ignore_entry_tags id tid a1'
              = Ok (tt, db.with_entry_tags a1' (db.entry_tags a1' ++ [db.mkEntryTagRow id tid]))) as R3.
      { unfold db.exec_insert_or_ignore_entry_tags.
        rewrite decide_False by (cbn [a1' db.entry_tags db.with_tags]; by rewrite E6, <- G7).
        unfold db.exec_insert_or_ignore_entry_tags in H3. rewrite decide_False in H3 by done.
        case_decide as Hfk; [|done]. destruct Hfk as [Hfk1 Hfk2].
        rewrite decide_True; [done|]. cbn [a1' db.entries db.tags db.with_tags].
        split; [by rewrite E1, <- G1|].
        rewrite E7, Htb, fmap_app. apply elem_of_app. left.
        subst tid. by apply list_elem_of_fmap_2. }
      erewrite bind_Ok by exact R3.
      eapply IH; [exact H|simpl; congruence..].
Qed.

(** Applying the same tag set twice gives the rows that applying it once
    gives. *)
Lemma setTags_idempotent id ts d b :
  db.setTags id ts d = Ok (tt, b) → ∃ b', db.setTags id ts b = Ok (tt, b') ∧ db.same_rows b b'.
Proof.
  intros H. pose proof H as (F1 & F2 & F3 & F4 & F5 & _ & F7)%setTags_frame.
  pose proof H as Hloop%setTags_inv.
  unfold db.setTags. on_reliable. unfold mbind at 1. unfold db.Tx_bind, db.exec_delete_entry_tags.
  eapply setTags_loop_replay; [exact Hloop|simpl; done..].
Qed.

End setTags_facts.

Section create_facts.
Context {eng : db.Engine}.

Lemma CreateEntry_body_inv now e d id d' :
  (entryID ← db.wrapf "insert entry"
      (db.exec_insert_entries now (db.Slug e) (db.Title e) (db.Description e) (db.Content e)
         (db.defaultStr (db.Kind e) "skill") (db.Language e) (db.Domain e) (db.Project e));
   _ ← db.wrapf "insert fts" (db.exec_insert_fts entryID (db.Title e) (db.Description e) (db.Content e));
   _ ← db.wrapf "insert stats" (db.exec_insert_stats entryID);
   _ ← db.wrapf "set tags" (db.setTags entryID (db.Tags e));
   mret entryID) d = Ok (id, d') →
  id = db.next_rowid (db.entries_seq d) (db.e_id <$> db.entries d)
  ∧ db.sqlite_length (db.Content e) ≤ 32768
  ∧ (db.Slug e ∉ db.e_slug <$> db.entries d)
  ∧ (id ∉ db.fts_rowid <$> db.entries_fts d)
  ∧ (id ∉ db.es_entry_id <$> db.entry_stats d)
  ∧ db.setTags id (db.Tags e) (db.with_new_entry now e d) = Ok (tt, d').
Proof.
  intros H.
  apply bind_inv in H as (id0 & d1 & H1%wrapf_inv & H).
  apply bind_inv in H as ([] & d2 & H2%wrapf_inv & H).
  apply bind_inv in H as ([] & d3 & H3%wrapf_inv & H).
  apply bind_inv in H as ([] & d4 & H4%wrapf_inv & H).
  apply ret_inv in H as [<- <-].
  unfold db.exec_insert_entries in H1. case_decide as Hlen; [done|]. case_decide as Hslug; [done|].
  injection H1 as <- <-.
  unfold db.exec_insert_fts in H2. case_decide; [done|]. injection H2 as <-.
  unfold db.exec_insert_stats in H3. case_decide; [done|]. case_decide; [|done]. injection H3 as <-.
  split_and!; [done|lia|done..|]. exact H4.
Qed.

Lemma CreateEntry_readback now e d d' :
  db.setTags (db.next_rowid (db.entries_seq d) (db.e_id <$> db.entries d)) (db.Tags e)
    (db.with_new_entry now e d) = Ok (tt, d') →
  head (filter (λ r, db.e_id r = db.next_rowid (db.entries_seq d) (db.e_id <$> db.entries d))
          (db.entries d'))
  = Some (db.created_row now e (db.next_rowid (db.entries_seq d) (db.e_id <$> db.entries d))).
Proof.
  intros (-> & _)%setTags_frame. simpl. rewrite filter_app.
  rewrite (filter_key_absent db.e_id) by apply next_rowid_fresh.
  by rewrite filter_cons_True.
Qed.

(** [CreateEntry] on the reliable storage: [Begin] and [Commit] return,
    every call is its statement, and the read-back is the row lookup. *)
Lemma CreateEntry_reliable now e d :
  db.CreateEntry now e d
  = match db.transaction
            (entryID ← db.wrapf "insert entry"
               (db.exec_insert_entries now (db.Slug e) (db.Title e) (db.Description e)
                  (db.Content e) (db.defaultStr (db.Kind e) "skill") (db.Language e)
                  (db.Domain e) (db.Project e));
             _ ← db.wrapf "insert fts"
               (db.exec_insert_fts entryID (db.Title e) (db.Description e) (db.Content e));
             _ ← db.wrapf "insert stats" (db.exec_insert_stats entryID);
             _ ← db.wrapf "set tags" (db.setTags entryID (db.Tags e));
             mret entryID) d with
    | (Err err, d') => (Err err, d')
    | (Ok entryID, d') =>
      match head (filter (λ r, db.e_id r = entryID) (db.entries d')) with
      | Some r =>
        (Ok (db.mkEntry entryID (db.Slug e) (db.Title e) (db.Description e) (db.Content e)
               (db.Kind e) (db.Language e) (db.Domain e) (db.Project e)
               (db.e_version r) (db.e_created_at r) (db.e_updated_at r) (db.Tags e)
               (db.Snippet e)), d')
      | None => (Err ErrNoRows, d')
      end
    end.
Proof.
  unfold db.CreateEntry. cbv zeta.
  match goal with
  | |- match db.transaction ?b d with _ => _ end = match db.transaction ?b' d with _ => _ end =>
    change (db.transaction b d) with (db.transaction b' d)
  end.
  destruct (db.transaction _ d) as [[id|err] d1]; [|done].
  on_reliable. unfold db.query_row_version. by destruct (head _).
Qed.

(** What a successful [CreateEntry] did. *)
Lemma CreateEntry_Ok now e d e' d' :
  db.CreateEntry now e d = (Ok e', d') →
  let id := db.next_rowid (db.entries_seq d) (db.e_id <$> db.entries d) in
  db.sqlite_length (db.Content e) ≤ 32768
  ∧ (db.Slug e ∉ db.e_slug <$> db.entries d)
  ∧ (id ∉ db.fts_rowid <$> db.entries_fts d)
  ∧ (id ∉ db.es_entry_id <$> db.entry_stats d)
  ∧ db.setTags id (db.Tags e) (db.with_new_entry now e d) = Ok (tt, d')
  ∧ e' = db.mkEntry id (db.Slug e) (db.Title e) (db.Description e) (db.Content e) (db.Kind e)
           (db.Language e) (db.Domain e) (db.Project e) 1 now now (db.Tags e) (db.Snippet e).
Proof.
  unfold db.CreateEntry. cbv zeta.
  destruct (db.transaction _ d) as [[id|err] d1] eqn:Htx; [|done].
  apply transaction_Ok, CreateEntry_body_inv in Htx as (-> & Hlen & Hslug & Hfts & Hst & Htags).
  on_reliable. unfold db.query_row_version.
  rewrite (CreateEntry_readback now e d d1 Htags). intros [= <- <-]. done.
Qed.

(** A failed [CreateEntry] leaves no trace. *)
Lemma CreateEntry_Err now e d err d' : db.CreateEntry now e d = (Err err, d') → d' = d.
Proof.
  unfold db.CreateEntry. cbv zeta.
  destruct (db.transaction _ d) as [[id|err0] d1] eqn:Htx.
  - apply transaction_Ok, CreateEntry_body_inv in Htx as (-> & Hlen & Hslug & _ & _ & Htags).
    on_reliable. unfold db.query_row_version.
    by rewrite (CreateEntry_readback now e d d1 Htags).
  - apply transaction_Err in Htx. by intros [= _ <-].
Qed.

(** In a consistent database [CreateEntry] succeeds as soon as the slug is
    free and the content fits. *)
Lemma CreateEntry_succeeds now e d :
  db.consistent d →
  db.Slug e ∉ db.e_slug <$> db.entries d → db.sqlite_length (db.Content e) ≤ 32768 →
  ∃ e' d', db.CreateEntry now e d = (Ok e', d').
Proof.
  intros [Hschema Hsync] Hslug Hlen.
  set (id := db.next_rowid (db.entries_seq d) (db.e_id <$> db.entries d)).
  destruct (setTags_ok id (db.Tags e) (db.with_new_entry now e d)) as [d' Htags].
  { simpl. rewrite fmap_app. apply elem_of_app. right. left. }
  assert (id ∉ db.fts_rowid <$> db.entries_fts d) as Hfts.
  { destruct Hsync as (_ & Hf & _). rewrite Forall_forall in Hf.
    intros (f & Hid & Hin)%list_elem_of_fmap. apply Hf in Hin.
    apply list_elem_of_fmap in Hin as (r & -> & Hr). simpl in Hid.
    apply (next_rowid_fresh (db.entries_seq d) (db.e_id <$> db.entries d)).
    fold id. rewrite Hid. by apply list_elem_of_fmap_2. }
  assert (id ∉ db.es_entry_id <$> db.entry_stats d) as Hstats.
  { destruct Hschema as (_ & _ & _ & _ & _ & _ & _ & Hfk). rewrite Forall_forall in Hfk.
    intros (s & Hid & Hin)%list_elem_of_fmap. apply Hfk in Hin.
    apply (next_rowid_fresh (db.entries_seq d) (db.e_id <$> db.entries d)).
    fold id. by rewrite Hid. }
  eexists _, d'.
  assert (db.transaction
    (entryID ← db.wrapf "insert entry"
        (db.exec_insert_entries now (db.Slug e) (db.Title e) (db.Description e) (db.Content e)
           (db.defaultStr (db.Kind e) "skill") (db.Language e) (db.Domain e) (db.Project e));
     _ ← db.wrapf "insert fts" (db.exec_insert_fts entryID (db.Title e) (db.Description e) (db.Content e));
     _ ← db.wrapf "insert stats" (db.exec_insert_stats entryID);
     _ ← db.wrapf "set tags" (db.setTags entryID (db.Tags e));
     mret entryID) d = (Ok id, d')) as Htx.
  { apply transaction_Ok.
    erewrite bind_Ok; cycle 1.
    { apply wrapf_Ok. unfold db.exec_insert_entries.
      rewrite decide_False by lia. rewrite decide_False by done. reflexivity. }
    erewrite bind_Ok; cycle 1.
    { apply wrapf_Ok. unfold db.exec_insert_fts. rewrite decide_False by done. reflexivity. }
    erewrite bind_Ok; cycle 1.
    { apply wrapf_Ok. unfold db.exec_insert_stats. simpl. rewrite decide_False by done.
      rewrite decide_True; [reflexivity|]. rewrite fmap_app. apply elem_of_app. right. left. }
    erewrite bind_Ok; cycle 1.
    { apply wrapf_Ok. exact Htags. }
    done. }
  unfold db.CreateEntry. cbv zeta.
  lazymatch type of Htx with
  | ?lhs = _ =>
    match goal with |- context [db.transaction ?b d] => change (db.transaction b d) with lhs end
  end.
  rewrite Htx. on_reliable. unfold db.query_row_version.
  subst id. rewrite (CreateEntry_readback now e d d' Htags). reflexivity.
Qed.

End create_facts.

Section storage_facts.
Context {eng : db.Engine} {io : db.Storage}.

(** A run of the tag loop that met no fault is the run on the reliable
    storage. *)
Lemma setTags_loop_reliable id ts d r :
  db.setTags_loop id ts d = Ok r → db.setTags_loop (io := db.reliable) id ts d = Ok r.
Proof.
  destruct r as [[] d']. revert d. induction ts as [|t ts IH]; intros d H; simpl in *; [done|].
  case_decide; [by apply IH|].
  apply bind_inv in H as ([] & d1 & [_ H1]%run_inv & H).
  apply bind_inv in H as (tid & d2 & [_ H2]%run_inv & H).
  apply bind_inv in H as ([] & d3 & [_ H3]%run_inv & H).
  on_reliable.
  erewrite bind_Ok by exact H1. erewrite bind_Ok by exact H2. erewrite bind_Ok by exact H3.
  by apply IH.
Qed.

Lemma setTags_reliable id ts d r :
  db.setTags id ts d = Ok r → db.setTags (io := db.reliable) id ts d = Ok r.
Proof.
  destruct r as [[] d']. unfold db.setTags. intros ([] & d1 & [_ H1]%run_inv & H)%bind_inv.
  on_reliable. erewrite bind_Ok by exact H1. by apply setTags_loop_reliable.
Qed.

(** The lookup by slug, when it returns. *)
Lemma scan_entry_id_Ok slug d r :
  db.scan_entry_id slug d = Ok r → db.scan_entry_id (io := db.reliable) slug d = Ok r.
Proof.
  unfold db.scan_entry_id at 1.
  destruct (db.run _ _ d) as [r0|err] eqn:E; [|by destruct err].
  apply run_inv in E as [_ E]. intros [= <-].
  unfold db.scan_entry_id. on_reliable. by rewrite E.
Qed.

(** A [CreateEntry] either fails before or at [Commit] and leaves the
    database as it found it, or commits what the creation on the reliable
    storage commits; what it then returns hangs on the read-back alone. *)
Lemma CreateEntry_cases now e d :
  let e1 := db.mkEntry (db.next_rowid (db.entries_seq d) (db.e_id <$> db.entries d))
              (db.Slug e) (db.Title e) (db.Description e) (db.Content e) (db.Kind e)
              (db.Language e) (db.Domain e) (db.Project e) 1 now now (db.Tags e)
              (db.Snippet e) in
  (∃ err, db.CreateEntry now e d = (Err err, d))
  ∨ (∃ d', db.CreateEntry (io := db.reliable) now e d = (Ok e1, d')
           ∧ db.CreateEntry now e d
             = match db.fault db.SelectEntriesVersion d' with
               | Some err => (Err err, d')
               | None => (Ok e1, d')
               end).
Proof.
  intros e1. unfold db.CreateEntry at 1 3. cbv zeta.
  destruct (db.transaction _ d) as [[id|err] d1] eqn:Htx.
  2:{ left. exists err. by apply transaction_Err in Htx as ->. }
  right. exists d1. apply transaction_Ok in Htx.
  apply bind_inv in Htx as ([] & d0 & [_ [_ <-]%ret_inv]%wrapf_inv%run_inv & H).
  apply bind_inv in H as (id0 & d2 & [_ H1]%wrapf_inv%run_inv & H).
  apply bind_inv in H as ([] & d3 & [_ H2]%wrapf_inv%run_inv & H).
  apply bind_inv in H as ([] & d4 & [_ H3]%wrapf_inv%run_inv & H).
  apply bind_inv in H as ([] & d5 & H4%wrapf_inv%setTags_reliable & H).
  apply bind_inv in H as ([] & d6 & [_ [_ <-]%ret_inv]%wrapf_inv%run_inv & H).
  apply ret_inv in H as [<- <-].
  assert ((entryID ← db.wrapf "insert entry"
             (db.exec_insert_entries now (db.Slug e) (db.Title e) (db.Description e)
                (db.Content e) (db.defaultStr (db.Kind e) "skill") (db.Language e)
                (db.Domain e) (db.Project e));
           _ ← db.wrapf "insert fts"
             (db.exec_insert_fts entryID (db.Title e) (db.Description e) (db.Content e));
           _ ← db.wrapf "insert stats" (db.exec_insert_stats entryID);
           _ ← db.wrapf "set tags" (db.setTags (io := db.reliable) entryID (db.Tags e));
           mret entryID) d = Ok (id0, d5)) as Hbody.
  { erewrite bind_Ok by (by apply wrapf_Ok). erewrite bind_Ok by (by apply wrapf_Ok).
    erewrite bind_Ok by (by apply wrapf_Ok). erewrite bind_Ok by (by apply wrapf_Ok). done. }
  pose proof Hbody as (-> & _ & _ & _ & _ & Htags)%CreateEntry_body_inv.
  pose proof (CreateEntry_readback now e d d5 Htags) as Hrow.
  split.
  - rewrite CreateEntry_reliable. apply transaction_Ok in Hbody. rewrite Hbody. cbv beta iota.
    by rewrite Hrow.
  - unfold db.run, db.query_row_version. rewrite Hrow.
    by destruct (db.fault db.SelectEntriesVersion d5).
Qed.

(** A [CreateEntry] that returns the entry did what the creation on the
    reliable storage does. *)
Lemma CreateEntry_Ok_reliable now e d e' d' :
  db.CreateEntry now e d = (Ok e', d') → db.CreateEntry (io := db.reliable) now e d = (Ok e', d').
Proof.
  intros H. destruct (CreateEntry_cases now e d) as [[err Herr]|(d1 & Hrel & Hio)].
  - by rewrite Herr in H.
  - rewrite Hio in H. destruct (db.fault db.SelectEntriesVersion d1); [done|].
    by injection H as <- <-.
Qed.

End storage_facts.

Section create_consequences.
Context {eng : db.Engine}.

Lemma bind_nil_all {A B} (f : A → list B) (l : list A) :
  (∀ x, x ∈ l → f x = []) → l ≫= f = [].
Proof.
  intros H. induction l as [|x l IH]; [done|].
  rewrite bind_cons, (H x) by left. apply IH. intros y Hy. apply H. by right.
Qed.

Lemma schema_ok_with_new_entry now e d :
  db.schema_ok d →
  db.Slug e ∉ db.e_slug <$> db.entries d → db.sqlite_length (db.Content e) ≤ 32768 →
  db.next_rowid (db.entries_seq d) (db.e_id <$> db.entries d) ∉ db.es_entry_id <$> db.entry_stats d →
  db.schema_ok (db.with_new_entry now e d).
Proof.
  intros (H1 & H2 & H3 & H4 & H5 & H6 & H7 & H8) Hslug Hlen Hst.
  unfold db.schema_ok. simpl. rewrite !fmap_app. simpl. split_and!; try done.
  - apply NoDup_snoc; [done|]. apply next_rowid_fresh.
  - by apply NoDup_snoc.
  - apply Forall_app. split; [done|]. by apply Forall_singleton.
  - by apply NoDup_snoc.
  - apply Forall_app. split.
    + eapply Forall_impl; [done|]. intros s Hs. apply elem_of_app. by left.
    + apply Forall_singleton. simpl. apply elem_of_app. right. left.
Qed.

Lemma index_synced_snoc d d' row :
  db.index_synced d →
  db.e_id row ∉ db.fts_rowid <$> db.entries_fts d →
  db.entries d' = db.entries d ++ [row] →
  db.entries_fts d' = db.entries_fts d ++ [db.index_row row] →
  db.index_synced d'.
Proof.
  intros (H1 & H2 & H3) Hfresh He Hf. unfold db.index_synced. rewrite He, Hf.
  rewrite !fmap_app. simpl. split_and!.
  - by apply NoDup_snoc.
  - apply Forall_app. split.
    + eapply Forall_impl; [done|]. intros f Hin. apply elem_of_app. by left.
    + apply Forall_singleton. apply elem_of_app. right. left.
  - apply Forall_app. split.
    + eapply Forall_impl; [done|]. intros f Hin. apply elem_of_app. by left.
    + apply Forall_singleton. apply elem_of_app. right. left.
Qed.

Lemma GetStats_new_entry d d' row :
  db.e_slug row ∉ db.e_slug <$> db.entries d →
  db.e_id row ∉ db.es_entry_id <$> db.entry_stats d →
  db.entries d' = db.entries d ++ [row] →
  db.entry_stats d' = db.entry_stats d ++ [db.zero_stats (db.e_id row)] →
  db.GetStats (db.e_slug row) d' = Ok (db.mkEntryStats 0 0 0 None None None).
Proof.
  intros Hslug Hst He Hs. unfold db.GetStats. rewrite He, Hs. rewrite bind_app.
  rewrite bind_nil_all; cycle 1.
  { intros es Hes. apply bind_nil_all. intros r [Hr|Hr%list_elem_of_singleton]%elem_of_app.
    - rewrite decide_False; [done|]. intros [_ Heq]. apply Hslug. rewrite <- Heq.
      by apply list_elem_of_fmap_2.
    - subst r. rewrite decide_False; [done|]. intros [Heq _]. apply Hst. rewrite Heq.
      by apply list_elem_of_fmap_2. }
  simpl. rewrite bind_app. rewrite bind_nil_all; cycle 1.
  { intros r Hr. rewrite decide_False; [done|]. intros [_ Heq]. apply Hslug. rewrite <- Heq.
    by apply list_elem_of_fmap_2. }
  simpl. by rewrite decide_True.
Qed.

Lemma take_all {A} (l : list A) n : (length l ≤ n)%nat → take n l = l.
Proof. apply take_ge. Qed.

End create_consequences.

Section create_established.
Context {eng : db.Engine}.

(** What a [create] on the reliable storage establishes in a consistent
    database. *)
Lemma CreateEntry_established (now : string) (e : db.Entry) (d : db.DB) :
  db.consistent d →
  (db.Slug e ∉ db.e_slug <$> db.entries d → db.sqlite_length (db.Content e) ≤ 32768 →
     ∃ e' d', db.CreateEntry now e d = (Ok e', d'))
  ∧ (∀ e' d', db.CreateEntry now e d = (Ok e', d') →
       let row := db.created_row now e (db.ID e') in
       db.Version e' = 1 ∧ db.CreatedAt e' = now ∧ db.UpdatedAt e' = now
       ∧ db.entries d' = db.entries d ++ [row]
       ∧ db.entries_fts d' = db.entries_fts d ++ [db.index_row row]
       ∧ db.entry_stats d' = db.entry_stats d ++ [db.zero_stats (db.ID e')]
       ∧ (∀ name, name ∈ items (db.getTagsForEntry d' (db.ID e')) ↔
                  name ≠ "" ∧ ∃ t, t ∈ items (db.Tags e) ∧ db.TrimSpace t = name)
       ∧ db.GetStats (db.Slug e) d' = Ok (db.mkEntryStats 0 0 0 None None None)
       ∧ (∀ t, (db.GetEntry t (db.Slug e) d').1
               = Ok (db.full_entry row (db.getTagsForEntry d' (db.ID e'))))
       ∧ (∀ q f,
            db.FilterTag f = "" →
            db.fts5_match q (db.index_row row) = true → db.matches f row = true →
            (db.index_row row, row) ∈ db.search_hits q f d')
       ∧ (∀ t q f limit,
            db.fts5_syntax_ok q = true → db.FilterTag f = "" →
            db.fts5_match q (db.index_row row) = true → db.matches f row = true →
            (length (db.search_hits q f d') ≤ Z.to_nat (db.effective_limit 10 limit))%nat →
            db.listed_entry row (db.getTagsForEntry d' (db.ID e'))
              (db.fts5_snippet q (db.index_row row))
            ∈ db.found (db.SearchEntries t q f limit d').1)
       ∧ db.consistent d').
Proof.
  intros [Hschema Hsync]. split_and!.
  - by apply CreateEntry_succeeds.
  - intros e' d' (Hlen & Hslug & Hfts & Hst & Htags & ->)%CreateEntry_Ok. cbn [db.ID].
    set (id := db.next_rowid (db.entries_seq d) (db.e_id <$> db.entries d)) in *.
    pose proof Htags as (He & _ & Hs & _ & Hf & _)%setTags_frame. simpl in He, Hs, Hf. fold id in He, Hs, Hf.
    pose proof (schema_ok_with_new_entry now e d Hschema Hslug Hlen Hst) as Hschema1.
    pose proof (preserves_setTags id (db.Tags e) _ tt d' Hschema1 Htags) as Hschema'.
    split_and!; try done.
    + by apply (setTags_names id (db.Tags e) _ d' Hschema1).
    + by apply (GetStats_new_entry d d' (db.created_row now e id)).
    + intros t.
      assert (head (filter (λ r, db.e_slug r = db.Slug e) (db.entries d'))
              = Some (db.created_row now e id)) as Hh.
      { rewrite He, filter_app. rewrite (filter_key_absent db.e_slug) by done.
        by rewrite filter_cons_True. }
      by rewrite (GetEntry_found t _ _ _ Hh).
    + intros q f Htag Hm Hw. apply search_hits_intro; try done.
      * rewrite Hf. apply elem_of_app. right. left.
      * rewrite He. apply elem_of_app. right. left.
    + intros t q f limit Hq Htag Hm Hw Hfit. rewrite SearchEntries_found, Hq.
      rewrite take_all by (by rewrite length_merge_sort).
      apply (list_elem_of_fmap_2' _ _ (db.index_row (db.created_row now e id), db.created_row now e id));
        [|reflexivity].
      apply elem_of_merge_sort, search_hits_intro; try done.
      * rewrite Hf. apply elem_of_app. right. left.
      * rewrite He. apply elem_of_app. right. left.
    + split; [done|]. by apply (index_synced_snoc d d' (db.created_row now e id)).
Qed.

End create_established.

Section claim_C2.
Context {eng : db.Engine} {io : db.Storage}.

(** C2. The rows of a [create] are written inside one transaction, so for
    every database and every storage, whichever statement the storage
    fails: a [create] that returns an error either left the database
    exactly as it was, or had committed the whole creation and met the
    error in the read-back of the version and timestamps that follows the
    commit; never a part of it. A [create] that returns without error did
    what the create on a storage that fails no call does. In a consistent
    database that create succeeds for a free slug and fitting content, and
    what it leaves is the entry row (version 1, both timestamps now), its
    search-index row, a zeroed stats row and the associations of its
    non-blank trimmed tags; the stats lookup answers with zeros, the direct
    lookup by slug returns the entry, and a full-text query that matches
    the entry's text has the entry among its hits, so that the search,
    which hands back the first hits by rank up to the effective limit,
    returns it whenever the hits fit under that limit. *)
Theorem C2_create_atomic (now : string) (e : db.Entry) (d : db.DB) :
  (∀ err d', db.CreateEntry now e d = (Err err, d') →
     d' = d
     ∨ (db.fault db.SelectEntriesVersion d' = Some err
        ∧ ∃ e', db.CreateEntry (io := db.reliable) now e d = (Ok e', d')))
  ∧ (∀ e' d', db.CreateEntry now e d = (Ok e', d') →
       db.CreateEntry (io := db.reliable) now e d = (Ok e', d'))
  ∧ (db.consistent d →
     db.Slug e ∉ db.e_slug <$> db.entries d → db.sqlite_length (db.Content e) ≤ 32768 →
     ∃ e' d', db.CreateEntry (io := db.reliable) now e d = (Ok e', d'))
  ∧ (db.consistent d →
     ∀ e' d', db.CreateEntry (io := db.reliable) now e d = (Ok e', d') →
       let row := db.created_row now e (db.ID e') in
       db.Version e' = 1 ∧ db.CreatedAt e' = now ∧ db.UpdatedAt e' = now
       ∧ db.entries d' = db.entries d ++ [row]
       ∧ db.entries_fts d' = db.entries_fts d ++ [db.index_row row]
       ∧ db.entry_stats d' = db.entry_stats d ++ [db.zero_stats (db.ID e')]
       ∧ (∀ name, name ∈ items (db.getTagsForEntry d' (db.ID e')) ↔
                  name ≠ "" ∧ ∃ t, t ∈ items (db.Tags e) ∧ db.TrimSpace t = name)
       ∧ db.GetStats (db.Slug e) d' = Ok (db.mkEntryStats 0 0 0 None None None)
       ∧ (∀ t, (db.GetEntry t (db.Slug e) d').1
               = Ok (db.full_entry row (db.getTagsForEntry d' (db.ID e'))))
       ∧ (∀ q f,
            db.FilterTag f = "" →
            db.fts5_match q (db.index_row row) = true → db.matches f row = true →
            (db.index_row row, row) ∈ db.search_hits q f d')
       ∧ (∀ t q f limit,
            db.fts5_syntax_ok q = true → db.FilterTag f = "" →
            db.fts5_match q (db.index_row row) = true → db.matches f row = true →
            (length (db.search_hits q f d') ≤ Z.to_nat (db.effective_limit 10 limit))%nat →
            db.listed_entry row (db.getTagsForEntry d' (db.ID e'))
              (db.fts5_snippet q (db.index_row row))
            ∈ db.found (db.SearchEntries t q f limit d').1)
       ∧ db.consistent d').
Proof.
  split_and!.
  - intros err d' H. destruct (CreateEntry_cases now e d) as [[err0 Herr]|(d1 & Hrel & Hio)].
    + rewrite Herr in H. left. by injection H.
    + rewrite Hio in H. right.
      destruct (db.fault db.SelectEntriesVersion d1) as [err1|] eqn:Hf; [|done].
      injection H as <- <-. eauto.
  - apply CreateEntry_Ok_reliable.
  - intros Hc. by destruct (CreateEntry_established now e d Hc) as [H _].
  - intros Hc. by destruct (CreateEntry_established now e d Hc) as [_ H].
Qed.

End claim_C2.

Section update_facts.
Context {eng : db.Engine}.

Lemma column_set_column col r c v :
  col ∈ db.columns →
  db.column col (db.set_column r c v) = if decide (c = col) then v else db.column col r.
Proof.
  unfold db.columns. rewrite !elem_of_cons, elem_of_nil.
  intros [->|[->|[->|[->|[->|[->|[->|[]]]]]]]]; reflexivity.
Qed.

Lemma set_column_fixed r c v :
  db.e_id (db.set_column r c v) = db.e_id r
  ∧ db.e_slug (db.set_column r c v) = db.e_slug r
  ∧ db.e_version (db.set_column r c v) = db.e_version r
  ∧ db.e_created_at (db.set_column r c v) = db.e_created_at r.
Proof. done. Qed.

Lemma updated_row_inv now r svs r' :
  db.updated_row now r svs = Some r' →
  db.e_id r' = db.e_id r
  ∧ db.e_slug r' = db.e_slug r
  ∧ db.e_created_at r' = db.e_created_at r
  ∧ db.e_version r' = db.e_version r + 1
  ∧ db.e_updated_at r' = now
  ∧ Forall (λ cv, cv.2 ≠ db.SqlNull) svs
  ∧ (∀ col, col ∈ db.columns → db.column col r' = db.assigned col svs (db.column col r)).
Proof.
  revert r. induction svs as [|[c [|v]] svs IH]; intros r H; simpl in H.
  - injection H as <-. split_and!; try done; constructor.
  - done.
  - apply IH in H as (H1 & H2 & H3 & H4 & H5 & H6 & H7).
    split_and!; try done.
    + by constructor.
    + intros col Hcol. rewrite (H7 col Hcol). simpl. by rewrite column_set_column.
Qed.

Lemma update_rows_inv now id svs rows rows' :
  db.update_rows now id svs rows = Ok rows' →
  Forall2 (db.row_updated now id svs) rows rows'
  ∧ Forall (λ r', db.e_id r' = id → db.sqlite_length (db.e_content r') ≤ 32768) rows'.
Proof.
  revert rows'. induction rows as [|r rows IH]; intros rows' H; simpl in H.
  - injection H as <-. split; constructor.
  - case_decide as Hid.
    + destruct (db.updated_row now r svs) as [r1|] eqn:Hu; [|done].
      case_decide as Hlen; [done|].
      destruct (db.update_rows now id svs rows) as [rest|] eqn:Hrest; [|done].
      injection H as <-. destruct (IH rest eq_refl) as [IH1 IH2]. split.
      * constructor; [|done]. unfold db.row_updated. by rewrite decide_True.
      * constructor; [|done]. intros _. lia.
    + destruct (db.update_rows now id svs rows) as [rest|] eqn:Hrest; [|done].
      injection H as <-. destruct (IH rest eq_refl) as [IH1 IH2]. split.
      * constructor; [|done]. unfold db.row_updated. by rewrite decide_False.
      * constructor; [|done]. intros Heq. done.
Qed.

Lemma row_updated_fixed now id svs r r' :
  db.row_updated now id svs r r' → db.e_id r' = db.e_id r ∧ db.e_slug r' = db.e_slug r.
Proof.
  unfold db.row_updated. case_decide; [|by intros ->].
  intros (? & ? & _)%updated_row_inv. done.
Qed.

Lemma rows_updated_keys now id svs rows rows' :
  Forall2 (db.row_updated now id svs) rows rows' →
  db.e_id <$> rows' = db.e_id <$> rows ∧ db.e_slug <$> rows' = db.e_slug <$> rows.
Proof.
  induction 1 as [|r r' rows rows' Hr _ [IH1 IH2]]; [done|].
  apply row_updated_fixed in Hr as [? ?]. rewrite !fmap_cons. split; congruence.
Qed.

(** The first row a key selects before the UPDATE and the first row it
    selects afterwards are one row, before and after. *)
Lemma rows_updated_head {K} `{EqDecision K} (key : db.EntryRow → K) (k : K) now id svs rows rows' r :
  (∀ a b, db.row_updated now id svs a b → key b = key a) →
  Forall2 (db.row_updated now id svs) rows rows' →
  head (filter (λ e, key e = k) rows) = Some r →
  ∃ r', head (filter (λ e, key e = k) rows') = Some r' ∧ db.row_updated now id svs r r'.
Proof.
  intros Hkey. induction 1 as [|a b rows rows' Hab _ IH]; [done|].
  pose proof (Hkey a b Hab) as Hk.
  destruct (decide (key a = k)) as [Ha|Ha].
  - rewrite filter_cons_True by done. intros [= <-].
    exists b. rewrite filter_cons_True by congruence. done.
  - rewrite filter_cons_False by done. intros Hh.
    rewrite filter_cons_False by congruence. by apply IH.
Qed.

Lemma rows_updated_other now id svs rows rows' x :
  Forall2 (db.row_updated now id svs) rows rows' →
  db.e_id x ≠ id → x ∈ rows' ↔ x ∈ rows.
Proof.
  intros H Hx. induction H as [|a b rows rows' Hab _ IH]; [done|].
  rewrite !elem_of_cons, IH. unfold db.row_updated in Hab. case_decide as Ha.
  - apply updated_row_inv in Hab as (Hid & _). split; intros [->|?]; auto; congruence.
  - by subst.
Qed.

Lemma bind_all_inv sets svs :
  db.bind_all sets = Ok svs →
  Forall2 (λ cv csv, cv.1 = csv.1 ∧ db.bind cv.2 = Ok csv.2) sets svs.
Proof.
  revert svs. induction sets as [|[c v] sets IH]; intros svs H; simpl in H.
  - injection H as <-. constructor.
  - destruct (db.bind v) as [sv|] eqn:Hb; [|done].
    destruct (db.bind_all sets) as [rest|]; [|done]. injection H as <-.
    constructor; [done|]. by apply IH.
Qed.

Lemma set_clauses_elem fields col v :
  (col, v) ∈ db.set_clauses fields ↔ col ∈ db.columns ∧ fields !! col = Some v.
Proof.
  unfold db.set_clauses. rewrite list_elem_of_omap. split.
  - intros (c & Hc & Hsome). destruct (fields !! c) as [v'|] eqn:E; simplify_eq/=. done.
  - intros [Hc Hv]. exists col. split; [done|]. by rewrite Hv.
Qed.

Lemma set_clauses_NoDup fields : NoDup ((db.set_clauses fields).*1).
Proof.
  unfold db.set_clauses.
  assert (NoDup db.columns) as Hnd by (apply (bool_decide_unpack _); vm_compute; exact I).
  induction db.columns as [|c cols IH]; [constructor|].
  apply NoDup_cons in Hnd as [Hc Hnd]. simpl.
  destruct (fields !! c) as [v|]; simpl; [|by apply IH].
  apply NoDup_cons. split; [|by apply IH].
  intros ([c' v'] & Heq & Hin)%list_elem_of_fmap. simpl in Heq. subst c'.
  apply list_elem_of_omap in Hin as (c0 & Hc0 & Hsome).
  destruct (fields !! c0); simplify_eq/=. done.
Qed.

Lemma assigned_absent col svs old : col ∉ svs.*1 → db.assigned col svs old = old.
Proof.
  revert old. induction svs as [|[c [|v]] svs IH]; intros old Hc; simpl; [done|..].
  - apply IH. intros ?. apply Hc. by right.
  - rewrite decide_False; [|intros ->; apply Hc; left].
    apply IH. intros ?. apply Hc. by right.
Qed.

Lemma assigned_present col s svs old :
  NoDup svs.*1 → (col, db.SqlText s) ∈ svs → db.assigned col svs old = s.
Proof.
  revert old. induction svs as [|[c sv] svs IH]; intros old Hnd Hin; [by apply elem_of_nil in Hin|].
  rewrite fmap_cons in Hnd. apply NoDup_cons in Hnd as [Hc Hnd]. simpl in Hc.
  apply elem_of_cons in Hin as [[= <- <-]|Hin].
  - simpl. rewrite decide_True by done. by apply assigned_absent.
  - assert (c ≠ col) as Hne.
    { intros ->. apply Hc. by apply (list_elem_of_fmap_2' fst _ (col, db.SqlText s)). }
    destruct sv as [|v]; simpl; [by apply IH|]. rewrite decide_False by done. by apply IH.
Qed.

(** Named columns take the bound value, the others keep theirs. *)
Lemma assigned_fields fields svs col old :
  db.bind_all (db.set_clauses fields) = Ok svs →
  Forall (λ cv, cv.2 ≠ db.SqlNull) svs →
  col ∈ db.columns →
  match fields !! col with
  | Some v => db.bind v = Ok (db.SqlText (db.assigned col svs old))
  | None => db.assigned col svs old = old
  end.
Proof.
  intros Hb%bind_all_inv Hnn Hcol.
  assert (svs.*1 = (db.set_clauses fields).*1) as Hkeys.
  { clear Hnn. induction Hb as [|[c v] [c' sv] ? ? [Hc _] _ IH]; [done|].
    rewrite !fmap_cons. simpl in Hc. cbn [fst]. by rewrite IH, Hc. }
  destruct (fields !! col) as [v|] eqn:Hv.
  - assert ((col, v) ∈ db.set_clauses fields) as Hin by (by apply set_clauses_elem).
    assert (∃ sv, (col, sv) ∈ svs ∧ db.bind v = Ok sv) as (sv & Hsv & Hbind).
    { clear Hnn Hkeys. induction Hb as [|[c v0] [c' sv0] ? ? [Hc Hbd] _ IH];
        [by apply elem_of_nil in Hin|]. simpl in *.
      apply elem_of_cons in Hin as [[= <- <-]|Hin].
      - exists sv0. split; [subst; left|done].
      - destruct (IH Hin) as (sv & ? & ?). exists sv. split; [by right|done]. }
    rewrite Forall_forall in Hnn. pose proof (Hnn _ Hsv) as Hnull. simpl in Hnull.
    destruct sv as [|s]; [done|].
    rewrite (assigned_present col s svs old); [done| |done].
    rewrite Hkeys. apply set_clauses_NoDup.
  - apply assigned_absent. rewrite Hkeys.
    intros ([c v] & Heq & Hin)%list_elem_of_fmap. simpl in Heq. subst c.
    apply set_clauses_elem in Hin as [_ Hsome]. congruence.
Qed.

End update_facts.

Section update_entry_facts.
Context {eng : db.Engine}.

(** [UpdateEntry] on the reliable storage: [Begin] and [Commit] return,
    and every call is its statement. *)
Lemma UpdateEntry_reliable now slug fields d :
  db.UpdateEntry now slug fields d
  = db.transaction
      (entryID ← db.scan_entry_id slug;
       _ ← db.wrapf "update entry" (db.exec_update_entries now entryID (db.set_clauses fields));
       _ ← db.wrapf "fts delete" (db.exec_delete_fts entryID);
       src ← db.wrapf "fts read" (db.query_fts_source entryID);
       _ ← db.wrapf "fts insert" (db.exec_insert_fts entryID src.1.1 src.1.2 src.2);
       _ ← match fields !! "tags" with
           | Some tagsVal => db.wrapf "update tags" (db.setTags entryID (db.tag_list tagsVal))
           | None => mret tt
           end;
       db.wrapf "update stats" (db.exec_bump_updates now entryID)) d.
Proof. reflexivity. Qed.

(** What a successful [UpdateEntry] did. *)
Lemma UpdateEntry_Ok now slug fields d d' :
  db.UpdateEntry now slug fields d = (Ok tt, d') →
  ∃ id svs rows src d5,
    db.query_entry_id slug d = Some id
    ∧ db.bind_all (db.set_clauses fields) = Ok svs
    ∧ db.update_rows now id svs (db.entries d) = Ok rows
    ∧ head (filter (λ e, db.e_id e = id) rows) = Some src
    ∧ match fields !! "tags" with
      | Some v => db.setTags id (db.tag_list v) (db.with_updated_entry id rows src d) = Ok (tt, d5)
      | None => d5 = db.with_updated_entry id rows src d
      end
    ∧ d' = db.bump_updates now id d5.
Proof.
  rewrite UpdateEntry_reliable. intros H%transaction_Ok.
  apply bind_inv in H as (id & d0 & H0 & H).
  apply bind_inv in H as ([] & d1 & H1%wrapf_inv & H).
  apply bind_inv in H as ([] & d2 & H2%wrapf_inv & H).
  apply bind_inv in H as ([[t ds] c] & d3 & H3%wrapf_inv & H).
  apply bind_inv in H as ([] & d4 & H4%wrapf_inv & H).
  apply bind_inv in H as ([] & d5 & H5 & H6%wrapf_inv).
  rewrite scan_entry_id_reliable in H0. destruct (db.query_entry_id slug d) as [id0|] eqn:Hq; [|done].
  injection H0 as -> <-.
  unfold db.exec_update_entries in H1.
  destruct (db.bind_all (db.set_clauses fields)) as [svs|] eqn:Hb; [|done].
  destruct (db.update_rows now id svs (db.entries d)) as [rows|] eqn:Hu; [|done].
  injection H1 as <-.
  injection H2 as <-.
  unfold db.query_fts_source in H3. simpl in H3.
  destruct (head (filter (λ e, db.e_id e = id) rows)) as [src|] eqn:Hsrc; [|done].
  simplify_eq/=.
  unfold db.exec_insert_fts in H4. case_decide; [done|]. injection H4 as <-.
  injection H6 as <-.
  exists id, svs, rows, src, d5. split_and!; try done.
  pose proof Hsrc as [_ Hsid]%head_filter_Some.
  unfold db.with_updated_entry, db.index_row. rewrite Hsid.
  destruct (fields !! "tags") as [v|].
  - apply wrapf_inv in H5. exact H5.
  - apply ret_inv in H5 as [_ <-]. reflexivity.
Qed.

(** A failed [UpdateEntry] changes nothing. *)
Lemma UpdateEntry_Err now slug fields d err d' :
  db.UpdateEntry now slug fields d = (Err err, d') → d' = d.
Proof. apply transaction_Err. Qed.

Lemma UpdateEntry_not_found now slug fields d :
  slug ∉ db.e_slug <$> db.entries d →
  db.UpdateEntry now slug fields d = (Err (Errorf ("entry not found: " +:+ slug)), d).
Proof.
  intros H%query_entry_id_None. rewrite UpdateEntry_reliable. unfold db.transaction.
  unfold mbind at 1. unfold db.Tx_bind. by rewrite scan_entry_id_reliable, H.
Qed.

Lemma schema_ok_with_updated_entry now id svs rows src d :
  db.schema_ok d → db.update_rows now id svs (db.entries d) = Ok rows →
  db.schema_ok (db.with_updated_entry id rows src d).
Proof.
  intros (H1 & H2 & H3 & H4 & H5 & H6 & H7 & H8) [Hu Hlen]%update_rows_inv.
  pose proof (rows_updated_keys _ _ _ _ _ Hu) as [Hids Hslugs].
  unfold db.schema_ok. simpl. rewrite Hids, Hslugs. split_and!; try done.
  rewrite Forall_forall in H3. rewrite Forall_forall in Hlen. apply Forall_forall. intros r' Hr'.
  destruct (decide (db.e_id r' = id)) as [Hid|Hid]; [by apply Hlen|].
  apply H3. by apply (rows_updated_other now id svs (db.entries d) rows).
Qed.

Lemma index_synced_with_updated_entry now id svs rows src d :
  db.consistent d → db.update_rows now id svs (db.entries d) = Ok rows →
  head (filter (λ e, db.e_id e = id) rows) = Some src →
  db.index_synced (db.with_updated_entry id rows src d).
Proof.
  intros [(Hnd & _) (S1 & S2 & S3)] [Hu _]%update_rows_inv [Hsrc Hsid]%head_filter_Some.
  pose proof (rows_updated_keys _ _ _ _ _ Hu) as [Hids _].
  rewrite Forall_forall in S2. rewrite Forall_forall in S3.
  unfold db.index_synced. simpl. rewrite fmap_app. simpl. split_and!.
  - apply NoDup_snoc; [by apply NoDup_fmap_filter|]. rewrite Hsid. apply (filter_ne_key_gone db.fts_rowid).
  - apply Forall_app. split; [|apply Forall_singleton; by apply list_elem_of_fmap_2].
    apply Forall_forall. intros f [Hne Hf]%list_elem_of_filter.
    apply S2, list_elem_of_fmap in Hf as (e0 & -> & He0). simpl in Hne.
    apply list_elem_of_fmap_2. by apply (rows_updated_other now id svs (db.entries d) rows).
  - apply Forall_forall. intros e He. apply elem_of_app.
    destruct (decide (db.e_id e = id)) as [Hid|Hid].
    + right. apply list_elem_of_singleton. f_equal.
      apply (key_determines db.e_id rows); [by rewrite Hids|done..|congruence].
    + left. apply list_elem_of_filter. split; [done|]. apply S3.
      by apply (rows_updated_other now id svs (db.entries d) rows).
Qed.

Lemma consistent_bump_updates now id d : db.consistent d → db.consistent (db.bump_updates now id d).
Proof. intros [? ?]. split; [by apply schema_ok_bump_updates|done]. Qed.

Lemma consistent_bump_reads now id d : db.consistent d → db.consistent (db.bump_reads now id d).
Proof. intros [? ?]. split; [by apply schema_ok_bump_reads|done]. Qed.

Lemma consistent_bump_searches now id d : db.consistent d → db.consistent (db.bump_searches now id d).
Proof. intros [? ?]. split; [by apply schema_ok_bump_searches|done]. Qed.

Lemma consistent_setTags id ts d d' :
  db.consistent d → db.setTags id ts d = Ok (tt, d') → db.consistent d'.
Proof.
  intros [Hs Hi] H. split; [by apply (preserves_setTags id ts d tt d')|].
  apply setTags_frame in H as (He & _ & _ & _ & Hf & _). by apply (index_synced_same d).
Qed.

Lemma consistent_UpdateEntry now slug fields d d' :
  db.consistent d → db.UpdateEntry now slug fields d = (Ok tt, d') → db.consistent d'.
Proof.
  intros Hc (id & svs & rows & src & d5 & Hq & Hb & Hu & Hsrc & Htags & ->)%UpdateEntry_Ok.
  apply consistent_bump_updates.
  assert (db.consistent (db.with_updated_entry id rows src d)) as Hc4.
  { split; [eapply schema_ok_with_updated_entry; [apply Hc|done]|].
    by eapply index_synced_with_updated_entry. }
  destruct (fields !! "tags") as [v|]; [|by subst].
  by eapply consistent_setTags.
Qed.

Lemma consistent_without_entry id d : db.consistent d → db.consistent (db.without_entry id d).
Proof.
  intros [Hs (S1 & S2 & S3)]. split; [by apply schema_ok_without_entry|].
  rewrite Forall_forall in S2. rewrite Forall_forall in S3. unfold db.index_synced. simpl. split_and!.
  - by apply NoDup_fmap_filter.
  - apply Forall_forall. intros f [Hne Hf]%list_elem_of_filter.
    apply S2, list_elem_of_fmap in Hf as (e0 & -> & He0). apply list_elem_of_fmap_2.
    apply list_elem_of_filter. done.
  - apply Forall_forall. intros e [Hne He]%list_elem_of_filter.
    apply list_elem_of_filter. split; [done|]. by apply S3.
Qed.

Lemma consistent_DeleteEntry slug d d' :
  db.consistent d → db.DeleteEntry slug d = (Ok tt, d') → db.consistent d'.
Proof.
  intros Hc H. destruct (db.query_entry_id slug d) as [id|] eqn:Hq.
  - rewrite (DeleteEntry_found _ _ _ Hq) in H. injection H as <-. by apply consistent_without_entry.
  - apply query_entry_id_None in Hq. by rewrite (DeleteEntry_not_found _ _ Hq) in H.
Qed.

(** In a consistent database the index rows of an entry are its mirror and
    nothing else. *)
Lemma index_rows_of_entry d r :
  db.consistent d → r ∈ db.entries d →
  filter (λ f, db.fts_rowid f = db.e_id r) (db.entries_fts d) = [db.index_row r].
Proof.
  intros [_ (S1 & _ & S3)] Hr. rewrite Forall_forall in S3.
  by apply (filter_key_unique db.fts_rowid (db.entries_fts d) (db.index_row r) S1), S3.
Qed.

Lemma index_row_owner d f :
  db.consistent d → f ∈ db.entries_fts d → db.fts_rowid f ∈ db.e_id <$> db.entries d.
Proof.
  intros [_ (_ & S2 & _)] Hf. rewrite Forall_forall in S2.
  apply S2, list_elem_of_fmap in Hf as (e0 & -> & He0). simpl. by apply list_elem_of_fmap_2.
Qed.

(** A query that does not match the mirror of an entry never returns it. *)
Lemma search_miss now q f limit d r :
  db.consistent d → r ∈ db.entries d → db.fts5_match q (db.index_row r) = false →
  Forall (λ e, db.ID e ≠ db.e_id r) (db.found (db.SearchEntries now q f limit d).1).
Proof.
  intros Hc Hr Hm. apply Forall_forall. intros e (fts & r0 & Hh & ->)%SearchEntries_elem.
  apply search_hits_elem in Hh as (Hf & Hr0 & Hid & Hmatch & _). simpl. intros Heq.
  assert (fts ∈ filter (λ f, db.fts_rowid f = db.e_id r) (db.entries_fts d)) as Hin.
  { apply list_elem_of_filter. split; [congruence|done]. }
  rewrite (index_rows_of_entry d r Hc Hr) in Hin. apply list_elem_of_singleton in Hin.
  congruence.
Qed.

Lemma bind_if_filter {A B} (P : A → Prop) `{∀ x, Decision (P x)} (g : A → B) (l : list A) :
  (x ← l; if decide (P x) then [g x] else []) = g <$> filter P l.
Proof.
  induction l as [|x l IH]; [done|]. rewrite bind_cons, IH.
  destruct (decide (P x)); [by rewrite filter_cons_True|by rewrite filter_cons_False].
Qed.

Lemma bind_ext_in {A B} (f g : A → list B) (l : list A) :
  (∀ x, x ∈ l → f x = g x) → l ≫= f = l ≫= g.
Proof.
  intros H. induction l as [|x l IH]; [done|].
  rewrite !bind_cons, (H x) by left. f_equal. apply IH. intros y Hy. apply H. by right.
Qed.

Lemma effective_limit_range def limit :
  1 ≤ def ≤ 50 → 1 ≤ db.effective_limit def limit ≤ 50.
Proof. intros Hdef. unfold db.effective_limit. case_decide; lia. Qed.

Lemma matches_no_filter e : db.matches db.no_filter e = true.
Proof. reflexivity. Qed.

(** A query that matches the mirror of one entry and of no other returns
    exactly that entry. *)
Lemma search_only_hit now q limit d r :
  db.consistent d → r ∈ db.entries d →
  db.fts5_syntax_ok q = true → db.fts5_match q (db.index_row r) = true →
  (∀ f, f ∈ db.entries_fts d → f ≠ db.index_row r → db.fts5_match q f = false) →
  db.found (db.SearchEntries now q db.no_filter limit d).1
  = [db.listed_entry r (db.getTagsForEntry d (db.e_id r)) (db.fts5_snippet q (db.index_row r))].
Proof.
  intros Hc Hr Hq Hm Hothers. pose proof Hc as [(Hnd & _) (S1 & S2 & S3)].
  rewrite SearchEntries_found, Hq.
  assert (db.search_hits q db.no_filter d = [(db.index_row r, r)]) as ->.
  { unfold db.search_hits. rewrite decide_True by done.
    rewrite (bind_ext_in _ (λ fts, if decide (fts = db.index_row r) then [(fts, r)] else [])).
    - rewrite (bind_if_filter _ (λ fts, (fts, r))).
      rewrite (filter_key_unique (λ f, f) (db.entries_fts d) (db.index_row r)); [done| |].
      + rewrite list_fmap_id. by apply NoDup_fmap_1 in S1.
      + rewrite Forall_forall in S3. by apply S3.
    - intros fts Hfts. case_decide as Heq.
      + subst fts. rewrite (bind_if_filter _ (λ e, (db.index_row r, e))).
        rewrite (list_filter_iff _ (λ e, db.e_id e = db.e_id r)).
        * by rewrite (id_selects d r Hnd Hr).
        * intros e. simpl. split; [tauto|]. intros ?. split_and!; [done|done|].
          apply matches_no_filter.
      + apply bind_nil_all. intros e _. rewrite decide_False; [done|]. intros (_ & Hmf & _).
        by rewrite (Hothers fts Hfts Heq) in Hmf. }
  pose proof (effective_limit_range 10 limit ltac:(lia)) as Hrange.
  destruct (Z.to_nat (db.effective_limit 10 limit)) as [|n] eqn:En; [lia|].
  rewrite (proj1 (Permutation_singleton_r _ _) (merge_sort_Permutation _ [(db.index_row r, r)])).
  rewrite firstn_cons, take_nil. reflexivity.
Qed.

End update_entry_facts.

Section update_storage_facts.
Context {eng : db.Engine} {io : db.Storage}.

(** A failed [UpdateEntry] changes nothing, whatever the storage does. *)
Lemma UpdateEntry_rollback now slug fields d err d' :
  db.UpdateEntry now slug fields d = (Err err, d') → d' = d.
Proof. apply transaction_Err. Qed.

(** A successful [UpdateEntry] did what the update on the reliable storage
    does. *)
Lemma UpdateEntry_Ok_reliable now slug fields d d' :
  db.UpdateEntry now slug fields d = (Ok tt, d') →
  db.UpdateEntry (io := db.reliable) now slug fields d = (Ok tt, d').
Proof.
  unfold db.UpdateEntry at 1. cbv zeta. intros H%transaction_Ok.
  apply bind_inv in H as ([] & d0 & [_ [_ <-]%ret_inv]%wrapf_inv%run_inv & H).
  apply bind_inv in H as (id & d1 & H0%scan_entry_id_Ok & H).
  apply bind_inv in H as ([] & d2 & [_ H1]%wrapf_inv%run_inv & H).
  apply bind_inv in H as ([] & d3 & [_ H2]%wrapf_inv%run_inv & H).
  apply bind_inv in H as (src & d4 & [_ H3]%wrapf_inv%run_inv & H).
  apply bind_inv in H as ([] & d5 & [_ H4]%wrapf_inv%run_inv & H).
  apply bind_inv in H as ([] & d6 & H5 & H).
  apply bind_inv in H as ([] & d7 & [_ H6]%wrapf_inv%run_inv & H).
  apply run_inv in H as [_ [_ <-]%ret_inv].
  rewrite UpdateEntry_reliable. apply transaction_Ok.
  erewrite bind_Ok by exact H0. erewrite bind_Ok by (by apply wrapf_Ok).
  erewrite bind_Ok by (by apply wrapf_Ok). erewrite bind_Ok by (by apply wrapf_Ok).
  erewrite bind_Ok by (by apply wrapf_Ok).
  erewrite bind_Ok; [by apply wrapf_Ok|].
  destruct (fields !! "tags"); [|exact H5].
  apply wrapf_inv, setTags_reliable in H5. by apply wrapf_Ok.
Qed.

End update_storage_facts.

Section update_success.
Context {eng : db.Engine}.

Lemma update_rows_nil_ok now id rows :
  Forall (λ e, db.sqlite_length (db.e_content e) ≤ 32768) rows →
  ∃ rows', db.update_rows now id [] rows = Ok rows'.
Proof.
  induction 1 as [|r rows Hr _ [rows' IH]]; simpl; [by eexists|].
  rewrite IH. case_decide; [|by eexists].
  rewrite decide_False by (simpl; lia). by eexists.
Qed.

(** An update that names no field succeeds on every entry that exists. *)
Lemma UpdateEntry_noop_succeeds now slug d :
  db.schema_ok d → slug ∈ db.e_slug <$> db.entries d →
  ∃ d', db.UpdateEntry now slug ∅ d = (Ok tt, d').
Proof.
  intros (_ & _ & Hlen & _) Hslug.
  destruct (query_entry_id_is_Some slug d Hslug) as [id Hq].
  pose proof Hq as (r & _ & Hr & _ & Hid)%query_entry_id_Some.
  destruct (update_rows_nil_ok now id (db.entries d) Hlen) as [rows Hu].
  pose proof Hu as [Hrel _]%update_rows_inv.
  pose proof (rows_updated_keys _ _ _ _ _ Hrel) as [Hids _].
  assert (id ∈ db.e_id <$> rows) as Hin.
  { rewrite Hids. subst id. by apply list_elem_of_fmap_2. }
  apply list_elem_of_fmap in Hin as (src0 & Hsid & Hsrc0).
  destruct (head_filter_is_Some (λ e, db.e_id e = id) rows src0 Hsrc0) as [src Hsrc]; [done|].
  eexists. rewrite UpdateEntry_reliable. apply transaction_Ok.
  erewrite bind_Ok; cycle 1.
  { rewrite scan_entry_id_reliable, Hq. reflexivity. }
  erewrite bind_Ok; cycle 1.
  { apply wrapf_Ok. unfold db.exec_update_entries.
    assert (db.set_clauses ∅ = []) as -> by reflexivity. simpl. rewrite Hu. reflexivity. }
  erewrite bind_Ok; cycle 1.
  { apply wrapf_Ok. reflexivity. }
  erewrite bind_Ok; cycle 1.
  { apply wrapf_Ok. unfold db.query_fts_source. simpl. rewrite Hsrc. reflexivity. }
  erewrite bind_Ok; cycle 1.
  { apply wrapf_Ok. unfold db.exec_insert_fts. simpl.
    rewrite decide_False; [reflexivity|]. apply (filter_ne_key_gone db.fts_rowid). }
  rewrite lookup_empty.
  erewrite bind_Ok; cycle 1.
  { reflexivity. }
  apply wrapf_Ok. reflexivity.
Qed.

End update_success.

Section create_consistent.
Context {eng : db.Engine}.

Lemma consistent_CreateEntry now e d e' d' :
  db.consistent d → db.CreateEntry now e d = (Ok e', d') → db.consistent d'.
Proof.
  intros [Hschema Hsync] (Hlen & Hslug & Hfts & Hst & Htags & ->)%CreateEntry_Ok.
  pose proof Htags as (He & _ & _ & _ & Hf & _)%setTags_frame. simpl in He, Hf.
  split.
  - eapply preserves_setTags; [|exact Htags]. by apply schema_ok_with_new_entry.
  - by apply (index_synced_snoc d d'
      (db.created_row now e (db.next_rowid (db.entries_seq d) (db.e_id <$> db.entries d)))).
Qed.

End create_consistent.

Section claim_C6.
Context {eng : db.Engine}.

(** C6. After a successful [update(slug, fields)] the entry is the same
    row with: every column named in [fields] holding the value that was
    passed, every column not named holding what it held, the version one
    higher, the updated timestamp set to now, the created timestamp, the id
    and the slug as they were; its tags are as they were when [fields] has
    no tags; and every other entry row is untouched. An update that names
    no field at all succeeds (and so bumps version and timestamp). *)
Theorem C6_partial_update (now slug : string) (fields : gmap string any) (d d' : db.DB) (r : db.EntryRow) :
  db.UpdateEntry now slug fields d = (Ok tt, d') →
  head (filter (λ e, db.e_slug e = slug) (db.entries d)) = Some r →
  (∃ r',
     head (filter (λ e, db.e_slug e = slug) (db.entries d')) = Some r'
     ∧ db.e_id r' = db.e_id r
     ∧ db.e_slug r' = db.e_slug r
     ∧ (∀ col, col ∈ db.columns →
          match fields !! col with
          | Some v => db.bind v = Ok (db.SqlText (db.column col r'))
          | None => db.column col r' = db.column col r
          end)
     ∧ (∀ col s, col ∈ db.columns → fields !! col = Some (VString s) → db.column col r' = s)
     ∧ db.e_version r' = db.e_version r + 1
     ∧ db.e_updated_at r' = now
     ∧ db.e_created_at r' = db.e_created_at r)
  ∧ (fields !! "tags" = None →
     db.getTagsForEntry d' (db.e_id r) = db.getTagsForEntry d (db.e_id r))
  ∧ (∀ x, db.e_id x ≠ db.e_id r → x ∈ db.entries d' ↔ x ∈ db.entries d)
  ∧ (db.schema_ok d → ∃ d0, db.UpdateEntry now slug ∅ d = (Ok tt, d0)).
Proof.
  intros (id & svs & rows & src & d5 & Hq & Hb & Hu & Hsrc & Htags & ->)%UpdateEntry_Ok Hr.
  assert (id = db.e_id r) as ->.
  { unfold db.query_entry_id in Hq. rewrite Hr in Hq. by injection Hq. }
  pose proof Hu as [Hrel _]%update_rows_inv.
  assert (db.entries d5 = rows) as He5.
  { destruct (fields !! "tags") as [v|]; [|by subst].
    by apply setTags_frame in Htags as (-> & _). }
  destruct (rows_updated_head db.e_slug slug now (db.e_id r) svs (db.entries d) rows r)
    as (r' & Hr' & Hupd); [|done..|].
  { intros a b Hab. by apply row_updated_fixed in Hab as [_ ?]. }
  unfold db.row_updated in Hupd. rewrite decide_True in Hupd by done.
  apply updated_row_inv in Hupd as (U1 & U2 & U3 & U4 & U5 & U6 & U7).
  assert (∀ col, col ∈ db.columns →
            match fields !! col with
            | Some v => db.bind v = Ok (db.SqlText (db.column col r'))
            | None => db.column col r' = db.column col r
            end) as Hcols.
  { intros col Hcol. rewrite (U7 col Hcol).
    by apply (assigned_fields fields svs col (db.column col r) Hb U6). }
  split_and!.
  - exists r'. simpl. rewrite He5. split_and!; try done.
    intros col s Hcol Hs. specialize (Hcols col Hcol). rewrite Hs in Hcols. simpl in Hcols.
    by injection Hcols.
  - intros Hnone. rewrite Hnone in Htags. by subst d5.
  - intros x Hx. simpl. rewrite He5.
    by apply (rows_updated_other now (db.e_id r) svs (db.entries d) rows).
  - intros Hok. apply UpdateEntry_noop_succeeds; [done|].
    apply head_filter_Some in Hr as [Hin <-]. by apply list_elem_of_fmap_2.
Qed.

End claim_C6.

Section tag_list_facts.

(** The names the type switch on [fields["tags"]] keeps: the strings of a
    [[]string], the string members of a [[]any], nothing of anything
    else. *)
Lemma tag_list_elem (v : any) (t : string) :
  t ∈ items (db.tag_list v)
  ↔ match v with
    | VStrings l => t ∈ l
    | VSlice l => VString t ∈ l
    | _ => False
    end.
Proof.
  destruct v as [| | | | |l|l|]; simpl; try (split; [by intros ?%elem_of_nil|done]); [done|].
  assert (∀ acc : slice string,
            t ∈ items (foldl (λ tagList x, match x with
                                           | VString s => go_append tagList s
                                           | _ => tagList
                                           end) acc l)
            ↔ t ∈ items acc ∨ VString t ∈ l) as H.
  { induction l as [|x l IH]; intros acc; simpl.
    - split; [by left|]. by intros [?|?%elem_of_nil].
    - rewrite IH, elem_of_cons. destruct x; simpl;
        try (split; [intros [?|?]; [by left|by right; right]
                    |intros [?|[?|?]]; [by left|done|by right]]).
      rewrite elem_of_app, list_elem_of_singleton.
      split.
      + intros [[?| ->]|?]; [by left|by right; left|by right; right].
      + intros [?|[Hx|?]]; [by left; left|injection Hx as ->; by left; right|by right]. }
  rewrite H. simpl. split; [by intros [?%elem_of_nil|?]|by right].
Qed.

End tag_list_facts.

Section claim_C7.
Context {eng : db.Engine} {io : db.Storage}.

(** C7. [setTags] on an entry that exists fails only when the storage
    fails one of its statements, whatever names it is given. When it
    returns without error the entry's tags are exactly the non-blank
    trimmed names that were passed (so the associations it had are gone
    and blank names are dropped), no name twice; every such name has a tag
    row, and the tag rows that existed are still there; the associations
    of other entries are untouched; and applying the same names again
    leaves every table as it is (only the counter of tag ids moves on).
    It runs inside the transaction of the entry mutation: an update that
    fails, at whichever statement, changes nothing, a create that fails
    before its commit changes nothing; a created entry has exactly the
    non-blank trimmed names it was given, an update whose fields carry
    tags leaves the entry with exactly the non-blank trimmed strings of
    that value, an update whose fields carry none leaves its tags as they
    were. *)
Theorem C7_replace_tags (id : Z) (ts : slice string) (d : db.DB) :
  db.schema_ok d → id ∈ db.e_id <$> db.entries d →
  (∃ d', db.setTags (io := db.reliable) id ts d = Ok (tt, d'))
  ∧ (∀ d',
       db.setTags id ts d = Ok (tt, d') →
       (∀ name, name ∈ items (db.getTagsForEntry d' id) ↔
                name ≠ "" ∧ ∃ t, t ∈ items ts ∧ db.TrimSpace t = name)
       ∧ NoDup (items (db.getTagsForEntry d' id))
       ∧ NoDup (filter (λ et, db.et_entry_id et = id) (db.entry_tags d'))
       ∧ (∀ t, t ∈ items ts → db.TrimSpace t ≠ "" → db.TrimSpace t ∈ db.t_name <$> db.tags d')
       ∧ (∀ t, t ∈ db.tags d → t ∈ db.tags d')
       ∧ filter (λ et, db.et_entry_id et ≠ id) (db.entry_tags d')
         = filter (λ et, db.et_entry_id et ≠ id) (db.entry_tags d)
       ∧ (∃ d'', db.setTags (io := db.reliable) id ts d' = Ok (tt, d'') ∧ db.same_rows d' d'')
       ∧ db.schema_ok d')
  ∧ (∀ now e err d1, db.CreateEntry now e d = (Err err, d1) →
       d1 = d ∨ db.fault db.SelectEntriesVersion d1 = Some err)
  ∧ (∀ now slug fields err d1, db.UpdateEntry now slug fields d = (Err err, d1) → d1 = d)
  ∧ (∀ now e e' d1,
       db.CreateEntry now e d = (Ok e', d1) →
       ∀ name, name ∈ items (db.getTagsForEntry d1 (db.ID e')) ↔
               name ≠ "" ∧ ∃ t, t ∈ items (db.Tags e) ∧ db.TrimSpace t = name)
  ∧ (∀ now slug fields d1,
       db.UpdateEntry now slug fields d = (Ok tt, d1) →
       db.query_entry_id slug d = Some id →
       match fields !! "tags" with
       | Some v =>
         ∀ name, name ∈ items (db.getTagsForEntry d1 id) ↔
                 name ≠ ""
                 ∧ ∃ t, db.TrimSpace t = name
                        ∧ match v with
                          | VStrings l => t ∈ l
                          | VSlice l => VString t ∈ l
                          | _ => False
                          end
       | None => db.getTagsForEntry d1 id = db.getTagsForEntry d id
       end).
Proof.
  intros Hok Hid. split_and!.
  - apply (setTags_ok id ts d Hid).
  - intros d' H%setTags_reliable.
    pose proof (preserves_setTags id ts d tt d' Hok H) as Hok'.
    pose proof (setTags_names id ts d d' Hok H) as Hnames.
    pose proof H as (_ & _ & _ & _ & _ & [added Hadd] & Hothers)%setTags_frame.
    split_and!; try done.
    + destruct (getTagsForEntry_canonical d' id Hok') as (l & -> & _ & Hnd). done.
    + apply NoDup_filter. apply Hok'.
    + intros t Ht Hne.
      assert (db.TrimSpace t ∈ items (db.getTagsForEntry d' id)) as Hin.
      { apply Hnames. split; [done|]. by exists t. }
      rewrite getTagsForEntry_eq in Hin. simpl in Hin.
      rewrite elem_of_merge_sort in Hin.
      apply query_tag_names_elem in Hin as (tr & _ & Htr & _ & _ & _ & <-).
      by apply list_elem_of_fmap_2.
    + intros t Ht. rewrite Hadd. apply elem_of_app. by left.
    + by apply (setTags_idempotent id ts d).
  - intros now e err d1 H. destruct (CreateEntry_cases now e d) as [[err0 Herr]|(d2 & Hrel & Hio)].
    + rewrite Herr in H. left. by injection H.
    + rewrite Hio in H. right.
      destruct (db.fault db.SelectEntriesVersion d2) as [err1|] eqn:Hf; [|done].
      by injection H as <- <-.
  - intros now slug fields err d1. apply UpdateEntry_rollback.
  - intros now e e' d1 (Hlen & Hslug & Hfts & Hst & Htags & ->)%CreateEntry_Ok_reliable%CreateEntry_Ok.
    cbn [db.ID].
    pose proof (schema_ok_with_new_entry now e d Hok Hslug Hlen Hst) as Hok1.
    by apply (setTags_names _ (db.Tags e) _ d1 Hok1).
  - intros now slug fields d1
      (id0 & svs & rows & src & d5 & Hq & Hb & Hu & Hsrc & Htags & ->)%UpdateEntry_Ok_reliable%UpdateEntry_Ok Hq'.
    rewrite Hq in Hq'. injection Hq' as ->.
    destruct (fields !! "tags") as [v|].
    + assert (db.schema_ok (db.with_updated_entry id rows src d)) as Hok4
        by (by eapply schema_ok_with_updated_entry).
      intros name.
      change (db.getTagsForEntry (db.bump_updates now id d5) id) with (db.getTagsForEntry d5 id).
      rewrite (setTags_names id (db.tag_list v) _ d5 Hok4 Htags name).
      split; intros [Hne (t & H1 & H2)]; (split; [done|]); exists t.
      * split; [done|]. by apply tag_list_elem.
      * split; [|done]. by apply tag_list_elem.
    + subst d5. reflexivity.
Qed.

End claim_C7.

Section update_row_facts.
Context {eng : db.Engine}.

(** The row a successful update leaves in place of the entry's: the
    columns named in [fields] hold the values passed, the others what
    they held. *)
Lemma UpdateEntry_row now slug fields d d' r :
  db.UpdateEntry now slug fields d = (Ok tt, d') →
  head (filter (λ e, db.e_slug e = slug) (db.entries d)) = Some r →
  ∃ r',
    head (filter (λ e, db.e_slug e = slug) (db.entries d')) = Some r'
    ∧ db.e_id r' = db.e_id r
    ∧ (∀ col, col ∈ db.columns →
         match fields !! col with
         | Some v => db.bind v = Ok (db.SqlText (db.column col r'))
         | None => db.column col r' = db.column col r
         end).
Proof.
  intros (id & svs & rows & src & d5 & Hq & Hb & Hu & Hsrc & Htags & ->)%UpdateEntry_Ok Hr.
  assert (id = db.e_id r) as ->.
  { unfold db.query_entry_id in Hq. rewrite Hr in Hq. by injection Hq. }
  pose proof Hu as [Hrel _]%update_rows_inv.
  assert (db.entries d5 = rows) as He5.
  { destruct (fields !! "tags") as [v|]; [|by subst].
    by apply setTags_frame in Htags as (-> & _). }
  destruct (rows_updated_head db.e_slug slug now (db.e_id r) svs (db.entries d) rows r)
    as (r' & Hr' & Hupd); [|done..|].
  { intros a b Hab. by apply row_updated_fixed in Hab as [_ ?]. }
  unfold db.row_updated in Hupd. rewrite decide_True in Hupd by done.
  apply updated_row_inv in Hupd as (U1 & U2 & U3 & U4 & U5 & U6 & U7).
  exists r'. simpl. rewrite He5. split_and!; try done.
  intros col Hcol. rewrite (U7 col Hcol).
  by apply (assigned_fields fields svs col (db.column col r) Hb U6).
Qed.

End update_row_facts.

Section claim_C1.
Context {eng : db.Engine} {io : db.Storage}.

(** C1. The full-text index mirrors the entries: the property holds in the
    fresh database and every successful create, update and delete keeps
    it, on every storage. After a create the index rows of the new handle
    are the one row with the title, description and content that were
    passed. After an update of the entry [r] with [fields] the entry's row
    [r'] holds, in each of title, description and content, the value
    passed when [fields] names the column and what [r] held when it does
    not, and the index rows of the handle are the one row with the title,
    description and content of [r']; so a query that does not match that
    new text (whether or not it matched the old) returns no hit for the
    entry, and a query that matches the new text and no other index row
    returns exactly that entry. After a delete the handle has no index
    row. *)
Theorem C1_index_mirrors_entries :
  db.consistent db.Open
  ∧ (∀ now e d e' d',
       db.consistent d → db.CreateEntry now e d = (Ok e', d') →
       db.consistent d'
       ∧ filter (λ f, db.fts_rowid f = db.ID e') (db.entries_fts d')
         = [db.mkFtsRow (db.ID e') (db.Title e) (db.Description e) (db.Content e)])
  ∧ (∀ now slug fields d d' r,
       db.consistent d → db.UpdateEntry now slug fields d = (Ok tt, d') →
       r ∈ db.entries d → db.e_slug r = slug →
       db.consistent d'
       ∧ ∃ r',
           r' ∈ db.entries d' ∧ db.e_id r' = db.e_id r ∧ db.e_slug r' = slug
           ∧ (∀ col, col ∈ ["title"; "description"; "content"] →
                match fields !! col with
                | Some v => db.bind v = Ok (db.SqlText (db.column col r'))
                | None => db.column col r' = db.column col r
                end)
           ∧ filter (λ f, db.fts_rowid f = db.e_id r) (db.entries_fts d')
             = [db.mkFtsRow (db.e_id r) (db.e_title r') (db.e_description r') (db.e_content r')]
           ∧ (∀ t q f limit,
                db.fts5_match q (db.index_row r') = false →
                Forall (λ e, db.ID e ≠ db.e_id r) (db.found (db.SearchEntries t q f limit d').1))
           ∧ (∀ t q limit,
                db.fts5_syntax_ok q = true → db.fts5_match q (db.index_row r') = true →
                (∀ f, f ∈ db.entries_fts d' → f ≠ db.index_row r' → db.fts5_match q f = false) →
                db.found (db.SearchEntries t q db.no_filter limit d').1
                = [db.listed_entry r' (db.getTagsForEntry d' (db.e_id r))
                     (db.fts5_snippet q (db.index_row r'))]))
  ∧ (∀ slug d d' r,
       db.consistent d →
       db.DeleteEntry slug d = (Ok tt, d') ∨ db.DeleteEntry_ctx slug d = (Ok tt, d') →
       r ∈ db.entries d → db.e_slug r = slug →
       db.consistent d'
       ∧ filter (λ f, db.fts_rowid f = db.e_id r) (db.entries_fts d') = []).
Proof.
  split_and!.
  - split; [apply schema_ok_Open|apply index_synced_Open].
  - intros now e d e' d' Hc H%CreateEntry_Ok_reliable.
    pose proof (consistent_CreateEntry now e d e' d' Hc H) as Hc'. split; [done|].
    pose proof H as (_ & _ & _ & _ & Htags & ->)%CreateEntry_Ok. cbn [db.ID].
    apply setTags_frame in Htags as (He & _).
    assert (db.created_row now e (db.next_rowid (db.entries_seq d) (db.e_id <$> db.entries d))
            ∈ db.entries d') as Hin.
    { rewrite He. simpl. apply elem_of_app. right. left. }
    apply (index_rows_of_entry d' _ Hc' Hin).
  - intros now slug fields d d' r Hc H%UpdateEntry_Ok_reliable Hr Hslug.
    pose proof (consistent_UpdateEntry now slug fields d d' Hc H) as Hc'.
    split; [done|].
    assert (head (filter (λ e, db.e_slug e = slug) (db.entries d)) = Some r) as Hhead.
    { destruct Hc as [(_ & Hsl & _) _]. subst slug. by rewrite (slug_selects d r Hsl Hr). }
    destruct (UpdateEntry_row now slug fields d d' r H Hhead) as (r' & Hr' & Hid & Hcols).
    apply head_filter_Some in Hr' as [Hin' Hslug'].
    exists r'. split_and!; try done.
    + intros col Hcol. apply Hcols. revert Hcol.
      unfold db.columns. rewrite !elem_of_cons. tauto.
    + rewrite <- Hid. apply (index_rows_of_entry d' r' Hc' Hin').
    + intros t q f limit. rewrite <- Hid. by apply search_miss.
    + intros t q limit. rewrite <- Hid. by apply search_only_hit.
  - intros slug d d' r Hc H Hr Hslug.
    assert (db.DeleteEntry (io := db.reliable) slug d = (Ok tt, d')) as H'.
    { destruct H as [H|H]; [by apply DeleteEntry_Ok_reliable|by apply DeleteEntry_ctx_Ok]. }
    pose proof (consistent_DeleteEntry slug d d' Hc H') as Hc'. split; [done|].
    assert (db.query_entry_id slug d = Some (db.e_id r)) as Hq.
    { destruct Hc as [(_ & Hsl & _) _]. unfold db.query_entry_id. subst slug.
      by rewrite (slug_selects d r Hsl Hr). }
    rewrite (DeleteEntry_found _ _ _ Hq) in H'. injection H' as <-. simpl.
    apply (filter_key_absent db.fts_rowid), (filter_ne_key_gone db.fts_rowid).
Qed.

End claim_C1.

Section limit_facts.
Context {eng : db.Engine}.

Lemma SearchEntries_len now q f limit d res d' :
  db.SearchEntries now q f limit d = (Ok res, d') →
  len res = Z.min (db.effective_limit 10 limit) (Z.of_nat (length (db.search_hits q f d))).
Proof.
  intros H. pose proof (SearchEntries_found now q f limit d) as Hf. rewrite H in Hf.
  simpl in Hf. unfold db.SearchEntries in H. destruct (db.fts5_syntax_ok q); [|done].
  unfold len. rewrite Hf, length_fmap, length_take, length_merge_sort.
  pose proof (effective_limit_range 10 limit ltac:(lia)). lia.
Qed.

Lemma GetEntriesByContext_len now f limit d res d' :
  db.GetEntriesByContext now f limit d = (Ok res, d') →
  len res = Z.min (db.effective_limit 20 limit) (Z.of_nat (length (db.context_rows f d))).
Proof.
  intros H. destruct (decide (db.context_tables f > db.sqlite_max_join)) as [Hmany|Hfits].
  { by rewrite GetEntriesByContext_refused in H. }
  pose proof (GetEntriesByContext_found now f limit d ltac:(lia)) as Hf. rewrite H in Hf.
  simpl in Hf. unfold len. rewrite Hf, length_fmap, length_take, length_merge_sort.
  pose proof (effective_limit_range 20 limit ltac:(lia)). lia.
Qed.

End limit_facts.

Section claim_C5.
Context {eng : db.Engine}.

(** C5, as the code has it. A limit within [1, 50] is used as given; any
    other limit (zero, negative, above 50) is replaced by the default, 10
    for search and 20 for getByContext, and the tool layer passes that same
    default when the caller gives no limit. The limit in effect therefore
    lies in [1, 50], and a call returns the first [limit] rows of its
    result: as many entries as the smaller of the limit in effect and the
    number of matching rows. *)
Theorem C5_limit_default_not_clamp (now q : string) (f : db.Filter) (limit : Z)
    (args : gmap string any) (d : db.DB) :
  (1 ≤ limit ≤ 50 → db.effective_limit 10 limit = limit ∧ db.effective_limit 20 limit = limit)
  ∧ (¬ (1 ≤ limit ≤ 50) → db.effective_limit 10 limit = 10 ∧ db.effective_limit 20 limit = 20)
  ∧ (args !! "limit" = None →
     mcp.intVal args "limit" 10 = 10 ∧ mcp.intVal args "limit" 20 = 20)
  ∧ 1 ≤ db.effective_limit 10 limit ≤ 50
  ∧ 1 ≤ db.effective_limit 20 limit ≤ 50
  ∧ (∀ res d', db.SearchEntries now q f limit d = (Ok res, d') →
       len res = Z.min (db.effective_limit 10 limit) (Z.of_nat (length (db.search_hits q f d))))
  ∧ (∀ res d', db.GetEntriesByContext now f limit d = (Ok res, d') →
       len res = Z.min (db.effective_limit 20 limit) (Z.of_nat (length (db.context_rows f d)))).
Proof.
  pose proof (effective_limit_range 10 limit ltac:(lia)) as R10.
  pose proof (effective_limit_range 20 limit ltac:(lia)) as R20.
  split_and!; try lia.
  - intros ?. unfold db.effective_limit. rewrite !decide_False by lia. done.
  - intros ?. unfold db.effective_limit. rewrite !decide_True by lia. done.
  - intros Hnone. unfold mcp.intVal. by rewrite Hnone.
  - intros res d'. apply SearchEntries_len.
  - intros res d'. apply GetEntriesByContext_len.
Qed.

End claim_C5.

(** C5, as the claim words it, fails: with eleven matching entries a search
    asking for 100 returns 10 of them, where a limit clamped to 50 would
    have returned all eleven (as asking for 50 does); and a negative limit
    becomes 10, not 1. *)
Lemma C5_limit_is_not_clamped :
  db.spec_limit 10 (Some 100) = 50
  ∧ db.effective_limit 10 100 = 10
  ∧ db.spec_limit 10 (Some (-3)) = 1
  ∧ db.effective_limit 10 (-3) = 10
  ∧ length (db.search_hits (eng := fixture.engine) "go" db.no_filter fixture.eleven) = 11%nat
  ∧ length (db.found (db.SearchEntries (eng := fixture.engine) "now" "go" db.no_filter 100 fixture.eleven).1) = 10%nat
  ∧ length (db.found (db.SearchEntries (eng := fixture.engine) "now" "go" db.no_filter 50 fixture.eleven).1) = 11%nat
  ∧ db.spec_limit 20 (Some 100) = 50
  ∧ db.effective_limit 20 100 = 20.
Proof. vm_compute. repeat split. Qed.

(** [json.Unmarshal] on request parameters: a member finds its field under
    any case of the name; of two members for one field the later one
    stays; [null] leaves a string as it is; a value of the wrong type is
    an error; and a member written [Name] reaches the tool it names. *)
Example unmarshal_matches_fields_by_folded_name :
  mcp.unmarshal_tools_call (Some (VMap [("Name", VString "get_entry")])) = Ok ("get_entry", ∅)
  ∧ mcp.unmarshal_tools_call
      (Some (VMap [("name", VString "get_entry"); ("Name", VString "bogus")])) = Ok ("bogus", ∅)
  ∧ mcp.unmarshal_tools_call
      (Some (VMap [("name", VString "get_entry"); ("NAME", VNil)])) = Ok ("get_entry", ∅)
  ∧ mcp.unmarshal_tools_call
      (Some (VMap [("arguments", VMap [("slug", VString "a")]);
                   ("Arguments", VMap [("limit", VInt 3)])]))
    = Ok ("", {[ "slug" := VString "a"; "limit" := VInt 3 ]})
  ∧ mcp.unmarshal_tools_call (Some (VMap [("name", VInt 3); ("name", VString "get_entry")]))
    = Err mcp.unmarshal_error
  ∧ mcp.unmarshal_tools_call (Some (VMap [("nam", VString "get_entry")])) = Ok ("", ∅)
  ∧ mcp.unmarshal_string "uri" (Some (VMap [("URI", VString "mcpedia://entries/go-err")]))
    = Ok "mcpedia://entries/go-err"
  ∧ db.entries
      (mcp.DB (mcp.dispatch (eng := fixture.engine) (codec := fixture.codec) "now" "sid"
                 (fixture.call "tools/call"
                    [("Name", VString "delete_entry");
                     ("Arguments", VMap [("slug", VString "go-err")])])
                 (fixture.server fixture.one)).2) = [].
Proof. vm_compute. repeat split. Qed.

Section claim_C8.
Context {eng : db.Engine} {codec : mcp.Codec}.

Lemma not_elem_of_cons_inv {A} (x y : A) (l : list A) : x ∉ y :: l → x ≠ y ∧ x ∉ l.
Proof. intros H. split; intros ?; apply H; [subst; left|by right]. Qed.

(** C8, as the code has it. A request whose method is not one of the nine
    of the method table is answered with the protocol error -32601 "Method
    not found"; a tools/call naming none of the eight tools and a
    prompts/get naming none of the three prompts are answered with the
    protocol error -32602 ("Unknown tool: ...", "Unknown prompt: ..."), an
    [error] member and no result. *)
Theorem C8_unknown_names (now sessionID : string) (req : mcp.jsonrpcRequest) (s : mcp.Server) :
  (mcp.req_Method req ∉ mcp.methods →
     mcp.dispatch now sessionID req s
     = (mcp.Reply (mcp.rpcErr (mcp.req_ID req) (-32601)
                     ("Method not found: " +:+ mcp.req_Method req)), s))
  ∧ (∀ name arguments,
       mcp.unmarshal_tools_call (mcp.req_Params req) = Ok (name, arguments) →
       name ∉ mcp.tool_names →
       mcp.handleToolsCall now req s
       = (mcp.rpcErr (mcp.req_ID req) (-32602) ("Unknown tool: " +:+ name), s)
       ∧ mcp.is_tool_failure (mcp.handleToolsCall now req s).1 = false
       ∧ mcp.is_protocol_error (-32602) (mcp.handleToolsCall now req s).1 = true)
  ∧ (∀ name arguments,
       mcp.unmarshal_prompts_get (mcp.req_Params req) = Ok (name, arguments) →
       name ∉ mcp.prompt_names →
       mcp.handlePromptsGet now req s
       = (mcp.rpcErr (mcp.req_ID req) (-32602) ("Unknown prompt: " +:+ name), s)
       ∧ mcp.is_tool_failure (mcp.handlePromptsGet now req s).1 = false
       ∧ mcp.is_protocol_error (-32602) (mcp.handlePromptsGet now req s).1 = true).
Proof.
  split_and!.
  - unfold mcp.methods. intros H.
    repeat (apply not_elem_of_cons_inv in H as [? H]).
    unfold mcp.dispatch. cbv zeta. by rewrite !decide_False by done.
  - intros name arguments Hp H. unfold mcp.tool_names in H.
    repeat (apply not_elem_of_cons_inv in H as [? H]).
    unfold mcp.handleToolsCall. rewrite Hp. by rewrite !decide_False by done.
  - intros name arguments Hp H. unfold mcp.prompt_names in H.
    repeat (apply not_elem_of_cons_inv in H as [? H]).
    unfold mcp.handlePromptsGet. rewrite Hp. by rewrite !decide_False by done.
Qed.

End claim_C8.

(** C8, as the claim words it, fails: a tools/call naming an unknown tool
    and a prompts/get naming an unknown prompt come back with an [error]
    member (code -32602) and no result, not as a result whose [isError] is
    true. *)
Lemma C8_unknown_tool_is_protocol_error :
  let s := fixture.server db.Open in
  let tool := fixture.call "tools/call" [("name", VString "bogus_tool"); ("arguments", VMap [])] in
  let prompt := fixture.call "prompts/get" [("name", VString "nonexistent"); ("arguments", VMap [])] in
  (mcp.dispatch (eng := fixture.engine) (codec := fixture.codec) "now" "sid" tool s).1
  = mcp.Reply (mcp.rpcErr (VInt 1) (-32602) "Unknown tool: bogus_tool")
  ∧ mcp.is_tool_failure (mcp.rpcErr (VInt 1) (-32602) "Unknown tool: bogus_tool") = false
  ∧ (mcp.dispatch (eng := fixture.engine) (codec := fixture.codec) "now" "sid" prompt s).1
    = mcp.Reply (mcp.rpcErr (VInt 1) (-32602) "Unknown prompt: nonexistent")
  ∧ mcp.is_tool_failure (mcp.rpcErr (VInt 1) (-32602) "Unknown prompt: nonexistent") = false
  ∧ mcp.is_tool_failure
      (mcp.toolGetEntry (codec := fixture.codec) "now" (VInt 1) ∅ s).1 = true
  ∧ (mcp.dispatch (eng := fixture.engine) (codec := fixture.codec) "now" "sid"
       (fixture.call "nonexistent/method" []) s).1
    = mcp.Reply (mcp.rpcErr (VInt 1) (-32601) "Method not found: nonexistent/method").
Proof. vm_compute. repeat split. Qed.

(** C9 on the code: reading the guide's URI is refused as an invalid
    resource URI; reading it under the entries prefix while no entry has
    the slug is refused with "entry not found"; and once an entry with the
    reserved slug exists, the general listing shows it like any other. *)
Lemma C9_guide_is_not_served :
  let s := fixture.server db.Open in
  let guide := fixture.created "now" (fixture.entry "how-to-use" "How-To" "Guide" []) db.Open in
  (mcp.handleResourcesRead "now" (fixture.call "resources/read" [("uri", VString "mcpedia://how-to-use")]) s).1
  = mcp.rpcErr (VInt 1) (-32002) "Invalid resource URI: mcpedia://how-to-use"
  ∧ (mcp.handleResourcesRead "now"
       (fixture.call "resources/read" [("uri", VString "mcpedia://entries/how-to-use")]) s).1
    = mcp.rpcErr (VInt 1) (-32002) "entry not found: how-to-use"
  ∧ (mcp.handleResourcesRead "now"
       (fixture.call "resources/read" [("uri", VString "mcpedia://how-to-use")])
       (fixture.server guide)).1
    = mcp.rpcErr (VInt 1) (-32002) "Invalid resource URI: mcpedia://how-to-use"
  ∧ mcp.handleResourcesList (codec := fixture.codec) (fixture.call "resources/list" [])
      (fixture.server guide)
    = mcp.Reply (mcp.rpcResult (VInt 1) (VMap [("resources", VSlice [
        VMap [("uri", VString "mcpedia://entries/how-to-use"); ("name", VString "how-to-use");
              ("title", VString "How-To"); ("description", VString "");
              ("mimeType", VString "text/markdown")]])])).
Proof. vm_compute. repeat split. Qed.

Section lock_blind_facts.
Context {eng : db.Engine}.

Lemma lock_blind_ret {A} (a : A) : db.lock_blind (mret a).
Proof. by intros d l. Qed.

Lemma lock_blind_bind {A B} (m : db.Tx A) (f : A → db.Tx B) :
  db.lock_blind m → (∀ a, db.lock_blind (f a)) → db.lock_blind (m ≫= f).
Proof.
  intros Hm Hf d l. unfold mbind, db.Tx_bind. rewrite Hm.
  destruct (m d) as [[a d1]|e]; [apply Hf|done].
Qed.

Lemma lock_blind_wrapf {A} prefix (m : db.Tx A) : db.lock_blind m → db.lock_blind (db.wrapf prefix m).
Proof. intros Hm d l. unfold db.wrapf. rewrite Hm. by destruct (m d) as [[a d1]|e]. Qed.

Lemma lock_blind_transaction {A} (body : db.Tx A) d l :
  db.lock_blind body →
  db.transaction body (db.with_lock d l)
  = ((db.transaction body d).1, db.with_lock (db.transaction body d).2 l).
Proof. intros Hm. unfold db.transaction. rewrite Hm. by destruct (body d) as [[a d1]|e]. Qed.

Ltac statement_is_lock_blind :=
  intros d l; cbv beta delta [db.exec_insert_entries db.exec_insert_fts db.exec_delete_fts
    db.exec_insert_stats db.exec_delete_entry_tags db.exec_insert_or_ignore_tags db.query_tag_id
    db.exec_insert_or_ignore_entry_tags db.scan_entry_id db.query_entry_id db.exec_update_entries
    db.query_fts_source db.exec_bump_updates db.exec_delete_entries]; simpl;
  repeat case_decide; try done;
  repeat (match goal with |- context [match ?x with _ => _ end] => destruct x end; try done).

Lemma lock_blind_insert_entries now slug title description content kind language domain project :
  db.lock_blind (db.exec_insert_entries now slug title description content kind language domain project).
Proof. statement_is_lock_blind. Qed.

Lemma lock_blind_insert_fts rowid title description content :
  db.lock_blind (db.exec_insert_fts rowid title description content).
Proof. statement_is_lock_blind. Qed.

Lemma lock_blind_delete_fts rowid : db.lock_blind (db.exec_delete_fts rowid).
Proof. statement_is_lock_blind. Qed.

Lemma lock_blind_insert_stats id : db.lock_blind (db.exec_insert_stats id).
Proof. statement_is_lock_blind. Qed.

Lemma lock_blind_delete_entry_tags id : db.lock_blind (db.exec_delete_entry_tags id).
Proof. statement_is_lock_blind. Qed.

Lemma lock_blind_insert_or_ignore_tags name : db.lock_blind (db.exec_insert_or_ignore_tags name).
Proof. statement_is_lock_blind. Qed.

Lemma lock_blind_query_tag_id name : db.lock_blind (db.query_tag_id name).
Proof. statement_is_lock_blind. Qed.

Lemma lock_blind_insert_or_ignore_entry_tags id tag :
  db.lock_blind (db.exec_insert_or_ignore_entry_tags id tag).
Proof. statement_is_lock_blind. Qed.

Lemma lock_blind_scan_entry_id slug : db.lock_blind (db.scan_entry_id slug).
Proof.
  intros d l. rewrite !scan_entry_id_reliable.
  change (db.query_entry_id slug (db.with_lock d l)) with (db.query_entry_id slug d).
  by destruct (db.query_entry_id slug d).
Qed.

Lemma lock_blind_update_entries now id sets : db.lock_blind (db.exec_update_entries now id sets).
Proof. statement_is_lock_blind. Qed.

Lemma lock_blind_query_fts_source id : db.lock_blind (db.query_fts_source id).
Proof. statement_is_lock_blind. Qed.

Lemma lock_blind_bump_updates now id : db.lock_blind (db.exec_bump_updates now id).
Proof. statement_is_lock_blind. Qed.

Lemma lock_blind_delete_entries id : db.lock_blind (db.exec_delete_entries id).
Proof. statement_is_lock_blind. Qed.

Lemma lock_blind_setTags_loop id ts : db.lock_blind (db.setTags_loop id ts).
Proof.
  induction ts as [|t ts IH]; simpl; [apply lock_blind_ret|].
  case_decide; [done|].
  apply lock_blind_bind; [apply lock_blind_insert_or_ignore_tags|intros _].
  apply lock_blind_bind; [apply lock_blind_query_tag_id|intros tag].
  apply lock_blind_bind; [apply lock_blind_insert_or_ignore_entry_tags|by intros _].
Qed.

Lemma lock_blind_setTags id ts : db.lock_blind (db.setTags id ts).
Proof.
  apply lock_blind_bind; [apply lock_blind_delete_entry_tags|intros _].
  apply lock_blind_setTags_loop.
Qed.

(** The Repository's writes do not look at the lock row. *)
Lemma CreateEntry_with_lock now e d l :
  db.CreateEntry now e (db.with_lock d l)
  = ((db.CreateEntry now e d).1, db.with_lock (db.CreateEntry now e d).2 l).
Proof.
  rewrite !CreateEntry_reliable. rewrite lock_blind_transaction.
  - destruct (db.transaction _ d) as [[id|err] d1]; [|done]. cbn [fst snd db.entries db.with_lock].
    by destruct (head _).
  - apply lock_blind_bind; [apply lock_blind_wrapf, lock_blind_insert_entries|intros id].
    apply lock_blind_bind; [apply lock_blind_wrapf, lock_blind_insert_fts|intros _].
    apply lock_blind_bind; [apply lock_blind_wrapf, lock_blind_insert_stats|intros _].
    apply lock_blind_bind; [apply lock_blind_wrapf, lock_blind_setTags|intros _].
    apply lock_blind_ret.
Qed.

Lemma UpdateEntry_with_lock now slug fields d l :
  db.UpdateEntry now slug fields (db.with_lock d l)
  = ((db.UpdateEntry now slug fields d).1, db.with_lock (db.UpdateEntry now slug fields d).2 l).
Proof.
  rewrite !UpdateEntry_reliable. apply lock_blind_transaction.
  apply lock_blind_bind; [apply lock_blind_scan_entry_id|intros id].
  apply lock_blind_bind; [apply lock_blind_wrapf, lock_blind_update_entries|intros _].
  apply lock_blind_bind; [apply lock_blind_wrapf, lock_blind_delete_fts|intros _].
  apply lock_blind_bind; [apply lock_blind_wrapf, lock_blind_query_fts_source|intros src].
  apply lock_blind_bind; [apply lock_blind_wrapf, lock_blind_insert_fts|intros _].
  apply lock_blind_bind.
  - destruct (fields !! "tags"); [apply lock_blind_wrapf, lock_blind_setTags|apply lock_blind_ret].
  - intros _. apply lock_blind_wrapf, lock_blind_bump_updates.
Qed.

Lemma DeleteEntry_with_lock slug d l :
  db.DeleteEntry slug (db.with_lock d l)
  = ((db.DeleteEntry slug d).1, db.with_lock (db.DeleteEntry slug d).2 l).
Proof.
  destruct (db.query_entry_id slug d) as [id|] eqn:E.
  - rewrite (DeleteEntry_found slug d id E), (DeleteEntry_found slug (db.with_lock d l) id); done.
  - pose proof E as Hn%query_entry_id_None.
    rewrite (DeleteEntry_not_found slug d Hn), (DeleteEntry_not_found slug (db.with_lock d l)); done.
Qed.

End lock_blind_facts.

Section claim_C4.
Context {eng : db.Engine} {codec : mcp.Codec}.


(** C4, as the code has it. Locking with an empty secret fails, and so
    does locking a locked database. While the lock is active the three
    write tools (create_entry, update_entry, delete_entry) answer with the
    error "database is locked. Write operations are disabled" and change
    nothing, while get, list, search, getByContext, getStats and the tag
    listing answer exactly as they would without the lock. Unlocking with a
    secret whose hash differs fails with "invalid token", unlocking an
    unlocked database fails with "database is not locked", and unlocking
    with the secret that locked clears the lock, after which the write
    tools pass the gate again (a delete of an existing slug succeeds). The
    gate is the tools' alone: the Repository's create, update and delete
    never look at the lock row, and do under a lock what they do without. *)
Theorem C4_write_lock (now : string) (id : any) (args : gmap string any)
    (secret wrong : string) (s locked : mcp.Server) :
  secret ≠ "" → wrong ≠ "" → db.hashToken wrong ≠ db.hashToken secret →
  db.IsLocked (mcp.DB s) = false → db.IsLocked (mcp.DB locked) = true →
  let d := mcp.DB s in
  let d1 := (db.Lock secret d).2 in
  let d2 := (db.Unlock secret d1).2 in
  let denied := mcp.toolError id "database is locked. Write operations are disabled" in
  db.Lock "" d = (Err (Errorf "token must not be empty"), d)
  ∧ (db.Lock secret d).1 = Ok tt
  ∧ db.IsLocked d1 = true
  ∧ db.Lock secret (mcp.DB locked) = (Err (Errorf "database is already locked"), mcp.DB locked)
  ∧ mcp.toolCreateEntry now id args locked = (denied, locked)
  ∧ mcp.toolUpdateEntry now id args locked = (denied, locked)
  ∧ mcp.toolDeleteEntry id args locked = (denied, locked)
  ∧ (∀ l,
       (mcp.toolGetEntry now id args (mcp.with_DB s (db.with_lock d l))).1
       = (mcp.toolGetEntry now id args s).1
       ∧ mcp.toolListEntries id args (mcp.with_DB s (db.with_lock d l))
         = mcp.toolListEntries id args s
       ∧ (mcp.toolSearchEntries now id args (mcp.with_DB s (db.with_lock d l))).1
         = (mcp.toolSearchEntries now id args s).1
       ∧ (mcp.toolGetEntriesByContext now id args (mcp.with_DB s (db.with_lock d l))).1
         = (mcp.toolGetEntriesByContext now id args s).1
       ∧ mcp.toolListTags id (mcp.with_DB s (db.with_lock d l)) = mcp.toolListTags id s
       ∧ ∀ slug, db.GetStats slug (db.with_lock d l) = db.GetStats slug d)
  ∧ db.Unlock wrong d1 = (Err (Errorf "invalid token"), d1)
  ∧ db.Unlock secret d = (Err (Errorf "database is not locked"), d)
  ∧ (db.Unlock secret d1).1 = Ok tt
  ∧ d2 = db.with_lock d (db.mkLockRow 0 "")
  ∧ db.IsLocked d2 = false
  ∧ mcp.checkLock (mcp.with_DB s d2) = None
  ∧ (mcp.str args "slug" ∈ db.e_slug <$> db.entries d → mcp.str args "slug" ≠ "" →
     (mcp.toolDeleteEntry id args (mcp.with_DB s d2)).1
     = mcp.toolResult id (mcp.PStrings [("deleted", mcp.str args "slug")]))
  ∧ (∀ l e slug fields,
       db.CreateEntry now e (db.with_lock d l)
       = ((db.CreateEntry now e d).1, db.with_lock (db.CreateEntry now e d).2 l)
       ∧ db.UpdateEntry now slug fields (db.with_lock d l)
         = ((db.UpdateEntry now slug fields d).1,
            db.with_lock (db.UpdateEntry now slug fields d).2 l)
       ∧ db.DeleteEntry slug (db.with_lock d l)
         = ((db.DeleteEntry slug d).1, db.with_lock (db.DeleteEntry slug d).2 l)).
Proof.
  intros Hsecret Hwrong Hhash Hunlocked Hlocked d d1 d2 denied.
  assert (d1 = db.with_lock d (db.mkLockRow 1 (db.hashToken secret))) as Hd1.
  { unfold d1. by rewrite (Lock_unlocked secret d Hsecret Hunlocked). }
  assert (db.IsLocked d1 = true) as Hl1 by (by rewrite Hd1).
  assert (db.Unlock secret d1 = (Ok tt, db.with_lock d (db.mkLockRow 0 ""))) as Hu.
  { rewrite (Unlock_match secret d1 Hsecret Hl1); by rewrite Hd1. }
  assert (d2 = db.with_lock d (db.mkLockRow 0 "")) as Hd2 by (unfold d2; by rewrite Hu).
  split_and!.
  - apply Lock_empty.
  - by rewrite (Lock_unlocked secret d Hsecret Hunlocked).
  - done.
  - by apply Lock_locked.
  - unfold mcp.toolCreateEntry. by rewrite (checkLock_locked locked Hlocked).
  - unfold mcp.toolUpdateEntry. by rewrite (checkLock_locked locked Hlocked).
  - unfold mcp.toolDeleteEntry. by rewrite (checkLock_locked locked Hlocked).
  - intros l. split_and!.
    + unfold mcp.toolGetEntry. case_decide; [done|]. cbv zeta. cbn [mcp.DB mcp.with_DB].
      rewrite GetEntry_with_lock. fold d. by destruct (db.GetEntry _ _ d) as [[?|?] ?].
    + done.
    + unfold mcp.toolSearchEntries. case_decide; [done|]. cbv zeta. cbn [mcp.DB mcp.with_DB].
      rewrite SearchEntries_with_lock. fold d.
      by destruct (db.SearchEntries _ _ _ _ d) as [[?|?] ?].
    + unfold mcp.toolGetEntriesByContext. cbv zeta. cbn [mcp.DB mcp.with_DB].
      rewrite GetEntriesByContext_with_lock. fold d.
      by destruct (db.GetEntriesByContext _ _ _ d) as [[?|?] ?].
    + done.
    + done.
  - apply Unlock_mismatch; [done|done|]. rewrite Hd1. simpl. congruence.
  - by apply Unlock_not_locked.
  - by rewrite Hu.
  - done.
  - by rewrite Hd2.
  - apply checkLock_unlocked. by rewrite Hd2.
  - intros Hslug Hne. unfold mcp.toolDeleteEntry.
    rewrite checkLock_unlocked by (by rewrite Hd2).
    rewrite decide_False by done. simpl. rewrite Hd2, DeleteEntry_with_lock.
    destruct (query_entry_id_is_Some _ d Hslug) as [eid Hq].
    by rewrite (DeleteEntry_found _ d eid Hq).
  - intros l e slug fields. split_and!.
    + apply CreateEntry_with_lock.
    + apply UpdateEntry_with_lock.
    + apply DeleteEntry_with_lock.
Qed.

End claim_C4.

(** ** The theorems at concrete databases *)

Ltac by_evaluation := apply (bool_decide_unpack _); vm_compute; exact I.

(** C4, as the claim words it, fails below the tools: with the lock
    active the Repository's own create, update and delete still succeed
    (the command line's add and edit call them directly); it is the
    create_entry, update_entry and delete_entry tools that refuse. *)
Lemma C4_repository_writes_ignore_lock :
  let locked := (db.Lock (eng := fixture.engine) "secret" fixture.one).2 in
  db.IsLocked locked = true
  ∧ is_ok (db.CreateEntry (eng := fixture.engine) "2026-01-02 00:00:00"
             (fixture.entry "py-err" "Python errors" "raise exceptions" ["errors"]) locked).1 = true
  ∧ (db.UpdateEntry (eng := fixture.engine) "2026-01-02 00:00:00" "go-err"
       {[ "title" := VString "Errors in Go" ]} locked).1 = Ok tt
  ∧ (db.DeleteEntry "go-err" locked).1 = Ok tt
  ∧ (mcp.toolDeleteEntry (codec := fixture.codec) (VInt 1) {[ "slug" := VString "go-err" ]}
       (fixture.server locked)).1
    = mcp.toolError (VInt 1)
        "database is locked. Write operations are disabled".
Proof. vm_compute. repeat split. Qed.

(** The lock theorem on the one-entry database, locked with "secret". *)
Lemma C4_write_lock_witness :
  let s := fixture.server fixture.one in
  let locked := fixture.server (db.Lock (eng := fixture.engine) "secret" fixture.one).2 in
  let args : gmap string any := {[ "slug" := VString "go-err" ]} in
  let d2 := (db.Unlock (eng := fixture.engine) "secret"
               (db.Lock (eng := fixture.engine) "secret" fixture.one).2).2 in
  ("secret" ≠ "" ∧ "wrong" ≠ ""
   ∧ db.hashToken (eng := fixture.engine) "wrong" ≠ db.hashToken (eng := fixture.engine) "secret"
   ∧ db.IsLocked (mcp.DB s) = false ∧ db.IsLocked (mcp.DB locked) = true)
  ∧ mcp.toolDeleteEntry (codec := fixture.codec) (VInt 1) args locked
    = (mcp.toolError (VInt 1)
         "database is locked. Write operations are disabled", locked)
  ∧ db.Unlock (eng := fixture.engine) "wrong" (mcp.DB locked)
    = (Err (Errorf "invalid token"), mcp.DB locked)
  ∧ db.IsLocked d2 = false
  ∧ (mcp.toolDeleteEntry (codec := fixture.codec) (VInt 1) args (mcp.with_DB s d2)).1
    = mcp.toolResult (codec := fixture.codec) (VInt 1) (mcp.PStrings [("deleted", "go-err")]).
Proof.
  intros s locked args d2.
  assert ("secret" ≠ "") as H1 by discriminate.
  assert ("wrong" ≠ "") as H2 by discriminate.
  assert (db.hashToken (eng := fixture.engine) "wrong" ≠ db.hashToken (eng := fixture.engine) "secret")
    as H3 by (vm_compute; discriminate).
  assert (db.IsLocked (mcp.DB s) = false) as H4 by reflexivity.
  assert (db.IsLocked (mcp.DB locked) = true) as H5 by reflexivity.
  split; [by split_and!|].
  destruct (C4_write_lock (eng := fixture.engine) (codec := fixture.codec)
              "2026-01-03 00:00:00" (VInt 1) args "secret" "wrong" s locked H1 H2 H3 H4 H5)
    as (_ & _ & _ & _ & _ & _ & Hdel & _ & Hwrong & _ & _ & _ & Hopen & _ & Hagain & _).
  split_and!.
  - exact Hdel.
  - exact Hwrong.
  - exact Hopen.
  - apply Hagain; [by_evaluation | vm_compute; discriminate].
Defined.

(** The index theorem for an update of the content of the one entry: a
    search for a word of the old content finds nothing, a search for a
    word of the new content finds exactly that entry. *)
Lemma C1_index_mirrors_entries_witness :
  let fields : gmap string any := {[ "content" := VString "sentinel values" ]} in
  let d' := (db.UpdateEntry (eng := fixture.engine) (io := db.reliable)
               "2026-02-01 00:00:00" "go-err" fields fixture.one).2 in
  db.consistent (eng := fixture.engine) fixture.one
  ∧ db.UpdateEntry (eng := fixture.engine) (io := db.reliable)
      "2026-02-01 00:00:00" "go-err" fields fixture.one = (Ok tt, d')
  ∧ db.entries_fts fixture.one = [db.mkFtsRow 1 "Go errors" "" "wrap errors"]
  ∧ db.entries_fts d' = [db.mkFtsRow 1 "Go errors" "" "sentinel values"]
  ∧ db.consistent (eng := fixture.engine) d'
  ∧ db.found (db.SearchEntries (eng := fixture.engine) "2026-02-02 00:00:00" "wrap"
                db.no_filter 10 d').1 = []
  ∧ (db.Slug <$> db.found (db.SearchEntries (eng := fixture.engine) "2026-02-02 00:00:00" "sentinel"
                             db.no_filter 10 d').1) = ["go-err"].
Proof.
  intros fields d'.
  assert (db.consistent (eng := fixture.engine) fixture.one) as Hc by by_evaluation.
  assert (db.UpdateEntry (eng := fixture.engine) (io := db.reliable)
            "2026-02-01 00:00:00" "go-err" fields fixture.one = (Ok tt, d')) as Hu
    by (vm_compute; reflexivity).
  destruct (C1_index_mirrors_entries (eng := fixture.engine) (io := db.reliable))
    as (_ & _ & Hupd & _).
  destruct (Hupd _ _ _ _ _
              (db.created_row "2026-01-01 00:00:00"
                 (fixture.entry "go-err" "Go errors" "wrap errors" [" errors "; "go"; ""]) 1)
              Hc Hu) as (Hc' & _); [by_evaluation | reflexivity |].
  split_and!; [exact Hc | exact Hu | reflexivity | reflexivity | exact Hc'
              | vm_compute; reflexivity | vm_compute; reflexivity].
Defined.

(** The create theorem for a second entry added to the one-entry database:
    on a storage that fails the insert of the tag associations nothing is
    left of it, on the reliable storage it is all there. *)
Lemma C2_create_atomic_witness :
  let e := fixture.entry "py-err" "Python errors" "raise exceptions" ["errors"; " "] in
  let io := fixture.failing db.InsertEntryTags in
  db.consistent (eng := fixture.engine) fixture.one
  ∧ db.CreateEntry (eng := fixture.engine) (io := io) "2026-01-02 00:00:00" e fixture.one
    = (Err (Wrapf "set tags" (ErrDriver "disk I/O error")), fixture.one)
  ∧ (∀ err d', db.CreateEntry (eng := fixture.engine) (io := io) "2026-01-02 00:00:00" e fixture.one
               = (Err err, d') → d' = fixture.one)
  ∧ ∃ e' d',
      db.CreateEntry (eng := fixture.engine) (io := db.reliable) "2026-01-02 00:00:00" e fixture.one
      = (Ok e', d')
      ∧ db.Version e' = 1
      ∧ db.GetStats "py-err" d' = Ok (db.mkEntryStats 0 0 0 None None None)
      ∧ db.consistent (eng := fixture.engine) d'.
Proof.
  intros e io.
  assert (db.consistent (eng := fixture.engine) fixture.one) as Hc by by_evaluation.
  split; [exact Hc|].
  destruct (C2_create_atomic (eng := fixture.engine) (io := io) "2026-01-02 00:00:00" e fixture.one)
    as (Hatomic & _ & Hsucc & Hpost).
  split_and!.
  - vm_compute. reflexivity.
  - intros err d' [->|[Hf _]]%Hatomic; [done|]. discriminate Hf.
  - destruct (Hsucc Hc) as (e' & d' & Hcreate); [by_evaluation | by_evaluation |].
    exists e', d'.
    destruct (Hpost Hc e' d' Hcreate) as (Hv & _ & _ & _ & _ & _ & _ & Hstats & _ & _ & _ & Hcons).
    split_and!; [exact Hcreate | exact Hv | exact Hstats | exact Hcons].
Defined.

(** The delete theorem when the storage fails the second DELETE: the
    server's revision returns the error with the index emptied and the
    entry still there, the revision with the transaction leaves the
    database as it was. *)
Lemma C3_delete_cascade_witness :
  let io := fixture.failing db.DeleteEntries in
  let row := db.created_row "2026-01-01 00:00:00"
               (fixture.entry "go-err" "Go errors" "wrap errors" [" errors "; "go"; ""]) 1 in
  db.schema_ok (eng := fixture.engine) fixture.one
  ∧ db.DeleteEntry (io := io) "go-err" fixture.one
    = (Err (Wrapf "delete entry" (ErrDriver "disk I/O error")),
       db.with_entries_fts fixture.one [])
  ∧ db.entries_fts fixture.one = [db.index_row row]
  ∧ db.entries (db.with_entries_fts fixture.one []) = [row]
  ∧ db.DeleteEntry_ctx (io := io) "go-err" fixture.one
    = (Err (Wrapf "delete entry" (ErrDriver "disk I/O error")), fixture.one).
Proof.
  intros io row.
  assert (db.schema_ok (eng := fixture.engine) fixture.one) as Hok by by_evaluation.
  split; [exact Hok|].
  destruct (C3_delete_cascade (eng := fixture.engine) (io := io) "go-err" fixture.one Hok)
    as [_ Hpresent].
  destruct (Hpresent row) as (_ & _ & _ & _ & _ & _ & _ & _ & _ & _ & _ & _ & _ & Hhalf);
    [by_evaluation | reflexivity |].
  destruct (Hhalf (ErrDriver "disk I/O error")) as (Hdel & _ & _ & _ & _ & _ & _ & Hctx);
    [reflexivity..|].
  split_and!; [exact Hdel | reflexivity | reflexivity | by apply Hctx].
Defined.

(** The update theorem for an update of the title alone. *)
Lemma C6_partial_update_witness :
  let fields : gmap string any := {[ "title" := VString "Errors in Go" ]} in
  let d' := (db.UpdateEntry (eng := fixture.engine) "2026-02-01 00:00:00" "go-err" fields fixture.one).2 in
  db.UpdateEntry (eng := fixture.engine) "2026-02-01 00:00:00" "go-err" fields fixture.one = (Ok tt, d')
  ∧ ∃ r',
      head (filter (λ e, db.e_slug e = "go-err") (db.entries d')) = Some r'
      ∧ db.e_title r' = "Errors in Go"
      ∧ db.e_content r' = "wrap errors"
      ∧ db.e_version r' = 2
      ∧ db.e_updated_at r' = "2026-02-01 00:00:00"
      ∧ db.e_created_at r' = "2026-01-01 00:00:00".
Proof.
  intros fields d'.
  assert (db.UpdateEntry (eng := fixture.engine) "2026-02-01 00:00:00" "go-err" fields fixture.one
          = (Ok tt, d')) as Hup by (vm_compute; reflexivity).
  split; [exact Hup|].
  destruct (C6_partial_update (eng := fixture.engine) "2026-02-01 00:00:00" "go-err" fields
              fixture.one d'
              (db.created_row "2026-01-01 00:00:00"
                 (fixture.entry "go-err" "Go errors" "wrap errors" [" errors "; "go"; ""]) 1)
              Hup)
    as ((r' & Hh & _ & _ & Hcols & Hset & Hv & Hu & Hc) & _); [vm_compute; reflexivity|].
  exists r'. split_and!.
  - exact Hh.
  - apply (Hset "title"); [by_evaluation | vm_compute; reflexivity].
  - pose proof (Hcols "content") as Hcontent.
    assert (fields !! "content" = None) as Hnone by (vm_compute; reflexivity).
    rewrite Hnone in Hcontent. apply Hcontent. by_evaluation.
  - exact Hv.
  - exact Hu.
  - exact Hc.
Defined.

(** The tag theorem for the second entry of the two-entry database, given
    names with blanks and a repetition, and for an update of its tags from
    a decoded JSON array. *)
Lemma C7_replace_tags_witness :
  let ts := Slice [" go "; ""; "errors"; "go"; "  "] in
  let fields : gmap string any := {[ "tags" := VSlice [VString " idioms "; VInt 3; VString ""] ]} in
  let d1 := (db.UpdateEntry (eng := fixture.engine) "2026-02-01 00:00:00" "py-err" fields fixture.two).2 in
  (db.schema_ok (eng := fixture.engine) fixture.two ∧ 2 ∈ db.e_id <$> db.entries fixture.two)
  ∧ (∃ d',
      db.setTags (eng := fixture.engine) 2 ts fixture.two = Ok (tt, d')
      ∧ ("go" ∈ items (db.getTagsForEntry d' 2))
      ∧ NoDup (items (db.getTagsForEntry d' 2))
      ∧ ∃ d'', db.setTags (eng := fixture.engine) 2 ts d' = Ok (tt, d'') ∧ db.same_rows d' d'')
  ∧ db.UpdateEntry (eng := fixture.engine) "2026-02-01 00:00:00" "py-err" fields fixture.two
    = (Ok tt, d1)
  ∧ (∀ name, name ∈ items (db.getTagsForEntry d1 2) ↔ name = "idioms").
Proof.
  intros ts fields d1.
  assert (db.schema_ok (eng := fixture.engine) fixture.two) as Hok by by_evaluation.
  assert (2 ∈ db.e_id <$> db.entries fixture.two) as Hin by by_evaluation.
  split; [by split|].
  destruct (C7_replace_tags (eng := fixture.engine) (io := db.reliable) 2 ts fixture.two Hok Hin)
    as ([d' Hset] & Hfacts & _ & _ & _ & Hupd).
  assert (db.UpdateEntry (eng := fixture.engine) "2026-02-01 00:00:00" "py-err" fields fixture.two
          = (Ok tt, d1)) as Hu by (vm_compute; reflexivity).
  split_and!.
  - exists d'. destruct (Hfacts d' Hset) as (Hnames & Hnd & _ & _ & _ & _ & Hagain & _).
    split_and!; [exact Hset | | exact Hnd | exact Hagain].
    apply Hnames. split; [discriminate|].
    exists " go ". split; [by_evaluation | vm_compute; reflexivity].
  - exact Hu.
  - intros name. pose proof (Hupd _ _ fields d1 Hu eq_refl) as H.
    change (fields !! "tags") with (Some (VSlice [VString " idioms "; VInt 3; VString ""])) in H.
    rewrite (H name). split.
    + intros [Hne (t & <- & Ht)]. apply elem_of_cons in Ht as [[= ->]|Ht]; [vm_compute; reflexivity|].
      apply elem_of_cons in Ht as [[=]|Ht].
      apply list_elem_of_singleton in Ht as [= ->]. by destruct Hne.
    + intros ->. split; [discriminate|]. exists " idioms ". split; [vm_compute; reflexivity|left].
Defined.



(** * Further properties of the store and the server *)
(** * Usage counters *)

Section stats_facts.
Context {eng : db.Engine}.

(** The stats lookup joins on the entry's id: with unique slugs it reads
    the stats row of the entry that has the slug. *)
Lemma GetStats_found d r :
  NoDup (db.e_slug <$> db.entries d) → r ∈ db.entries d →
  db.GetStats (db.e_slug r) d =
  match head (filter (λ s, db.es_entry_id s = db.e_id r) (db.entry_stats d)) with
  | Some s =>
    Ok (db.mkEntryStats (db.es_reads s) (db.es_searches s) (db.es_updates s)
          (db.es_last_read_at s) (db.es_last_search_at s) (db.es_last_update_at s))
  | None => Err (Errorf ("entry not found: " +:+ db.e_slug r))
  end.
Proof.
  intros Hslug Hr. unfold db.GetStats. cbv zeta.
  replace (db.entry_stats d ≫= _)
    with (filter (λ s, db.es_entry_id s = db.e_id r) (db.entry_stats d)); [done|].
  rewrite <- (list_fmap_id (filter _ _)), <- bind_if_filter.
  apply bind_ext_in. intros es _.
  rewrite (bind_const_filter (λ e, db.e_id e = db.es_entry_id es ∧ db.e_slug e = db.e_slug r)).
  rewrite <- (list_filter_filter (λ e, db.e_id e = db.es_entry_id es)
                (λ e, db.e_slug e = db.e_slug r)).
  rewrite (slug_selects d r Hslug Hr), filter_cons, filter_nil.
  repeat case_decide; done.
Qed.

Lemma head_filter_fmap_key {A K} `{EqDecision K} (key : A → K) (g : A → A) (k : K) (l : list A) :
  (∀ x, key (g x) = key x) →
  head (filter (λ x, key x = k) (g <$> l)) = g <$> head (filter (λ x, key x = k) l).
Proof.
  intros Hg. induction l as [|x l IH]; [done|]. rewrite fmap_cons, !filter_cons, Hg.
  case_decide; [done|exact IH].
Qed.

End stats_facts.

Section read_counter.
Context {eng : db.Engine}.

Lemma stats_of_row d r st :
  NoDup (db.e_slug <$> db.entries d) → r ∈ db.entries d →
  db.GetStats (db.e_slug r) d = Ok st →
  ∃ s, head (filter (λ s, db.es_entry_id s = db.e_id r) (db.entry_stats d)) = Some s
       ∧ st = db.mkEntryStats (db.es_reads s) (db.es_searches s) (db.es_updates s)
                (db.es_last_read_at s) (db.es_last_search_at s) (db.es_last_update_at s).
Proof.
  intros Hslug Hr. rewrite (GetStats_found d r Hslug Hr).
  destruct (head _) as [s|]; [|done]. intros [= <-]. by exists s.
Qed.

(** The stats lookup of an entry after the stats rows went through [g],
    which keeps the key of every row. *)
Lemma GetStats_mapped d r (g : db.StatsRow → db.StatsRow) :
  NoDup (db.e_slug <$> db.entries d) → r ∈ db.entries d →
  (∀ s, db.es_entry_id (g s) = db.es_entry_id s) →
  db.GetStats (db.e_slug r) (db.with_entry_stats d (g <$> db.entry_stats d)) =
  match g <$> head (filter (λ s, db.es_entry_id s = db.e_id r) (db.entry_stats d)) with
  | Some s =>
    Ok (db.mkEntryStats (db.es_reads s) (db.es_searches s) (db.es_updates s)
          (db.es_last_read_at s) (db.es_last_search_at s) (db.es_last_update_at s))
  | None => Err (Errorf ("entry not found: " +:+ db.e_slug r))
  end.
Proof.
  intros Hslug Hr Hg.
  rewrite (GetStats_found (db.with_entry_stats d (g <$> db.entry_stats d)) r Hslug Hr).
  cbn [db.entry_stats db.with_entry_stats].
  by rewrite (head_filter_fmap_key db.es_entry_id g).
Qed.

(** Rows of other entries keep their stats under a counter statement for
    entry [id]. *)
Lemma GetStats_other_entry d slug id (g : db.StatsRow → db.StatsRow) :
  NoDup (db.e_slug <$> db.entries d) →
  (∀ r, r ∈ db.entries d → db.e_slug r = slug → db.e_id r ≠ id) →
  (∀ s, db.es_entry_id (g s) = db.es_entry_id s) →
  (∀ s, db.es_entry_id s ≠ id → g s = s) →
  db.GetStats slug (db.with_entry_stats d (g <$> db.entry_stats d)) = db.GetStats slug d.
Proof.
  intros Hslug Hother Hg Hfix.
  destruct (decide (slug ∈ db.e_slug <$> db.entries d)) as [Hin|Hout].
  - apply list_elem_of_fmap in Hin as (r & -> & Hr).
    rewrite (GetStats_mapped d r g Hslug Hr Hg), (GetStats_found d r Hslug Hr).
    destruct (head _) as [s|] eqn:Hs; [|done]. simpl.
    apply head_filter_Some in Hs as [_ Hk]. rewrite Hfix; [done|].
    rewrite Hk. by apply Hother.
  - rewrite (GetStats_not_found slug d Hout). by apply GetStats_not_found.
Qed.

(** A lookup that finds the entry raises its read counter. *)
Lemma GetEntry_counts now d r st :
  db.schema_ok d → r ∈ db.entries d → db.GetStats (db.e_slug r) d = Ok st →
  let d' := (db.GetEntry now (db.e_slug r) d).2 in
  (db.GetEntry now (db.e_slug r) d).1 = Ok (db.full_entry r (db.getTagsForEntry d (db.e_id r)))
  ∧ db.GetStats (db.e_slug r) d'
    = Ok (db.mkEntryStats (db.Reads st + 1) (db.Searches st) (db.Updates st)
            (Some now) (db.LastSearchAt st) (db.LastUpdateAt st))
  ∧ (∀ other, other ≠ db.e_slug r → db.GetStats other d' = db.GetStats other d).
Proof.
  intros Hok Hr Hst d'. pose proof Hok as (Hid & Hslug & _).
  assert (head (filter (λ e, db.e_slug e = db.e_slug r) (db.entries d)) = Some r) as Hh
    by (by rewrite (slug_selects d r Hslug Hr)).
  unfold d'. rewrite (GetEntry_found now _ d r Hh). cbn [fst snd].
  destruct (stats_of_row d r st Hslug Hr Hst) as (s & Hs & ->).
  split_and!; try done.
  - unfold db.bump_reads. rewrite (GetStats_mapped d r _ Hslug Hr); [|by intros; case_decide].
    rewrite Hs. simpl. apply head_filter_Some in Hs as [_ Hk]. by rewrite decide_True.
  - intros other Hne. unfold db.bump_reads. apply (GetStats_other_entry d other (db.e_id r)); try done.
    + intros r2 Hr2 Hs2 Heq. apply Hne. rewrite <- Hs2.
      by rewrite (key_determines db.e_id (db.entries d) r2 r Hid Hr2 Hr Heq).
    + by intros; case_decide.
    + intros s0 Hs0. by rewrite decide_False.
Qed.

(** X2. A lookup by slug that finds the entry returns it in full and counts
    as one read: the entry's [reads] goes up by one and [last_read_at]
    becomes now, its other counters stay, the stats of every other entry
    stay, and no table but the stats changes. A lookup that finds nothing
    fails with "entry not found" and changes nothing. *)
Theorem X2_get_counts_one_read (now slug : string) (d : db.DB) :
  db.schema_ok d →
  (slug ∉ db.e_slug <$> db.entries d →
   db.GetEntry now slug d = (Err (Errorf ("entry not found: " +:+ slug)), d))
  ∧ (∀ r st, r ∈ db.entries d → db.e_slug r = slug → db.GetStats slug d = Ok st →
       let d' := (db.GetEntry now slug d).2 in
       (db.GetEntry now slug d).1 = Ok (db.full_entry r (db.getTagsForEntry d (db.e_id r)))
       ∧ db.GetStats slug d'
         = Ok (db.mkEntryStats (db.Reads st + 1) (db.Searches st) (db.Updates st)
                 (Some now) (db.LastSearchAt st) (db.LastUpdateAt st))
       ∧ (∀ other, other ≠ slug → db.GetStats other d' = db.GetStats other d)
       ∧ db.entries d' = db.entries d ∧ db.tags d' = db.tags d
       ∧ db.entry_tags d' = db.entry_tags d ∧ db.entries_fts d' = db.entries_fts d
       ∧ db.lock d' = db.lock d).
Proof.
  intros Hok. split; [apply GetEntry_not_found|].
  intros r st Hr <- Hst d'.
  destruct (GetEntry_counts now d r st Hok Hr Hst) as (Hres & Hself & Hother).
  split_and!; [done|done|done|..].
  all: unfold d', db.GetEntry; by destruct (head _).
Qed.

End read_counter.

Lemma X2_get_counts_one_read_witness :
  db.schema_ok (eng := fixture.engine) fixture.two
  ∧ db.GetStats "go-err" fixture.two = Ok (db.mkEntryStats 0 0 0 None None None)
  ∧ db.GetStats "go-err" (db.GetEntry "2026-03-01 10:00:00" "go-err" fixture.two).2
    = Ok (db.mkEntryStats 1 0 0 (Some "2026-03-01 10:00:00") None None)
  ∧ db.GetStats "py-err" (db.GetEntry "2026-03-01 10:00:00" "go-err" fixture.two).2
    = db.GetStats "py-err" fixture.two.
Proof.
  assert (db.schema_ok (eng := fixture.engine) fixture.two) as Hok by by_evaluation.
  assert (db.GetStats "go-err" fixture.two = Ok (db.mkEntryStats 0 0 0 None None None)) as Hst
    by (vm_compute; reflexivity).
  destruct (X2_get_counts_one_read (eng := fixture.engine) "2026-03-01 10:00:00" "go-err"
              fixture.two Hok) as [_ Hhit].
  destruct (Hhit (db.created_row "2026-01-01 00:00:00"
                    (fixture.entry "go-err" "Go errors" "wrap errors" [" errors "; "go"; ""]) 1)
              (db.mkEntryStats 0 0 0 None None None))
    as (_ & Hread & Hother & _); [by_evaluation | reflexivity | exact Hst |].
  split_and!; [exact Hok | exact Hst | exact Hread | by apply Hother].
Defined.

Section update_counter.
Context {eng : db.Engine}.

(** The stats lookup reads the entry rows for id and slug only. *)
Lemma GetStats_keys d1 d2 slug :
  (λ e, (db.e_id e, db.e_slug e)) <$> db.entries d1
  = (λ e, (db.e_id e, db.e_slug e)) <$> db.entries d2 →
  db.entry_stats d1 = db.entry_stats d2 →
  db.GetStats slug d1 = db.GetStats slug d2.
Proof.
  intros Hkeys Hstats.
  assert (∀ d, db.GetStats slug d =
            match head (db.entry_stats d ≫= λ es,
                          k ← (λ e, (db.e_id e, db.e_slug e)) <$> db.entries d;
                          if decide (k.1 = db.es_entry_id es ∧ k.2 = slug) then [es] else []) with
            | Some s =>
              Ok (db.mkEntryStats (db.es_reads s) (db.es_searches s) (db.es_updates s)
                    (db.es_last_read_at s) (db.es_last_search_at s) (db.es_last_update_at s))
            | None => Err (Errorf ("entry not found: " +:+ slug))
            end) as Heq.
  { intros d. unfold db.GetStats. cbv zeta.
    match goal with |- match head ?a with _ => _ end = match head ?b with _ => _ end =>
      replace a with b; [done|] end.
    apply bind_ext_in. intros es _.
    induction (db.entries d) as [|e l IH]; [done|].
    by rewrite fmap_cons, !bind_cons, IH. }
  by rewrite !Heq, Hkeys, Hstats.
Qed.

Lemma rows_updated_pairs now id svs rows rows' :
  Forall2 (db.row_updated now id svs) rows rows' →
  (λ e, (db.e_id e, db.e_slug e)) <$> rows' = (λ e, (db.e_id e, db.e_slug e)) <$> rows.
Proof.
  induction 1 as [|r r' rows rows' Hr _ IH]; [done|].
  rewrite !fmap_cons, IH. by destruct (row_updated_fixed _ _ _ _ _ Hr) as [-> ->].
Qed.

(** What a successful update leaves of the entry rows' keys and of the
    stats table. *)
Lemma UpdateEntry_stats now slug fields d d' :
  db.UpdateEntry now slug fields d = (Ok tt, d') →
  ∃ id d5,
    db.query_entry_id slug d = Some id
    ∧ d' = db.bump_updates now id d5
    ∧ (λ e, (db.e_id e, db.e_slug e)) <$> db.entries d5
      = (λ e, (db.e_id e, db.e_slug e)) <$> db.entries d
    ∧ db.entry_stats d5 = db.entry_stats d.
Proof.
  intros (id & svs & rows & src & d5 & Hq & _ & Hrows & _ & Htags & ->)%UpdateEntry_Ok.
  exists id, d5. split_and!; try done.
  - apply update_rows_inv in Hrows as [Hrel _]. apply rows_updated_pairs in Hrel.
    destruct (fields !! "tags").
    + apply setTags_frame in Htags as (-> & _). exact Hrel.
    + subst d5. exact Hrel.
  - destruct (fields !! "tags").
    + by apply setTags_frame in Htags as (_ & _ & -> & _).
    + by subst d5.
Qed.

(** A successful update raises the entry's update counter. *)
Lemma UpdateEntry_counts now slug fields d d' st :
  db.schema_ok d →
  db.UpdateEntry now slug fields d = (Ok tt, d') →
  db.GetStats slug d = Ok st →
  db.GetStats slug d'
  = Ok (db.mkEntryStats (db.Reads st) (db.Searches st) (db.Updates st + 1)
          (db.LastReadAt st) (db.LastSearchAt st) (Some now))
  ∧ (∀ other, other ≠ slug → db.GetStats other d' = db.GetStats other d).
Proof.
  intros (Hid & Hslug & _) (id & d5 & Hq & -> & Hkeys & Hstats)%UpdateEntry_stats Hst.
  apply query_entry_id_Some in Hq as (r & _ & Hr & <- & <-).
  assert (db.e_slug <$> db.entries d5 = db.e_slug <$> db.entries d) as Hslugs.
  { apply (f_equal (fmap snd)) in Hkeys. by rewrite <- !list_fmap_compose in Hkeys. }
  assert (db.e_id <$> db.entries d5 = db.e_id <$> db.entries d) as Hids.
  { apply (f_equal (fmap fst)) in Hkeys. by rewrite <- !list_fmap_compose in Hkeys. }
  assert (NoDup (db.e_slug <$> db.entries d5)) as Hslug5 by (by rewrite Hslugs).
  assert (db.GetStats (db.e_slug r) d5 = Ok st) as Hst5.
  { by rewrite (GetStats_keys d5 d (db.e_slug r) Hkeys Hstats). }
  assert (∃ r5, r5 ∈ db.entries d5 ∧ db.e_slug r5 = db.e_slug r ∧ db.e_id r5 = db.e_id r)
    as (r5 & Hr5 & Hs5 & Hi5).
  { assert ((db.e_id r, db.e_slug r) ∈ (λ e, (db.e_id e, db.e_slug e)) <$> db.entries d5) as Hin.
    { rewrite Hkeys. by apply (list_elem_of_fmap_2 (λ e, (db.e_id e, db.e_slug e))). }
    apply list_elem_of_fmap in Hin as (r5 & [= Ha Hb] & Hr5). by exists r5. }
  split.
  - rewrite <- Hs5 in Hst5 |- *.
    destruct (stats_of_row d5 r5 st Hslug5 Hr5 Hst5) as (s & Hs & ->).
    unfold db.bump_updates. rewrite (GetStats_mapped d5 r5 _ Hslug5 Hr5); [|by intros; case_decide].
    rewrite Hs. simpl. apply head_filter_Some in Hs as [_ Hk].
    rewrite decide_True; [done|]. by rewrite Hk.
  - intros other Hne. rewrite <- (GetStats_keys d5 d other Hkeys Hstats).
    unfold db.bump_updates. apply (GetStats_other_entry d5 other (db.e_id r)); try done.
    + intros r2 Hr2 Hs2 Heq. apply Hne. rewrite <- Hs2, <- Hs5.
      f_equal. apply (key_determines db.e_id (db.entries d5)); try done.
      * by rewrite Hids.
      * by rewrite Hi5.
    + by intros; case_decide.
    + intros s0 Hs0. by rewrite decide_False.
Qed.


(** X3. A successful update counts as one update in the entry's usage
    statistics: [updates] goes up by one and [last_update_at] becomes now,
    while its read and search counters, and the statistics of every other
    entry, stay as they were. *)
Theorem X3_update_counts_one_update (now slug : string) (fields : gmap string any)
    (d d' : db.DB) (st : db.EntryStats) :
  db.schema_ok d →
  db.UpdateEntry now slug fields d = (Ok tt, d') →
  db.GetStats slug d = Ok st →
  db.GetStats slug d'
  = Ok (db.mkEntryStats (db.Reads st) (db.Searches st) (db.Updates st + 1)
          (db.LastReadAt st) (db.LastSearchAt st) (Some now))
  ∧ (∀ other, other ≠ slug → db.GetStats other d' = db.GetStats other d).
Proof.
  intros Hok Hup Hst.
  destruct (UpdateEntry_counts now slug fields d d' st Hok Hup Hst) as [Hself Hother].
  split; [exact Hself|]. intros other Hne. by apply Hother.
Qed.

End update_counter.

Lemma X3_update_counts_one_update_witness :
  let fields : gmap string any := {[ "content" := VString "wrap with %w" ]} in
  let d' := (db.UpdateEntry (eng := fixture.engine) "2026-03-01 10:00:00" "go-err" fields fixture.two).2 in
  (db.schema_ok (eng := fixture.engine) fixture.two
   ∧ db.UpdateEntry (eng := fixture.engine) "2026-03-01 10:00:00" "go-err" fields fixture.two
     = (Ok tt, d')
   ∧ db.GetStats "go-err" fixture.two = Ok (db.mkEntryStats 0 0 0 None None None))
  ∧ db.GetStats "go-err" d' = Ok (db.mkEntryStats 0 0 1 None None (Some "2026-03-01 10:00:00"))
  ∧ db.GetStats "py-err" d' = db.GetStats "py-err" fixture.two.
Proof.
  intros fields d'.
  assert (db.schema_ok (eng := fixture.engine) fixture.two) as Hok by by_evaluation.
  assert (db.UpdateEntry (eng := fixture.engine) "2026-03-01 10:00:00" "go-err" fields fixture.two
          = (Ok tt, d')) as Hup by (vm_compute; reflexivity).
  assert (db.GetStats "go-err" fixture.two = Ok (db.mkEntryStats 0 0 0 None None None)) as Hst
    by (vm_compute; reflexivity).
  split; [by split_and!|].
  destruct (X3_update_counts_one_update (eng := fixture.engine) _ _ _ _ _ _ Hok Hup Hst)
    as [Hself Hother].
  split; [exact Hself | by apply Hother].
Defined.

Section join_facts.
Context {eng : db.Engine}.

Lemma NoDup_all_equal {A} (l : list A) :
  NoDup l → (∀ x y, x ∈ l → y ∈ l → x = y) → l = [] ∨ ∃ x, l = [x].
Proof.
  intros Hnd Heq. destruct l as [|x [|y l]]; [by left|right; by exists x|].
  exfalso. apply NoDup_cons in Hnd as [Hx _]. apply Hx.
  rewrite (Heq x y); [left|left|right; left].
Qed.

Lemma elem_of_if_singleton {A} (P : Prop) `{Decision P} (x y : A) :
  y ∈ (if decide P then [x] else []) ↔ P ∧ y = x.
Proof.
  case_decide; [rewrite list_elem_of_singleton|rewrite elem_of_nil]; tauto.
Qed.

Lemma fmap_bind_list {A B C} (f : B → C) (g : A → list B) (l : list A) :
  f <$> (l ≫= g) = l ≫= (λ x, f <$> g x).
Proof. induction l as [|x l IH]; [done|]. by rewrite !bind_cons, fmap_app, IH. Qed.

(** Under the keys of schema.sql the tag join keeps a row at most once: it
    is the filter on "the row's entry carries the tag". *)
Lemma join_tag_filter {A} d (key : A → Z) name (rows : list A) :
  db.schema_ok d →
  db.join_tag d key name rows = filter (λ r, name ∈ db.query_tag_names d (key r)) rows.
Proof.
  intros (_ & _ & _ & Htid & Htname & Het & _).
  unfold db.join_tag. rewrite <- (list_fmap_id (filter _ _)), <- bind_if_filter.
  apply bind_ext_in. intros r _.
  set (pairs := et ← db.entry_tags d; t ← db.tags d;
                if decide (db.et_entry_id et = key r ∧ db.t_id t = db.et_tag_id et ∧ db.t_name t = name)
                then [(et, t)] else []).
  assert (∀ et t, (et, t) ∈ pairs ↔
            et ∈ db.entry_tags d ∧ t ∈ db.tags d
            ∧ db.et_entry_id et = key r ∧ db.t_id t = db.et_tag_id et ∧ db.t_name t = name) as Hin.
  { intros et t. unfold pairs. rewrite list_elem_of_bind. split.
    - intros (et' & (t' & [Hc [= -> ->]]%elem_of_if_singleton & Ht')%list_elem_of_bind & Het').
      by destruct Hc as (? & ? & ?).
    - intros (? & ? & ? & ? & ?). exists et. split; [|done].
      apply list_elem_of_bind. exists t. split; [|done]. rewrite decide_True by done. left. }
  assert ((et ← db.entry_tags d; t ← db.tags d;
           if decide (db.et_entry_id et = key r ∧ db.t_id t = db.et_tag_id et ∧ db.t_name t = name)
           then [r] else []) = (λ _, r) <$> pairs) as ->.
  { unfold pairs. rewrite fmap_bind_list. apply bind_ext_in. intros et _.
    rewrite fmap_bind_list. apply bind_ext_in. intros t _. by case_decide. }
  assert (NoDup pairs) as Hnd.
  { unfold pairs. apply NoDup_bind; [| |done].
    - intros et1 et2 [et t] _ _ (t1 & [_ [= -> _]]%elem_of_if_singleton & _)%list_elem_of_bind
        (t2 & [_ [= -> _]]%elem_of_if_singleton & _)%list_elem_of_bind. done.
    - intros et _. apply NoDup_bind; [| |by apply (NoDup_fmap_1 db.t_id)].
      + by intros t1 t2 [et' t] _ _ [_ [= _ ->]]%elem_of_if_singleton
          [_ [= _ ->]]%elem_of_if_singleton.
      + intros t _. case_decide; [apply NoDup_singleton|apply NoDup_nil_2]. }
  assert (∀ p1 p2, p1 ∈ pairs → p2 ∈ pairs → p1 = p2) as Hone.
  { intros [et1 t1] [et2 t2] (_ & Ht1 & He1 & Hi1 & Hn1)%Hin (_ & Ht2 & He2 & Hi2 & Hn2)%Hin.
    assert (t1 = t2) as <-.
    { apply (key_determines db.t_name (db.tags d)); try done. congruence. }
    f_equal. destruct et1, et2. simpl in *. congruence. }
  destruct (NoDup_all_equal pairs Hnd Hone) as [Hp|[[et t] Hp]].
  - rewrite Hp. rewrite decide_False; [done|].
    intros (t & et & Ht & Het' & Hi & He & Hn)%query_tag_names_elem.
    assert ((et, t) ∈ pairs) as Hmem by (by apply Hin).
    rewrite Hp in Hmem. by apply elem_of_nil in Hmem.
  - rewrite Hp. rewrite decide_True; [done|].
    assert ((et, t) ∈ pairs) as (? & ? & ? & ? & ?)%Hin by (rewrite Hp; left).
    apply query_tag_names_elem. by exists t, et.
Qed.

Lemma join_tag_sublist {A} d (key : A → Z) name (rows : list A) :
  db.schema_ok d → db.join_tag d key name rows `sublist_of` rows.
Proof. intros Hok. rewrite (join_tag_filter d key name rows Hok). apply sublist_filter. Qed.

(** The rows of the context query are entry rows, each at most once. *)
Lemma context_rows_sublist f d : db.schema_ok d → db.context_rows f d `sublist_of` db.entries d.
Proof.
  intros Hok. unfold db.context_rows. cbv zeta.
  assert (filter (λ e, db.matches f e = true) (db.entries d) `sublist_of` db.entries d) as Hf
    by apply sublist_filter.
  case_decide.
  - revert Hf. generalize (filter (λ e, db.matches f e = true) (db.entries d)).
    induction (items (db.FilterTags f)) as [|tag tags IH]; intros rows Hrows; [done|].
    simpl. apply IH. etrans; [by apply join_tag_sublist|done].
  - case_decide; [done|]. etrans; [by apply join_tag_sublist|done].
Qed.

(** The hits of a search name every entry at most once. *)
Lemma search_hits_NoDup q f d :
  db.consistent d → NoDup ((λ h, db.e_id h.2) <$> db.search_hits q f d).
Proof.
  intros [Hok (Hfts & _)]. pose proof Hok as (Hid & _).
  unfold db.search_hits. cbv zeta.
  set (hits := db.entries_fts d ≫= _).
  assert (∀ fts e, (fts, e) ∈ hits →
            fts ∈ db.entries_fts d ∧ e ∈ db.entries d ∧ db.e_id e = db.fts_rowid fts) as Hin.
  { intros fts e
      (fts' & (e' & [Hc [= -> ->]]%elem_of_if_singleton & He')%list_elem_of_bind & Hf')%list_elem_of_bind.
    by destruct Hc as (? & ? & ?). }
  assert (NoDup ((λ h, db.e_id h.2) <$> hits)) as Hnd.
  { apply NoDup_fmap_2_strong.
    - intros [f1 e1] [f2 e2] (Hf1 & He1 & Hi1)%Hin (Hf2 & He2 & Hi2)%Hin Heq. simpl in Heq.
      f_equal.
      + apply (key_determines db.fts_rowid (db.entries_fts d)); try done. congruence.
      + by apply (key_determines db.e_id (db.entries d)).
    - unfold hits. apply NoDup_bind; [| |by apply (NoDup_fmap_1 db.fts_rowid)].
      + intros f1 f2 [fts e] _ _ (e1 & [_ [= -> _]]%elem_of_if_singleton & _)%list_elem_of_bind
          (e2 & [_ [= -> _]]%elem_of_if_singleton & _)%list_elem_of_bind. done.
      + intros fts _. apply NoDup_bind; [| |by apply (NoDup_fmap_1 db.e_id)].
        * by intros e1 e2 [fts' e] _ _ [_ [= _ ->]]%elem_of_if_singleton
            [_ [= _ ->]]%elem_of_if_singleton.
        * intros e _. case_decide; [apply NoDup_singleton|apply NoDup_nil_2]. }
  case_decide; [done|].
  eapply sublist_NoDup; [exact Hnd|]. apply fmap_sublist. by apply join_tag_sublist.
Qed.

End join_facts.

Section hit_counters.
Context {eng : db.Engine}.

(** A run of counter statements, one per returned entry. *)
Lemma foldl_bump_stats (b1 : db.StatsRow → db.StatsRow) (bump : Z → db.DB → db.DB) :
  (∀ id d, bump id d
           = db.with_entry_stats d
               ((λ s, if decide (db.es_entry_id s = id) then b1 s else s) <$> db.entry_stats d)) →
  (∀ s, db.es_entry_id (b1 s) = db.es_entry_id s) →
  ∀ (es : list db.Entry) d, NoDup (db.ID <$> es) →
  foldl (λ d' e, bump (db.ID e) d') d es
  = db.with_entry_stats d
      ((λ s, if decide (db.es_entry_id s ∈ db.ID <$> es) then b1 s else s) <$> db.entry_stats d).
Proof.
  intros Hbump Hkey es. induction es as [|e es IH]; intros d Hnd.
  - cbn [foldl]. destruct d as [a b c e0 g stats l i]. unfold db.with_entry_stats.
    cbn [db.entries db.entries_seq db.tags db.tags_seq db.entry_tags db.entry_stats db.lock
         db.entries_fts]. f_equal.
    rewrite <- (list_fmap_id stats) at 1. apply list_fmap_ext. intros _ s _.
    rewrite fmap_nil. rewrite decide_False; [done|]. apply not_elem_of_nil.
  - rewrite fmap_cons in Hnd. apply NoDup_cons in Hnd as [Hfresh Hnd].
    cbn [foldl]. rewrite (IH _ Hnd), Hbump. unfold db.with_entry_stats.
    cbn [db.entries db.entries_seq db.tags db.tags_seq db.entry_tags db.entry_stats db.lock
         db.entries_fts]. f_equal.
    rewrite <- list_fmap_compose. apply list_fmap_ext. intros _ s _. unfold compose.
    rewrite fmap_cons.
    destruct (decide (db.es_entry_id s = db.ID e)) as [Heq|Hne].
    + rewrite Hkey, Heq. rewrite decide_False by done. rewrite decide_True; [done|left].
    + destruct (decide (db.es_entry_id s ∈ db.ID <$> es)) as [Hin|Hout].
      * rewrite decide_True; [done|by right].
      * rewrite decide_False; [done|]. by intros [?|?]%elem_of_cons.
Qed.

Lemma GetStats_after_bumps (b1 : db.StatsRow → db.StatsRow) (ids : list Z) d r st :
  NoDup (db.e_slug <$> db.entries d) → r ∈ db.entries d →
  (∀ s, db.es_entry_id (b1 s) = db.es_entry_id s) →
  db.GetStats (db.e_slug r) d = Ok st →
  ∃ s, db.es_entry_id s = db.e_id r
       ∧ st = db.mkEntryStats (db.es_reads s) (db.es_searches s) (db.es_updates s)
                (db.es_last_read_at s) (db.es_last_search_at s) (db.es_last_update_at s)
       ∧ db.GetStats (db.e_slug r)
           (db.with_entry_stats d
              ((λ s, if decide (db.es_entry_id s ∈ ids) then b1 s else s) <$> db.entry_stats d))
         = Ok (let s' := if decide (db.e_id r ∈ ids) then b1 s else s in
               db.mkEntryStats (db.es_reads s') (db.es_searches s') (db.es_updates s')
                 (db.es_last_read_at s') (db.es_last_search_at s') (db.es_last_update_at s')).
Proof.
  intros Hslug Hr Hkey Hst.
  destruct (stats_of_row d r st Hslug Hr Hst) as (s & Hs & ->).
  pose proof Hs as [_ Hk]%head_filter_Some.
  exists s. split_and!; try done.
  rewrite (GetStats_mapped d r _ Hslug Hr); [|by intros; case_decide].
  rewrite Hs. simpl. rewrite Hk. by case_decide.
Qed.

(** X4. A search counts as one search for each entry it returns and for no
    other: the [searches] of a returned entry goes up by one and its
    [last_search_at] becomes now, the statistics of an entry that is not
    returned stay, and no table but the stats changes. A search that fails
    changes nothing. *)
Theorem X4_search_counts_each_hit (now q : string) (f : db.Filter) (limit : Z) (d : db.DB) :
  db.consistent d →
  (∀ res d', db.SearchEntries now q f limit d = (Ok res, d') →
     (∀ r st, r ∈ db.entries d → db.GetStats (db.e_slug r) d = Ok st →
        db.GetStats (db.e_slug r) d'
        = Ok (if decide (db.e_id r ∈ db.ID <$> items res)
              then db.mkEntryStats (db.Reads st) (db.Searches st + 1) (db.Updates st)
                     (db.LastReadAt st) (Some now) (db.LastUpdateAt st)
              else st))
     ∧ db.entries d' = db.entries d ∧ db.tags d' = db.tags d
     ∧ db.entry_tags d' = db.entry_tags d ∧ db.entries_fts d' = db.entries_fts d
     ∧ db.lock d' = db.lock d)
  ∧ (∀ err d', db.SearchEntries now q f limit d = (Err err, d') → d' = d).
Proof.
  intros Hcons. pose proof Hcons as [(_ & Hslug & _) _]. split.
  - intros res d' Hs.
    pose proof (SearchEntries_found now q f limit d) as Hfound. rewrite Hs in Hfound.
    revert Hs. unfold db.SearchEntries. destruct (db.fts5_syntax_ok q); [|done].
    cbv zeta. set (res0 := collect _). intros [= <- <-]. cbn [db.found fst] in Hfound.
    set (b1 := λ s, db.mkStatsRow (db.es_entry_id s) (db.es_reads s) (db.es_searches s + 1)
                      (db.es_updates s) (db.es_last_read_at s) (Some now) (db.es_last_update_at s)).
    rewrite (foldl_bump_stats b1 (db.bump_searches now)); [|done|done|].
    + split; [|done]. intros r st Hr Hst.
      destruct (GetStats_after_bumps b1 (db.ID <$> items res0) d r st Hslug Hr
                  (λ _, eq_refl) Hst) as (s & Hk & -> & ->).
      simpl. by case_decide.
    + rewrite Hfound, <- list_fmap_compose.
      eapply sublist_NoDup; [|apply fmap_sublist, sublist_take].
      rewrite merge_sort_Permutation. exact (search_hits_NoDup q f d Hcons).
  - unfold db.SearchEntries. destruct (db.fts5_syntax_ok q); [done|]. by intros err d' [= _ <-].
Qed.

End hit_counters.

Section listing_facts.
Context {eng : db.Engine}.

Lemma Sorted_take {A} (R : relation A) (l : list A) n : Sorted R l → Sorted R (take n l).
Proof.
  revert n. induction l as [|x l IH]; intros n Hs; [by rewrite take_nil|].
  destruct n as [|n]; [constructor|]. apply Sorted_inv in Hs as [Hs Hhd]. simpl.
  constructor; [by apply IH|].
  destruct Hhd as [|y l' Hxy]; [rewrite take_nil; constructor|].
  destruct n; constructor. done.
Qed.

Lemma by_title_total : Total db.by_title.
Proof. intros a b. apply (total String.le). Qed.

Lemma by_slug_total : Total db.by_slug.
Proof. intros a b. apply (total String.le). Qed.

Lemma by_count_total : Total db.by_count.
Proof.
  intros a b. unfold db.by_count.
  destruct (Z.lt_trichotomy (db.Count a) (db.Count b)) as [?|[Heq|?]]; [by right; left| |by left; left].
  destruct (total String.le (db.Name a) (db.Name b)); [left|right]; right; by rewrite Heq.
Qed.

(** An entry carries a tag when the tag join finds an association. *)
Lemma carries_tag d id name :
  name ∈ items (db.getTagsForEntry d id) ↔ name ∈ db.query_tag_names d id.
Proof. rewrite getTagsForEntry_eq. simpl. apply elem_of_merge_sort. Qed.

Lemma join_tag_carries d name (rows : list db.EntryRow) r :
  r ∈ db.join_tag d db.e_id name rows ↔
  r ∈ rows ∧ name ∈ items (db.getTagsForEntry d (db.e_id r)).
Proof.
  rewrite join_tag_elem, carries_tag, query_tag_names_elem. split.
  - intros (Hr & et & t & ? & ? & ? & ? & ?). split; [done|]. by exists t, et.
  - intros (Hr & t & et & ? & ? & ? & ? & ?). split; [done|]. by exists et, t.
Qed.

Lemma foldl_join_tag_carries d (tags : list string) (rows : list db.EntryRow) r :
  r ∈ foldl (λ rows tag, db.join_tag d db.e_id tag rows) rows tags ↔
  r ∈ rows ∧ ∀ tag, tag ∈ tags → tag ∈ items (db.getTagsForEntry d (db.e_id r)).
Proof.
  revert rows. induction tags as [|tag tags IH]; intros rows; simpl.
  - split; [intros Hr; split; [done|]; by intros tag ?%elem_of_nil|by intros [? _]].
  - rewrite IH, join_tag_carries. split.
    + intros [[Hr Htag] Hrest]. split; [done|]. intros t [->|Ht]%elem_of_cons; [done|by apply Hrest].
    + intros [Hr Hall]. split_and!; [done|apply Hall; left|]. intros t Ht. apply Hall. by right.
Qed.

(** X5. A context query that lists at most 31 tags returns the entries
    whose kind, language, domain and project equal the filter's non-empty
    fields and which carry every one of the listed tags (the single tag
    when no tag list is given); it returns them in full, content included,
    in title order, at most the effective limit of them, and all of them
    when they fit under it. A query that lists 32 tags or more joins more
    than the 64 tables SQLite accepts: it fails with "get by context: ...",
    returns nothing and counts no read. *)
Theorem X5_context_requires_all_tags (now : string) (f : db.Filter) (limit : Z) (d : db.DB) :
  let res := db.found (db.GetEntriesByContext now f limit d).1 in
  (∀ r, r ∈ db.context_rows f d ↔
        r ∈ db.entries d ∧ db.matches f r = true
        ∧ if decide (len (db.FilterTags f) > 0)
          then ∀ tag, tag ∈ items (db.FilterTags f) →
                      tag ∈ items (db.getTagsForEntry d (db.e_id r))
          else db.FilterTag f = "" ∨ db.FilterTag f ∈ items (db.getTagsForEntry d (db.e_id r)))
  ∧ (len (db.FilterTags f) ≤ 31 →
     is_ok (db.GetEntriesByContext now f limit d).1 = true
     ∧ (∀ e, e ∈ res →
          ∃ r, r ∈ db.context_rows f d
               ∧ e = db.full_entry r (db.getTagsForEntry d (db.e_id r))
               ∧ db.Content e = db.e_content r)
     ∧ Sorted (λ a b, String.le (db.Title a) (db.Title b)) res
     ∧ (length res ≤ Z.to_nat (db.effective_limit 20 limit))%nat
     ∧ ((length (db.context_rows f d) ≤ Z.to_nat (db.effective_limit 20 limit))%nat →
        ∀ r, r ∈ db.context_rows f d →
             db.full_entry r (db.getTagsForEntry d (db.e_id r)) ∈ res))
  ∧ (32 ≤ len (db.FilterTags f) →
     db.GetEntriesByContext now f limit d = (Err (Wrapf "get by context" db.too_many_tables), d)).
Proof.
  intros res. unfold res. split_and!.
  - intros r. unfold db.context_rows. cbv zeta. case_decide.
    + rewrite foldl_join_tag_carries, list_elem_of_filter. tauto.
    + case_decide as Htag.
      * rewrite list_elem_of_filter. tauto.
      * rewrite join_tag_carries, list_elem_of_filter. tauto.
  - intros Hfew.
    assert (db.context_tables f ≤ db.sqlite_max_join) as Hfits.
    { unfold db.context_tables, db.sqlite_max_join. repeat case_decide; lia. }
    rewrite GetEntriesByContext_found by done. split_and!.
    + unfold db.GetEntriesByContext. cbv zeta. by rewrite decide_False by lia.
    + intros e (r & -> & Hr%elem_of_take%elem_of_merge_sort)%list_elem_of_fmap. by exists r.
    + apply (Sorted_fmap _ db.by_title); [done|].
      apply Sorted_take, (@Sorted_merge_sort _ db.by_title _ by_title_total).
    + rewrite length_fmap, length_take. lia.
    + intros Hfit r Hr. rewrite take_all by (by rewrite length_merge_sort).
      apply (list_elem_of_fmap_2 (λ r, db.full_entry r (db.getTagsForEntry d (db.e_id r)))).
      by apply elem_of_merge_sort.
  - intros Hmany. apply GetEntriesByContext_refused.
    unfold db.context_tables, db.sqlite_max_join. rewrite decide_True by lia. lia.
Qed.

(** X6. The listing returns exactly the entries whose kind, language,
    domain and project equal the filter's non-empty fields and which carry
    the filter's tag when one is given; each without its content, in title
    order, and each entry once. *)
Theorem X6_list_filters_and_orders (f : db.Filter) (d : db.DB) :
  db.schema_ok d →
  let res := db.found (db.ListEntries f d) in
  (∀ e, e ∈ res ↔
        ∃ r, r ∈ db.entries d ∧ db.matches f r = true
             ∧ (db.FilterTag f = "" ∨ db.FilterTag f ∈ items (db.getTagsForEntry d (db.e_id r)))
             ∧ e = db.listed_entry r (db.getTagsForEntry d (db.e_id r)) "")
  ∧ Sorted (λ a b, String.le (db.Title a) (db.Title b)) res
  ∧ Forall (λ e, db.Content e = "" ∧ db.Snippet e = "") res
  ∧ NoDup (db.ID <$> res)
  ∧ NoDup (db.Slug <$> res).
Proof.
  intros Hok res. unfold res. rewrite ListEntries_found.
  pose proof Hok as (Hid & Hslug & _).
  set (rows := if decide (db.FilterTag f = "") then _ else _).
  assert (∀ r, r ∈ rows ↔ r ∈ db.entries d ∧ db.matches f r = true
                 ∧ (db.FilterTag f = "" ∨ db.FilterTag f ∈ items (db.getTagsForEntry d (db.e_id r))))
    as Hrows.
  { intros r. unfold rows. case_decide.
    - rewrite list_elem_of_filter. tauto.
    - rewrite join_tag_carries, list_elem_of_filter. tauto. }
  assert (rows `sublist_of` db.entries d) as Hsub.
  { unfold rows. case_decide; [apply sublist_filter|].
    etrans; [by apply join_tag_sublist|apply sublist_filter]. }
  split_and!.
  - intros e. rewrite list_elem_of_fmap. split.
    + intros (r & -> & Hr%elem_of_merge_sort%Hrows). exists r. tauto.
    + intros (r & ? & ? & ? & ->). exists r. split; [done|]. apply elem_of_merge_sort, Hrows. tauto.
  - apply (Sorted_fmap _ db.by_title); [done|]. apply (@Sorted_merge_sort _ db.by_title _ by_title_total).
  - apply Forall_fmap, Forall_forall. by intros r _.
  - rewrite <- list_fmap_compose. rewrite merge_sort_Permutation.
    eapply sublist_NoDup; [exact Hid|]. by apply fmap_sublist.
  - rewrite <- list_fmap_compose. rewrite merge_sort_Permutation.
    eapply sublist_NoDup; [exact Hslug|]. by apply fmap_sublist.
Qed.

End listing_facts.

Section more_listing.
Context {eng : db.Engine}.

(** X7. The context query counts as one read for each entry it returns and
    for no other: the [reads] of a returned entry goes up by one and its
    [last_read_at] becomes now, the statistics of an entry that is not
    returned stay, and no table but the stats changes. *)
Theorem X7_context_counts_each_read (now : string) (f : db.Filter) (limit : Z) (d : db.DB) :
  db.schema_ok d →
  let res := db.found (db.GetEntriesByContext now f limit d).1 in
  let d' := (db.GetEntriesByContext now f limit d).2 in
  (∀ r st, r ∈ db.entries d → db.GetStats (db.e_slug r) d = Ok st →
     db.GetStats (db.e_slug r) d'
     = Ok (if decide (db.e_id r ∈ db.ID <$> res)
           then db.mkEntryStats (db.Reads st + 1) (db.Searches st) (db.Updates st)
                  (Some now) (db.LastSearchAt st) (db.LastUpdateAt st)
           else st))
  ∧ db.entries d' = db.entries d ∧ db.tags d' = db.tags d
  ∧ db.entry_tags d' = db.entry_tags d ∧ db.entries_fts d' = db.entries_fts d
  ∧ db.lock d' = db.lock d.
Proof.
  intros Hok res d'. pose proof Hok as (Hid & Hslug & _).
  destruct (decide (db.context_tables f > db.sqlite_max_join)) as [Hmany|Hfits].
  { unfold res, d'. rewrite GetEntriesByContext_refused by done. cbn [fst snd db.found].
    split; [|done]. intros r st _ ->. rewrite decide_False; [done|]. by intros ?%elem_of_nil. }
  pose proof (GetEntriesByContext_found now f limit d ltac:(lia)) as Hfound. fold res in Hfound.
  unfold d', db.GetEntriesByContext. cbv zeta. rewrite decide_False by done. cbn [snd].
  assert (items (collect
            ((λ r, db.full_entry r (db.getTagsForEntry d (db.e_id r))) <$>
             take (Z.to_nat (db.effective_limit 20 limit))
               (merge_sort db.by_title (db.context_rows f d)))) = res) as ->.
  { by rewrite items_collect. }
  set (b1 := λ s, db.mkStatsRow (db.es_entry_id s) (db.es_reads s + 1) (db.es_searches s)
                    (db.es_updates s) (Some now) (db.es_last_search_at s) (db.es_last_update_at s)).
  rewrite (foldl_bump_stats b1 (db.bump_reads now)); [|done|done|].
  - split; [|done]. intros r st Hr Hst.
    destruct (GetStats_after_bumps b1 (db.ID <$> res) d r st Hslug Hr (λ _, eq_refl) Hst)
      as (s & Hk & -> & ->).
    simpl. by case_decide.
  - rewrite Hfound, <- list_fmap_compose.
    eapply sublist_NoDup; [|apply fmap_sublist, sublist_take].
    rewrite merge_sort_Permutation.
    eapply sublist_NoDup; [exact Hid|]. apply fmap_sublist. by apply context_rows_sublist.
Qed.

(** X8. The tag listing shows a tag exactly when at least one association
    names it, with the number of its associations as count (so never a
    zero count, and a tag row left without entries is not shown); no name
    appears twice; and the order is by falling count, equal counts by
    name. *)
Theorem X8_tags_listed_with_counts (d : db.DB) :
  db.schema_ok d →
  let res := db.found (db.ListTags d) in
  let uses (t : db.TagRow) :=
    Z.of_nat (length (filter (λ et, db.et_tag_id et = db.t_id t) (db.entry_tags d))) in
  (∀ tg, tg ∈ res ↔ ∃ t, t ∈ db.tags d ∧ uses t ≠ 0 ∧ tg = db.mkTag (db.t_name t) (uses t))
  ∧ (∀ t, t ∈ db.tags d → db.t_id t ∉ db.et_tag_id <$> db.entry_tags d →
          db.t_name t ∉ db.Name <$> res)
  ∧ Forall (λ tg, 1 ≤ db.Count tg) res
  ∧ NoDup (db.Name <$> res)
  ∧ Sorted (λ a b, db.Count b < db.Count a
                   ∨ (db.Count a = db.Count b ∧ String.le (db.Name a) (db.Name b))) res.
Proof.
  intros (_ & _ & _ & Htid & Htname & _) res uses. unfold res. rewrite ListTags_found.
  set (groups := omap _ (db.tags d)).
  assert (∀ tg, tg ∈ groups ↔
            ∃ t, t ∈ db.tags d ∧ uses t ≠ 0 ∧ tg = db.mkTag (db.t_name t) (uses t)) as Hgroups.
  { intros tg. unfold groups. rewrite list_elem_of_omap. split.
    - intros (t & Ht & Hsome). exists t. cbv zeta in Hsome. fold (uses t) in Hsome.
      case_decide; [done|]. by injection Hsome as <-.
    - intros (t & Ht & Hne & ->). exists t. split; [done|]. cbv zeta. fold (uses t).
      by rewrite decide_False. }
  assert (db.Name <$> groups `sublist_of` db.t_name <$> db.tags d) as Hsub.
  { unfold groups. clear. induction (db.tags d) as [|t l IH]; [done|].
    rewrite fmap_cons. simpl. cbv zeta. case_decide.
    - by apply sublist_cons.
    - rewrite fmap_cons. by apply sublist_skip. }
  split_and!.
  - intros tg. by rewrite elem_of_merge_sort.
  - intros t Ht Hunused (tg & Hname & (t' & Ht' & Hne & ->)%elem_of_merge_sort%Hgroups)%list_elem_of_fmap.
    simpl in Hname. assert (t = t') as <-.
    { by apply (key_determines db.t_name (db.tags d)). }
    apply Hne. unfold uses. rewrite filter_none; [done|].
    intros et Het Heq. apply Hunused. rewrite <- Heq. by apply list_elem_of_fmap_2.
  - apply Forall_forall. intros tg (t & _ & Hne & ->)%elem_of_merge_sort%Hgroups. simpl.
    unfold uses in *. lia.
  - rewrite merge_sort_Permutation. by eapply sublist_NoDup.
  - apply (@Sorted_merge_sort _ db.by_count _ by_count_total).
Qed.

(** X9. The export listing holds every entry exactly once, in full (content
    and tags as a lookup by slug returns them), in slug order. *)
Theorem X9_export_lists_every_entry (d : db.DB) :
  db.schema_ok d →
  let res := db.found (db.AllEntries d) in
  res ≡ₚ (λ r, db.full_entry r (db.getTagsForEntry d (db.e_id r))) <$> db.entries d
  ∧ length res = length (db.entries d)
  ∧ NoDup (db.Slug <$> res)
  ∧ Sorted (λ a b, String.le (db.Slug a) (db.Slug b)) res
  ∧ (∀ now slug e, (db.GetEntry now slug d).1 = Ok e → e ∈ res)
  ∧ (∀ e, e ∈ res → ∀ now, (db.GetEntry now (db.Slug e) d).1 = Ok e).
Proof.
  intros (_ & Hslug & _) res. unfold res. rewrite AllEntries_found. split_and!.
  - by rewrite merge_sort_Permutation.
  - by rewrite length_fmap, length_merge_sort.
  - rewrite <- list_fmap_compose, merge_sort_Permutation. exact Hslug.
  - apply (Sorted_fmap _ db.by_slug); [done|]. apply (@Sorted_merge_sort _ db.by_slug _ by_slug_total).
  - intros now slug e. unfold db.GetEntry.
    destruct (head _) as [r|] eqn:Hh; [|done]. cbv zeta. intros [= <-].
    apply head_filter_Some in Hh as [Hr _].
    apply (list_elem_of_fmap_2 (λ r, db.full_entry r (db.getTagsForEntry d (db.e_id r)))).
    by apply elem_of_merge_sort.
  - intros e (r & -> & Hr%elem_of_merge_sort)%list_elem_of_fmap now. cbn [db.Slug db.full_entry].
    by rewrite (GetEntry_found now _ d r) by (by rewrite (slug_selects d r Hslug Hr)).
Qed.

End more_listing.

Section create_outcomes.
Context {eng : db.Engine}.

Lemma CreateEntry_rejected now e d cause :
  db.exec_insert_entries now (db.Slug e) (db.Title e) (db.Description e) (db.Content e)
    (db.defaultStr (db.Kind e) "skill") (db.Language e) (db.Domain e) (db.Project e) d = Err cause →
  db.CreateEntry now e d = (Err (Wrapf "insert entry" cause), d).
Proof.
  intros Hins. rewrite CreateEntry_reliable.
  unfold db.transaction. erewrite bind_Err; [done|]. unfold db.wrapf. by rewrite Hins.
Qed.

(** X1. In a consistent database a create succeeds exactly when the content
    is at most 32768 long and no entry has the slug. Oversized content and
    a slug that is taken are both refused by the insert itself, with an
    error that starts "insert entry: ", and nothing is changed; so the
    slug of a created entry cannot be created again. *)
Theorem X1_create_succeeds_iff (now : string) (e : db.Entry) (d : db.DB) :
  db.consistent d →
  (is_ok (db.CreateEntry now e d).1 = true ↔
   db.sqlite_length (db.Content e) ≤ 32768 ∧ db.Slug e ∉ db.e_slug <$> db.entries d)
  ∧ (32768 < db.sqlite_length (db.Content e) →
     ∃ cause, db.CreateEntry now e d = (Err (Wrapf "insert entry" cause), d))
  ∧ (db.Slug e ∈ db.e_slug <$> db.entries d →
     ∃ cause, db.CreateEntry now e d = (Err (Wrapf "insert entry" cause), d))
  ∧ (∀ e' d', db.CreateEntry now e d = (Ok e', d') →
       ∀ now2 e2, db.Slug e2 = db.Slug e →
         ∃ cause, db.CreateEntry now2 e2 d' = (Err (Wrapf "insert entry" cause), d')).
Proof.
  intros Hcons.
  assert (∀ now e d, 32768 < db.sqlite_length (db.Content e) →
            ∃ cause, db.CreateEntry now e d = (Err (Wrapf "insert entry" cause), d)) as Hbig.
  { intros now0 e0 d0 Hlen. eexists. apply CreateEntry_rejected.
    unfold db.exec_insert_entries. by rewrite decide_True. }
  assert (∀ now e d, db.Slug e ∈ db.e_slug <$> db.entries d →
            ∃ cause, db.CreateEntry now e d = (Err (Wrapf "insert entry" cause), d)) as Hdup.
  { intros now0 e0 d0 Hin.
    destruct (decide (32768 < db.sqlite_length (db.Content e0))) as [?|?]; [by apply Hbig|].
    eexists. apply CreateEntry_rejected.
    unfold db.exec_insert_entries. rewrite decide_False by done. by rewrite decide_True. }
  split_and!.
  - split.
    + destruct (db.CreateEntry now e d) as [[e'|err] d'] eqn:Hc; [|done]. intros _.
      by apply CreateEntry_Ok in Hc as (? & ? & _).
    + intros [Hlen Hslug].
      destruct (CreateEntry_succeeds now e d Hcons Hslug Hlen) as (e' & d' & ->). done.
  - apply Hbig.
  - apply Hdup.
  - intros e' d' (_ & _ & _ & _ & Htags & _)%CreateEntry_Ok now2 e2 Heq. apply Hdup.
    apply setTags_frame in Htags as (-> & _). rewrite Heq. simpl.
    rewrite fmap_app. apply elem_of_app. right. left.
Qed.

(** X10. Entry ids are never reused: a created entry's id is larger than
    every id in the table and than the highest id ever given, which the
    table remembers; a delete or an update does not lower that mark, so an
    entry created after a delete gets a larger id than the deleted one. *)
Theorem X10_ids_never_reused (now : string) (e e1 : db.Entry) (d d1 : db.DB) :
  db.CreateEntry now e d = (Ok e1, d1) →
  db.entries_seq d < db.ID e1
  ∧ Forall (λ r, db.e_id r < db.ID e1) (db.entries d)
  ∧ db.entries_seq d1 = db.ID e1
  ∧ (∀ slug d2, db.DeleteEntry slug d1 = (Ok tt, d2) → db.entries_seq d2 = db.ID e1)
  ∧ (∀ t slug fields d2, db.UpdateEntry t slug fields d1 = (Ok tt, d2) →
       db.entries_seq d2 = db.ID e1)
  ∧ (∀ slug d2 now2 e2 e3 d3,
       db.DeleteEntry slug d1 = (Ok tt, d2) → db.CreateEntry now2 e2 d2 = (Ok e3, d3) →
       db.ID e1 < db.ID e3).
Proof.
  assert (∀ now e d e1 d1, db.CreateEntry now e d = (Ok e1, d1) →
            db.ID e1 = db.next_rowid (db.entries_seq d) (db.e_id <$> db.entries d)
            ∧ db.entries_seq d1 = db.ID e1) as Hcreate.
  { intros now0 e0 d0 e' d' (_ & _ & _ & _ & Htags & ->)%CreateEntry_Ok.
    by apply setTags_frame in Htags as (_ & -> & _). }
  assert (∀ slug d1 d2, db.DeleteEntry slug d1 = (Ok tt, d2) →
            db.entries_seq d2 = db.entries_seq d1) as Hdelete.
  { intros slug a b Hdel.
    destruct (db.query_entry_id slug a) as [id|] eqn:Hq.
    - rewrite (DeleteEntry_found slug a id Hq) in Hdel. by injection Hdel as <-.
    - apply query_entry_id_None in Hq. by rewrite (DeleteEntry_not_found slug a Hq) in Hdel. }
  intros Hc. destruct (Hcreate _ _ _ _ _ Hc) as [Hid Hseq].
  split_and!.
  - rewrite Hid. unfold db.next_rowid. clear. induction (db.e_id <$> db.entries d); simpl; lia.
  - apply Forall_forall. intros r Hr. rewrite Hid. apply next_rowid_gt. by apply list_elem_of_fmap_2.
  - done.
  - intros slug d2 Hdel. by rewrite (Hdelete _ _ _ Hdel).
  - intros t slug fields d2 (id & svs & rows & src & d5 & _ & _ & _ & _ & Htags & ->)%UpdateEntry_Ok.
    cbn [db.entries_seq db.bump_updates db.with_entry_stats]. rewrite <- Hseq.
    destruct (fields !! "tags").
    + by apply setTags_frame in Htags as (_ & -> & _).
    + by subst d5.
  - intros slug d2 now2 e2 e3 d3 Hdel Hc3.
    destruct (Hcreate _ _ _ _ _ Hc3) as [-> _]. rewrite (Hdelete _ _ _ Hdel), Hseq.
    unfold db.next_rowid. clear. induction (db.e_id <$> db.entries d2); simpl; lia.
Qed.

(** X11. An update looks at eight keys of [fields] only, the seven text
    columns and "tags": two field maps that agree on these do the same, so
    a key such as "slug", "id" or "version" has no effect. *)
Theorem X11_update_ignores_other_keys (now slug : string) (fields fields' : gmap string any)
    (d : db.DB) :
  (∀ k, k ∈ "tags" :: db.columns → fields !! k = fields' !! k) →
  db.UpdateEntry now slug fields d = db.UpdateEntry now slug fields' d.
Proof.
  intros Hagree. rewrite !UpdateEntry_reliable.
  assert (db.set_clauses fields = db.set_clauses fields') as ->.
  { unfold db.set_clauses. apply list_omap_ext, Forall2_same_length_lookup_2; [done|].
    intros i col col' Hcol [= <-]%(eq_trans (eq_sym Hcol)).
    rewrite (Hagree col); [done|]. right. by eapply list_elem_of_lookup_2. }
  rewrite (Hagree "tags") by left. done.
Qed.

End create_outcomes.

Lemma X1_create_succeeds_iff_witness :
  let e := fixture.entry "py-err" "Python errors" "raise exceptions" ["errors"] in
  db.consistent (eng := fixture.engine) fixture.one
  ∧ is_ok (db.CreateEntry (eng := fixture.engine) "2026-01-02 00:00:00" e fixture.one).1 = true
  ∧ ∃ cause, db.CreateEntry (eng := fixture.engine) "2026-01-03 00:00:00" e fixture.two
             = (Err (Wrapf "insert entry" cause), fixture.two).
Proof.
  intros e.
  assert (db.consistent (eng := fixture.engine) fixture.one) as Hc1 by by_evaluation.
  assert (db.consistent (eng := fixture.engine) fixture.two) as Hc2 by by_evaluation.
  split; [exact Hc1|]. split.
  - apply (X1_create_succeeds_iff (eng := fixture.engine) "2026-01-02 00:00:00" e fixture.one Hc1).
    split; by_evaluation.
  - apply (X1_create_succeeds_iff (eng := fixture.engine) "2026-01-03 00:00:00" e fixture.two Hc2).
    by_evaluation.
Defined.

Lemma X10_ids_never_reused_witness :
  let e := fixture.entry "py-err" "Python errors" "raise exceptions" ["errors"] in
  let r := db.CreateEntry (eng := fixture.engine) "2026-01-02 00:00:00" e fixture.one in
  r = (Ok (db.mkEntry 2 "py-err" "Python errors" "" "raise exceptions" "" "" "" "" 1
             "2026-01-02 00:00:00" "2026-01-02 00:00:00" (Slice ["errors"]) ""), r.2)
  ∧ db.entries_seq fixture.one < 2
  ∧ db.entries_seq r.2 = 2
  ∧ ∀ slug d2 now2 e2 e3 d3,
      db.DeleteEntry slug r.2 = (Ok tt, d2) →
      db.CreateEntry (eng := fixture.engine) now2 e2 d2 = (Ok e3, d3) → 2 < db.ID e3.
Proof.
  intros e r.
  assert (r = (Ok (db.mkEntry 2 "py-err" "Python errors" "" "raise exceptions" "" "" "" "" 1
                     "2026-01-02 00:00:00" "2026-01-02 00:00:00" (Slice ["errors"]) ""), r.2))
    as Hr by (vm_compute; reflexivity).
  split; [exact Hr|].
  destruct (X10_ids_never_reused (eng := fixture.engine) _ _ _ _ _ Hr)
    as (Hseq & _ & Hseq1 & _ & _ & Hnext).
  split_and!; [exact Hseq | exact Hseq1 | exact Hnext].
Defined.

Lemma X11_update_ignores_other_keys_witness :
  let fields : gmap string any :=
    {[ "title" := VString "Errors in Go"; "slug" := VString "renamed"; "version" := VInt 9 ]} in
  let fields' : gmap string any := {[ "title" := VString "Errors in Go" ]} in
  (∀ k, k ∈ "tags" :: db.columns → fields !! k = fields' !! k)
  ∧ db.UpdateEntry (eng := fixture.engine) "2026-02-01 00:00:00" "go-err" fields fixture.one
    = db.UpdateEntry (eng := fixture.engine) "2026-02-01 00:00:00" "go-err" fields' fixture.one.
Proof.
  intros fields fields'.
  assert (∀ k, k ∈ "tags" :: db.columns → fields !! k = fields' !! k) as Hagree.
  { intros k Hk. unfold db.columns in Hk.
    repeat (apply elem_of_cons in Hk as [->|Hk]; [vm_compute; reflexivity|]).
    by apply elem_of_nil in Hk. }
  split; [exact Hagree|].
  exact (X11_update_ignores_other_keys (eng := fixture.engine) _ _ _ _ _ Hagree).
Defined.

Section update_outcomes.
Context {eng : db.Engine}.

Lemma bind_all_ok sets :
  (∀ cv, cv ∈ sets → ∃ s, db.bind cv.2 = Ok (db.SqlText s)) →
  ∃ svs, db.bind_all sets = Ok svs ∧ Forall (λ cv, cv.2 ≠ db.SqlNull) svs.
Proof.
  induction sets as [|[c v] sets IH]; intros Hall; [by exists []|].
  destruct (Hall (c, v)) as [s Hs]; [left|]. simpl in Hs.
  destruct IH as (svs & Hsvs & Hnn); [intros cv Hcv; apply Hall; by right|].
  exists ((c, db.SqlText s) :: svs). simpl. rewrite Hs, Hsvs. split; [done|]. by constructor.
Qed.

Lemma updated_row_Some now r svs :
  Forall (λ cv, cv.2 ≠ db.SqlNull) svs → ∃ r', db.updated_row now r svs = Some r'.
Proof.
  revert r. induction svs as [|[c [|v]] svs IH]; intros r Hnn; simpl; [by eexists| |].
  - by apply Forall_cons in Hnn as [? _].
  - apply Forall_cons in Hnn as [_ Hnn]. by apply IH.
Qed.

Lemma update_rows_ok now id svs rows :
  (∀ r, r ∈ rows → db.e_id r = id →
     ∃ r', db.updated_row now r svs = Some r' ∧ db.sqlite_length (db.e_content r') ≤ 32768) →
  ∃ rows', db.update_rows now id svs rows = Ok rows'.
Proof.
  induction rows as [|r rows IH]; intros Hall; simpl; [by eexists|].
  destruct IH as [rows' ->]; [intros x Hx; apply Hall; by right|].
  case_decide as Hid; [|by eexists].
  destruct (Hall r) as (r' & -> & Hlen); [left|done|].
  rewrite decide_False by lia. by eexists.
Qed.

(** X12. In a consistent database an update succeeds exactly when an entry
    has the slug, every text column named in [fields] is given a value
    that SQLite stores as text (a string, a number or a boolean; not null,
    not a list, not an object), and the content, when given, is at most
    32768 long. Every other update fails and changes nothing. *)
Theorem X12_update_succeeds_iff (now slug : string) (fields : gmap string any) (d : db.DB) :
  db.consistent d →
  (is_ok (db.UpdateEntry now slug fields d).1 = true ↔
   slug ∈ db.e_slug <$> db.entries d
   ∧ (∀ col v, col ∈ db.columns → fields !! col = Some v → ∃ s, db.bind v = Ok (db.SqlText s))
   ∧ (∀ v s, fields !! "content" = Some v → db.bind v = Ok (db.SqlText s) →
        db.sqlite_length s ≤ 32768))
  ∧ (is_ok (db.UpdateEntry now slug fields d).1 = false → (db.UpdateEntry now slug fields d).2 = d).
Proof.
  intros [Hok Hsync]. pose proof Hok as (Hid & Hslug & Hlen & _). split.
  - split.
    + destruct (db.UpdateEntry now slug fields d) as [[[]|err] d'] eqn:Hu; [|done]. intros _.
      apply UpdateEntry_Ok in Hu as (id & svs & rows & src & d5 & Hq & Hbind & Hrows & _).
      apply query_entry_id_Some in Hq as (r & Hh & Hr & <- & <-).
      apply update_rows_inv in Hrows as [Hrel Hfit].
      destruct (rows_updated_head db.e_slug (db.e_slug r) now (db.e_id r) svs _ rows r
                  (λ a b H, proj2 (row_updated_fixed _ _ _ _ _ H)) Hrel Hh) as (r' & Hh' & Hr').
      unfold db.row_updated in Hr'. rewrite decide_True in Hr' by done.
      pose proof Hr' as (Hid' & _ & _ & _ & _ & Hnn & Hcols)%updated_row_inv.
      apply head_filter_Some in Hh' as [Hin' _].
      rewrite Forall_forall in Hfit. specialize (Hfit r' Hin' Hid').
      split_and!.
      * by apply list_elem_of_fmap_2.
      * intros col v Hcol Hv.
        pose proof (assigned_fields fields svs col (db.column col r) Hbind Hnn Hcol) as Ha.
        rewrite Hv in Ha. by eexists.
      * intros v s Hv Hs.
        pose proof (assigned_fields fields svs "content" (db.e_content r) Hbind Hnn) as Ha.
        rewrite Hv, Hs in Ha. specialize (Ha ltac:(by_evaluation)).
        injection Ha as ->.
        specialize (Hcols "content" ltac:(by_evaluation)).
        change (db.column "content" r') with (db.e_content r') in Hcols.
        change (db.column "content" r) with (db.e_content r) in Hcols.
        by rewrite <- Hcols.
    + intros (Hin & Hvals & Hcontent).
      destruct (query_entry_id_is_Some slug d Hin) as [id Hq].
      pose proof Hq as (r & _ & Hr & Hrs & Hri)%query_entry_id_Some.
      destruct (bind_all_ok (db.set_clauses fields)) as (svs & Hbind & Hnn).
      { intros [col v] (Hcol & Hv)%set_clauses_elem. by apply (Hvals col). }
      destruct (update_rows_ok now id svs (db.entries d)) as [rows Hu].
      { intros x Hx Hxid. destruct (updated_row_Some now x svs Hnn) as [x' Hx'].
        exists x'. split; [done|].
        pose proof Hx' as (_ & _ & _ & _ & _ & _ & Hcols)%updated_row_inv.
        pose proof (assigned_fields fields svs "content" (db.e_content x) Hbind Hnn) as Ha.
        specialize (Ha ltac:(by_evaluation)).
        specialize (Hcols "content" ltac:(by_evaluation)).
        change (db.column "content" x') with (db.e_content x') in Hcols.
        change (db.column "content" x) with (db.e_content x) in Hcols.
        rewrite Hcols. destruct (fields !! "content") as [v|] eqn:Hv.
        - by apply (Hcontent v).
        - rewrite Ha. rewrite Forall_forall in Hlen. by apply Hlen. }
      pose proof Hu as [Hrel _]%update_rows_inv.
      pose proof (rows_updated_keys _ _ _ _ _ Hrel) as [Hids _].
      assert (id ∈ db.e_id <$> rows) as Hinr.
      { rewrite Hids. subst id. by apply list_elem_of_fmap_2. }
      apply list_elem_of_fmap in Hinr as (src0 & Hsid & Hsrc0).
      destruct (head_filter_is_Some (λ e, db.e_id e = id) rows src0 Hsrc0) as [src Hsrc]; [done|].
      assert (∃ d5, (match fields !! "tags" with
                     | Some tagsVal => db.wrapf "update tags" (db.setTags id (db.tag_list tagsVal))
                     | None => mret tt
                     end) (db.with_updated_entry id rows src d) = Ok (tt, d5)) as [d5 Htags].
      { destruct (fields !! "tags") as [v|]; [|by eexists].
        destruct (setTags_ok id (db.tag_list v) (db.with_updated_entry id rows src d)) as [d5 H5].
        { simpl. rewrite Hids. subst id. by apply list_elem_of_fmap_2. }
        exists d5. by apply wrapf_Ok. }
      assert (db.UpdateEntry now slug fields d = (Ok tt, db.bump_updates now id d5)) as ->; [|done].
      rewrite UpdateEntry_reliable. apply transaction_Ok.
      erewrite bind_Ok; cycle 1.
      { rewrite scan_entry_id_reliable, Hq. reflexivity. }
      erewrite bind_Ok; cycle 1.
      { apply wrapf_Ok. unfold db.exec_update_entries. rewrite Hbind, Hu. reflexivity. }
      erewrite bind_Ok; cycle 1.
      { apply wrapf_Ok. reflexivity. }
      erewrite bind_Ok; cycle 1.
      { apply wrapf_Ok. unfold db.query_fts_source. simpl. rewrite Hsrc. reflexivity. }
      erewrite bind_Ok; cycle 1.
      { apply wrapf_Ok. unfold db.exec_insert_fts. simpl.
        rewrite decide_False; [reflexivity|]. apply (filter_ne_key_gone db.fts_rowid). }
      erewrite bind_Ok; cycle 1.
      { match goal with |- _ ?S = _ => replace S with (db.with_updated_entry id rows src d) end;
          [exact Htags|].
        pose proof Hsrc as [_ Hsrcid]%head_filter_Some.
        unfold db.with_updated_entry, db.index_row. rewrite Hsrcid. reflexivity. }
      apply wrapf_Ok. reflexivity.
  - destruct (db.UpdateEntry now slug fields d) as [[[]|err] d'] eqn:Hu; [done|]. intros _.
    by apply UpdateEntry_Err in Hu.
Qed.

End update_outcomes.

Lemma X12_update_succeeds_iff_witness :
  db.consistent (eng := fixture.engine) fixture.one
  ∧ is_ok (db.UpdateEntry (eng := fixture.engine) "2026-02-01 00:00:00" "go-err"
             {[ "title" := VString "Errors in Go"; "tags" := VSlice [VString "go"] ]}
             fixture.one).1 = true
  ∧ is_ok (db.UpdateEntry (eng := fixture.engine) "2026-02-01 00:00:00" "go-err"
             {[ "title" := VNil ]} fixture.one).1 = false.
Proof.
  assert (db.consistent (eng := fixture.engine) fixture.one) as Hc by by_evaluation.
  split; [exact Hc|]. split.
  - apply (X12_update_succeeds_iff (eng := fixture.engine) _ _ _ _ Hc). split_and!.
    + by_evaluation.
    + intros col v Hcol Hv. unfold db.columns in Hcol.
      repeat (apply elem_of_cons in Hcol as [->|Hcol];
              [vm_compute in Hv; first [discriminate Hv | injection Hv as <-; by eexists]|]).
      by apply elem_of_nil in Hcol.
    + intros v s Hv. vm_compute in Hv. discriminate Hv.
  - apply not_true_is_false.
    intros (_ & Hvals & _)%(X12_update_succeeds_iff (eng := fixture.engine) _ _ _ _ Hc).
    destruct (Hvals "title" VNil) as [s Hs]; [by_evaluation | vm_compute; reflexivity |].
    discriminate Hs.
Defined.

Lemma X4_search_counts_each_hit_witness :
  let now := "2026-03-01 10:00:00" in
  let d' := (db.SearchEntries (eng := fixture.engine) now "Go" db.no_filter 10 fixture.two).2 in
  db.consistent (eng := fixture.engine) fixture.two
  ∧ db.GetStats "go-err" d' = Ok (db.mkEntryStats 0 1 0 None (Some now) None)
  ∧ db.GetStats "py-err" d' = Ok (db.mkEntryStats 0 0 0 None None None)
  ∧ db.entries d' = db.entries fixture.two.
Proof.
  intros now d'.
  assert (db.consistent (eng := fixture.engine) fixture.two) as Hc by by_evaluation.
  set (res := Slice (db.found (db.SearchEntries (eng := fixture.engine) now "Go" db.no_filter 10
                                 fixture.two).1)).
  assert (db.SearchEntries (eng := fixture.engine) now "Go" db.no_filter 10 fixture.two
          = (Ok res, d')) as Hs by (vm_compute; reflexivity).
  destruct (X4_search_counts_each_hit (eng := fixture.engine) now "Go" db.no_filter 10
              fixture.two Hc) as [Hhit _].
  destruct (Hhit res d' Hs) as (Hstats & Hentries & _).
  split_and!; [exact Hc | | | exact Hentries].
  - refine (eq_trans (Hstats (db.created_row "2026-01-01 00:00:00"
                       (fixture.entry "go-err" "Go errors" "wrap errors" [" errors "; "go"; ""]) 1)
               (db.mkEntryStats 0 0 0 None None None) _ _) _);
      [by_evaluation | vm_compute; reflexivity | vm_compute; reflexivity].
  - refine (eq_trans (Hstats (db.created_row "2026-01-02 00:00:00"
                       (fixture.entry "py-err" "Python errors" "raise exceptions" ["errors"]) 2)
               (db.mkEntryStats 0 0 0 None None None) _ _) _);
      [by_evaluation | vm_compute; reflexivity | vm_compute; reflexivity].
Defined.

Lemma X6_list_filters_and_orders_witness :
  let f := db.mkFilter "" "" "" "" "go" NilSlice in
  db.schema_ok (eng := fixture.engine) fixture.two
  ∧ db.Slug <$> db.found (db.ListEntries f fixture.two) = ["go-err"]
  ∧ Forall (λ e, db.Content e = "" ∧ db.Snippet e = "") (db.found (db.ListEntries f fixture.two))
  ∧ NoDup (db.Slug <$> db.found (db.ListEntries db.no_filter fixture.two)).
Proof.
  intros f.
  assert (db.schema_ok (eng := fixture.engine) fixture.two) as Hok by by_evaluation.
  destruct (X6_list_filters_and_orders (eng := fixture.engine) f fixture.two Hok)
    as (_ & _ & Hbare & _).
  destruct (X6_list_filters_and_orders (eng := fixture.engine) db.no_filter fixture.two Hok)
    as (_ & _ & _ & _ & Hnd).
  split_and!; [exact Hok | vm_compute; reflexivity | exact Hbare | exact Hnd].
Defined.

Lemma X7_context_counts_each_read_witness :
  let now := "2026-03-01 10:00:00" in
  let f := db.mkFilter "" "" "" "" "" (Slice ["go"; "errors"]) in
  let d' := (db.GetEntriesByContext now f 20 fixture.two).2 in
  db.schema_ok (eng := fixture.engine) fixture.two
  ∧ db.Slug <$> db.found (db.GetEntriesByContext now f 20 fixture.two).1 = ["go-err"]
  ∧ db.GetStats "go-err" d' = Ok (db.mkEntryStats 1 0 0 (Some now) None None)
  ∧ db.GetStats "py-err" d' = Ok (db.mkEntryStats 0 0 0 None None None).
Proof.
  intros now f d'.
  assert (db.schema_ok (eng := fixture.engine) fixture.two) as Hok by by_evaluation.
  destruct (X7_context_counts_each_read (eng := fixture.engine) now f 20 fixture.two Hok)
    as (Hstats & _).
  split_and!; [exact Hok | vm_compute; reflexivity | |].
  - refine (eq_trans (Hstats (db.created_row "2026-01-01 00:00:00"
                       (fixture.entry "go-err" "Go errors" "wrap errors" [" errors "; "go"; ""]) 1)
               (db.mkEntryStats 0 0 0 None None None) _ _) _);
      [by_evaluation | vm_compute; reflexivity | vm_compute; reflexivity].
  - refine (eq_trans (Hstats (db.created_row "2026-01-02 00:00:00"
                       (fixture.entry "py-err" "Python errors" "raise exceptions" ["errors"]) 2)
               (db.mkEntryStats 0 0 0 None None None) _ _) _);
      [by_evaluation | vm_compute; reflexivity | vm_compute; reflexivity].
Defined.

Lemma X8_tags_listed_with_counts_witness :
  db.schema_ok (eng := fixture.engine) fixture.two
  ∧ db.found (db.ListTags fixture.two) = [db.mkTag "errors" 2; db.mkTag "go" 1]
  ∧ Forall (λ tg, 1 ≤ db.Count tg) (db.found (db.ListTags fixture.two))
  ∧ NoDup (db.Name <$> db.found (db.ListTags fixture.two)).
Proof.
  assert (db.schema_ok (eng := fixture.engine) fixture.two) as Hok by by_evaluation.
  destruct (X8_tags_listed_with_counts (eng := fixture.engine) fixture.two Hok)
    as (_ & _ & Hpos & Hnd & _).
  split_and!; [exact Hok | vm_compute; reflexivity | exact Hpos | exact Hnd].
Defined.

Lemma X9_export_lists_every_entry_witness :
  db.schema_ok (eng := fixture.engine) fixture.two
  ∧ db.Slug <$> db.found (db.AllEntries fixture.two) = ["go-err"; "py-err"]
  ∧ length (db.found (db.AllEntries fixture.two)) = length (db.entries fixture.two)
  ∧ NoDup (db.Slug <$> db.found (db.AllEntries fixture.two)).
Proof.
  assert (db.schema_ok (eng := fixture.engine) fixture.two) as Hok by by_evaluation.
  destruct (X9_export_lists_every_entry (eng := fixture.engine) fixture.two Hok)
    as (_ & Hlen & Hnd & _).
  split_and!; [exact Hok | vm_compute; reflexivity | exact Hlen | exact Hnd].
Defined.

(** * The dispatcher and the store *)

Section frame_facts.
Context {eng : db.Engine} {codec : mcp.Codec}.


















End frame_facts.

Section dispatch_frame.
Context {eng : db.Engine} {codec : mcp.Codec}.






(** X14. A tools/call whose parameters decode and which names one of the
    eight tools is always answered with a result, never with a protocol
    error: the result is one text block and the [isError] flag, so a
    failure of the tool (missing argument, unknown slug, active lock,
    refused insert) reaches the caller as text under [isError] true. *)
Theorem X14_known_tool_answers_in_band (now : string) (req : mcp.jsonrpcRequest) (s : mcp.Server)
    (name : string) (args : gmap string any) :
  mcp.unmarshal_tools_call (mcp.req_Params req) = Ok (name, args) →
  name ∈ mcp.tool_names →
  let resp := (mcp.handleToolsCall now req s).1 in
  mcp.resp_Error resp = None
  ∧ mcp.resp_ID resp = mcp.req_ID req
  ∧ ∃ text failed,
      mcp.resp_Result resp
      = VMap [("content", VSlice [VMap [("type", VString "text"); ("text", VString text)]]);
              ("isError", VBool failed)]
      ∧ mcp.is_tool_failure resp = failed.
Proof.
  intros Hparams Hname resp. unfold resp, mcp.handleToolsCall. rewrite Hparams.
  assert (∀ id msg, mcp.resp_Error (mcp.toolError id msg) = None
            ∧ mcp.resp_ID (mcp.toolError id msg) = id
            ∧ ∃ text failed,
                mcp.resp_Result (mcp.toolError id msg)
                = VMap [("content", VSlice [VMap [("type", VString "text"); ("text", VString text)]]);
                        ("isError", VBool failed)]
                ∧ mcp.is_tool_failure (mcp.toolError id msg) = failed) as Herr.
  { intros id msg. split_and!; [done|done|]. by exists msg, true. }
  assert (∀ id p, mcp.resp_Error (mcp.toolResult id p) = None
            ∧ mcp.resp_ID (mcp.toolResult id p) = id
            ∧ ∃ text failed,
                mcp.resp_Result (mcp.toolResult id p)
                = VMap [("content", VSlice [VMap [("type", VString "text"); ("text", VString text)]]);
                        ("isError", VBool failed)]
                ∧ mcp.is_tool_failure (mcp.toolResult id p) = failed) as Hres.
  { intros id p. split_and!; [done|done|]. by exists (mcp.json_Marshal p), false. }
  unfold mcp.tool_names in Hname.
  repeat (apply elem_of_cons in Hname as [->|Hname]); [..|by apply elem_of_nil in Hname].
  all: repeat (rewrite decide_False by done); rewrite decide_True by done.
  - unfold mcp.toolSearchEntries. cbv zeta. case_decide; [apply Herr|].
    destruct (db.SearchEntries _ _ _ _ _) as [[?|?] ?]; [apply Hres|apply Herr].
  - unfold mcp.toolGetEntry. cbv zeta. case_decide; [apply Herr|].
    destruct (db.GetEntry _ _ _) as [[?|?] ?]; [apply Hres|apply Herr].
  - unfold mcp.toolGetEntriesByContext. cbv zeta.
    destruct (db.GetEntriesByContext _ _ _ _) as [[?|?] ?]; [apply Hres|apply Herr].
  - unfold mcp.toolListEntries. cbv zeta. cbn [fst].
    destruct (db.ListEntries _ _) as [?|?]; [apply Hres|apply Herr].
  - unfold mcp.toolListTags. cbn [fst].
    destruct (db.ListTags _) as [?|?]; [apply Hres|apply Herr].
  - unfold mcp.toolCreateEntry. destruct (mcp.checkLock s); [apply Herr|]. cbv zeta.
    case_decide; [apply Herr|].
    destruct (db.CreateEntry _ _ _) as [[?|?] ?]; [apply Hres|apply Herr].
  - unfold mcp.toolUpdateEntry. destruct (mcp.checkLock s); [apply Herr|]. cbv zeta.
    case_decide; [apply Herr|].
    destruct (db.UpdateEntry _ _ _ _) as [[?|?] ?]; [|apply Herr].
    destruct (db.GetEntry _ _ _) as [[?|?] ?]; [apply Hres|apply Herr].
  - unfold mcp.toolDeleteEntry. destruct (mcp.checkLock s); [apply Herr|]. cbv zeta.
    case_decide; [apply Herr|].
    destruct (db.DeleteEntry _ _) as [[?|?] ?]; [apply Hres|apply Herr].
Qed.

End dispatch_frame.

Lemma X14_known_tool_answers_in_band_witness :
  let req := fixture.call "tools/call" [("name", VString "get_entry");
                                        ("arguments", VMap [("slug", VString "missing")])] in
  let resp := (mcp.handleToolsCall (eng := fixture.engine) (codec := fixture.codec)
                 "2026-03-01 10:00:00" req (fixture.server fixture.one)).1 in
  mcp.unmarshal_tools_call (mcp.req_Params req) = Ok ("get_entry", {[ "slug" := VString "missing" ]})
  ∧ mcp.resp_Error resp = None
  ∧ mcp.resp_Result resp
    = VMap [("content", VSlice [VMap [("type", VString "text");
                                      ("text", VString "entry not found: missing")]]);
            ("isError", VBool true)].
Proof.
  intros req resp.
  assert (mcp.unmarshal_tools_call (mcp.req_Params req)
          = Ok ("get_entry", {[ "slug" := VString "missing" ]})) as Hp by (vm_compute; reflexivity).
  destruct (X14_known_tool_answers_in_band (eng := fixture.engine) (codec := fixture.codec)
              "2026-03-01 10:00:00" req (fixture.server fixture.one) _ _ Hp)
    as (Herr & _ & _); [by_evaluation|].
  split_and!; [exact Hp | exact Herr | vm_compute; reflexivity].
Defined.

Section update_tool.
Context {eng : db.Engine} {codec : mcp.Codec}.

Lemma UpdateEntry_keeps_keys now slug fields d d' :
  db.UpdateEntry now slug fields d = (Ok tt, d') →
  (λ e, (db.e_id e, db.e_slug e)) <$> db.entries d'
  = (λ e, (db.e_id e, db.e_slug e)) <$> db.entries d.
Proof. by intros (id & d5 & _ & -> & Hkeys & _)%UpdateEntry_stats. Qed.

(** X15. The update_entry tool answers with the entry as it is after the
    update, read back through the lookup by slug (a get_entry right after
    returns the same entry); so a successful call counts as one update and
    as one read of the entry: [updates] and [reads] both go up by one and
    both timestamps become now. *)
Theorem X15_update_tool_counts_read_too (now : string) (id : any) (args : gmap string any)
    (s : mcp.Server) (st : db.EntryStats) :
  db.consistent (mcp.DB s) →
  db.GetStats (mcp.str args "slug") (mcp.DB s) = Ok st →
  mcp.is_tool_failure (mcp.toolUpdateEntry now id args s).1 = false →
  let s' := (mcp.toolUpdateEntry now id args s).2 in
  db.GetStats (mcp.str args "slug") (mcp.DB s')
  = Ok (db.mkEntryStats (db.Reads st + 1) (db.Searches st) (db.Updates st + 1)
          (Some now) (db.LastSearchAt st) (Some now))
  ∧ (∃ e, (mcp.toolUpdateEntry now id args s).1 = mcp.toolResult id (mcp.PEntry e)
          ∧ db.Slug e = mcp.str args "slug"
          ∧ (mcp.toolGetEntry now id args s').1 = mcp.toolResult id (mcp.PEntry e))
  ∧ db.consistent (mcp.DB s').
Proof.
  intros Hcons Hst. unfold mcp.toolUpdateEntry, mcp.toolGetEntry.
  destruct (mcp.checkLock s); [done|]. cbv zeta.
  set (slug := mcp.str args "slug") in *.
  case_decide as Hslug; [done|].
  set (fields := match args !! "tags" with Some v => _ | None => _ end).
  destruct (db.UpdateEntry now slug fields (mcp.DB s)) as [[[]|err] d1] eqn:Hup; [|done].
  pose proof (consistent_UpdateEntry _ _ _ _ _ Hcons Hup) as Hcons1.
  pose proof Hcons as [Hok _]. pose proof Hcons1 as [Hok1 _].
  destruct (UpdateEntry_counts now _ fields _ d1 st Hok Hup Hst) as [Hst1 _].
  assert (∃ r1, r1 ∈ db.entries d1 ∧ db.e_slug r1 = slug) as (r1 & Hr1 & Hs1).
  { destruct (decide (slug ∈ db.e_slug <$> db.entries d1)) as [Hin|Hout].
    - apply list_elem_of_fmap in Hin as (r1 & ? & ?). by exists r1.
    - by rewrite (GetStats_not_found _ d1 Hout) in Hst1. }
  pose proof Hok1 as (_ & Hslug1 & _).
  assert (head (filter (λ e, db.e_slug e = slug) (db.entries d1)) = Some r1) as Hh
    by (by rewrite <- Hs1, (slug_selects d1 r1 Hslug1 Hr1)).
  rewrite <- Hs1 in Hst1.
  destruct (GetEntry_counts now d1 r1 _ Hok1 Hr1 Hst1) as (_ & Hself & _).
  rewrite Hs1 in Hself.
  rewrite (GetEntry_found now slug d1 r1 Hh) in Hself |- *. cbn [fst snd] in *.
  intros _. split_and!.
  - exact Hself.
  - eexists. split_and!; [reflexivity|done|].
    cbn [mcp.DB mcp.with_DB].
    by rewrite (GetEntry_found now slug (db.bump_reads now (db.e_id r1) d1) r1 Hh).
  - by apply consistent_bump_reads.
Qed.

End update_tool.

Lemma X15_update_tool_counts_read_too_witness :
  let now := "2026-03-01 10:00:00" in
  let args : gmap string any := {[ "slug" := VString "go-err"; "content" := VString "wrap with %w" ]} in
  let s := fixture.server fixture.two in
  let s' := (mcp.toolUpdateEntry (eng := fixture.engine) (codec := fixture.codec)
               now (VInt 7) args s).2 in
  (db.consistent (eng := fixture.engine) (mcp.DB s)
   ∧ db.GetStats (mcp.str args "slug") (mcp.DB s) = Ok (db.mkEntryStats 0 0 0 None None None))
  ∧ db.GetStats "go-err" (mcp.DB s') = Ok (db.mkEntryStats 1 0 1 (Some now) None (Some now))
  ∧ db.consistent (eng := fixture.engine) (mcp.DB s').
Proof.
  intros now args s s'.
  assert (db.consistent (eng := fixture.engine) (mcp.DB s)) as Hc by by_evaluation.
  assert (db.GetStats (mcp.str args "slug") (mcp.DB s)
          = Ok (db.mkEntryStats 0 0 0 None None None)) as Hst by (vm_compute; reflexivity).
  split; [by split|].
  destruct (X15_update_tool_counts_read_too (eng := fixture.engine) (codec := fixture.codec)
              now (VInt 7) args s _ Hc Hst) as (Hstats & _ & Hc'); [vm_compute; reflexivity|].
  split; [exact Hstats | exact Hc'].
Defined.

Section resources.
Context {eng : db.Engine} {codec : mcp.Codec}.

Lemma string_app_cons a (p s : string) : String a p +:+ s = String a (p +:+ s).
Proof. reflexivity. Qed.

Lemma string_length_app (p s : string) :
  String.length (p +:+ s) = (String.length p + String.length s)%nat.
Proof. induction p as [|a p IH]; [done|]. rewrite string_app_cons. simpl. by rewrite IH. Qed.

Lemma substring_all (s : string) : String.substring 0 (String.length s) s = s.
Proof. induction s as [|a s IH]; [done|]. simpl. by rewrite IH. Qed.

Lemma substring_skip (p s : string) :
  String.substring (String.length p) (String.length s) (p +:+ s) = s.
Proof. induction p as [|a p IH]; [apply substring_all|]. by rewrite string_app_cons. Qed.

Lemma prefix_app (p s : string) : String.prefix p (p +:+ s) = true.
Proof.
  induction p as [|a p IH]; [by destruct s|].
  rewrite string_app_cons. cbn [String.prefix]. by destruct (Ascii.ascii_dec a a).
Qed.

Lemma prefix_split (p u : string) : String.prefix p u = true → ∃ s, u = p +:+ s.
Proof.
  revert u. induction p as [|a p IH]; intros u Hp; [by exists u|].
  destruct u as [|b u]; [done|]. cbn [String.prefix] in Hp.
  destruct (Ascii.ascii_dec a b) as [<-|]; [|done].
  destruct (IH u Hp) as [s ->]. by exists s.
Qed.

Lemma TrimPrefix_app (p s : string) : mcp.TrimPrefix (p +:+ s) p = s.
Proof.
  unfold mcp.TrimPrefix. rewrite prefix_app, string_length_app.
  replace (String.length p + String.length s - String.length p)%nat with (String.length s) by lia.
  apply substring_skip.
Qed.

Lemma TrimPrefix_none (p u : string) : String.prefix p u = false → mcp.TrimPrefix u p = u.
Proof. unfold mcp.TrimPrefix. by intros ->. Qed.

Lemma app_longer (p s : string) : p ≠ "" → s ≠ p +:+ s.
Proof.
  intros Hp H%(f_equal String.length). rewrite string_length_app in H.
  destruct p; [done|]. simpl in H. lia.
Qed.

Lemma take_min_drop {A} (l : list A) (k m : nat) :
  take (Nat.min (k + m) (length l) - k) (drop k l) = take m (drop k l).
Proof.
  destruct (decide (k + m ≤ length l)%nat).
  - f_equal. lia.
  - rewrite !take_ge; [done|rewrite length_drop; lia..].
Qed.

(** The offset read out of the cursor is an [int]. *)
Lemma cursor_offset_int req : - 2 ^ 63 ≤ mcp.cursor_offset req < 2 ^ 63.
Proof.
  unfold mcp.cursor_offset. cbv zeta. case_decide; [lia|].
  destruct (mcp.base64_decode _); [apply mcp.Atoi_int|lia].
Qed.

(** X16. The resource listing is a window of at most 50 onto the entries in
    title order. The offset [k] is 0 without params and otherwise comes
    from the member that names the cursor field, exactly or under case
    folding: 0 for the empty cursor and for one that is not base64, else
    the number in it. For [0 <= k] with [k + 50] still an [int] the listing
    shows the entries from position [k] on, up to 50, and hands out a next
    cursor, the encoding of [k + 50], exactly when entries remain beyond
    the window. For a larger [k] the sum wraps around to the negative
    [k + 50 - 2^64]: the listing is empty and hands out the encoding of
    that negative number as next cursor (there are never that many
    entries; were there, the slice bounds would make the handler panic).
    A cursor that reads as a negative offset makes the handler panic on
    the slice bounds. *)
Theorem X16_listing_window (req : mcp.jsonrpcRequest) (s : mcp.Server) :
  let k := mcp.cursor_offset req in
  let all := db.found (db.ListEntries db.no_filter (mcp.DB s)) in
  (mcp.req_Params req = None → k = 0)
  ∧ (∀ key c, mcp.req_Params req = Some (VMap [(key, VString c)]) →
       mcp.names_field "cursor" key = true →
       k = if decide (c = "") then 0
           else match mcp.base64_decode c with
                | Some decoded => mcp.Atoi decoded
                | None => 0
                end)
  ∧ (k < 0 → mcp.handleResourcesList req s = mcp.Panic "slice bounds out of range")
  ∧ (0 ≤ k < 2 ^ 63 - 50 →
     let page := take 50 (drop (Z.to_nat k) all) in
     mcp.handleResourcesList req s
     = mcp.Reply (mcp.rpcResult (mcp.req_ID req)
         (VMap (("resources", VSlice (mcp.resource_of <$> page))
                :: if decide (k + 50 < Z.of_nat (length all))
                   then [("nextCursor", VString (mcp.base64_encode (mcp.Itoa (k + 50))))]
                   else [])))
     ∧ (length page ≤ 50)%nat
     ∧ (Z.of_nat (length all) ≤ k → page = []))
  ∧ (2 ^ 63 - 50 ≤ k →
     k < 2 ^ 63
     ∧ (Z.of_nat (length all) ≤ k →
        mcp.handleResourcesList req s
        = mcp.Reply (mcp.rpcResult (mcp.req_ID req)
            (VMap [("resources", VSlice []);
                   ("nextCursor", VString (mcp.base64_encode (mcp.Itoa (k + 50 - 2 ^ 64))))])))
     ∧ (k < Z.of_nat (length all) →
        mcp.handleResourcesList req s = mcp.Panic "slice bounds out of range")).
Proof.
  intros k all. split_and!.
  - unfold k, mcp.cursor_offset. by intros ->.
  - intros key c Hp Hkey. unfold k, mcp.cursor_offset. rewrite Hp. cbv zeta.
    unfold mcp.decode_string. cbn [foldl fst snd]. rewrite Hkey. done.
  - intros Hneg. unfold mcp.handleResourcesList. cbv zeta. fold (mcp.cursor_offset req). fold k.
    destruct (db.ListEntries db.no_filter (mcp.DB s)) as [entries|] eqn:Hl; [|done].
    rewrite decide_True by (unfold len; lia).
    unfold mcp.subslice. rewrite decide_False by lia. done.
  - intros Hk page. split_and!.
    + unfold mcp.handleResourcesList. cbv zeta. fold (mcp.cursor_offset req). fold k.
      unfold all. destruct (db.ListEntries db.no_filter (mcp.DB s)) as [entries|] eqn:Hl; [|done].
      cbn [db.found]. unfold len.
      assert (mcp.wrap64 (k + mcp.resourcesPerPage) = k + 50) as ->.
      { unfold mcp.wrap64, mcp.resourcesPerPage. rewrite Z.mod_small; lia. }
      set (n := Z.of_nat (length (items entries))).
      assert (page = take 50 (drop (Z.to_nat k) (items entries))) as Hpage.
      { by unfold page, all. }
      destruct (decide (k + 50 > n)) as [Hend|Hend]; cbv beta iota.
      * destruct (decide (k < n)) as [Hin|Hout].
        -- unfold mcp.subslice. rewrite decide_True by (fold n; lia). cbv beta iota.
           rewrite (decide_False (P := n < n)) by lia.
           rewrite (decide_False (P := k + 50 < n)) by lia.
           do 5 f_equal. rewrite Hpage.
           rewrite <- (take_min_drop (items entries) (Z.to_nat k) 50).
           replace (Z.to_nat (n - k))
             with ((Z.to_nat k + 50) `min` length (items entries) - Z.to_nat k)%nat; [done|].
           unfold n in *. lia.
        -- cbv beta iota. rewrite (decide_False (P := n < n)) by lia.
           rewrite (decide_False (P := k + 50 < n)) by lia.
           do 5 f_equal. rewrite Hpage. rewrite drop_ge; [done|]. unfold n in Hout. lia.
      * rewrite (decide_True (P := k < n)) by lia.
        unfold mcp.subslice. rewrite decide_True by (fold n; lia). cbv beta iota.
        replace (Z.to_nat (k + 50 - k)) with 50%nat by lia. rewrite Hpage.
        destruct (decide (k + 50 < n)); done.
    + unfold page. rewrite length_take. lia.
    + intros Hbeyond. unfold page. rewrite drop_ge; [done|lia].
  - intros Hk. pose proof (cursor_offset_int req) as Hint. fold k in Hint.
    assert (mcp.wrap64 (k + mcp.resourcesPerPage) = k + 50 - 2 ^ 64) as Hwrap.
    { unfold mcp.wrap64, mcp.resourcesPerPage.
      replace (k + 50 + 2 ^ 63) with (k + 50 - 2 ^ 63 + 1 * 2 ^ 64) by lia.
      rewrite Z.mod_add by lia. rewrite Z.mod_small; lia. }
    split_and!; [lia| |].
    + intros Hn. unfold mcp.handleResourcesList. cbv zeta. fold (mcp.cursor_offset req). fold k.
      unfold all in Hn. destruct (db.ListEntries db.no_filter (mcp.DB s)) as [entries|] eqn:Hl; [|done].
      cbn [db.found] in Hn. unfold len. rewrite Hwrap.
      set (n := Z.of_nat (length (items entries))) in *.
      rewrite (decide_False (P := k + 50 - 2 ^ 64 > n)) by lia.
      rewrite (decide_False (P := k < n)) by lia.
      by rewrite (decide_True (P := k + 50 - 2 ^ 64 < n)) by lia.
    + intros Hn. unfold mcp.handleResourcesList. cbv zeta. fold (mcp.cursor_offset req). fold k.
      unfold all in Hn. destruct (db.ListEntries db.no_filter (mcp.DB s)) as [entries|] eqn:Hl; [|done].
      cbn [db.found] in Hn. unfold len. rewrite Hwrap.
      set (n := Z.of_nat (length (items entries))) in *.
      rewrite (decide_False (P := k + 50 - 2 ^ 64 > n)) by lia.
      rewrite (decide_True (P := k < n)) by lia.
      unfold mcp.subslice. by rewrite decide_False by lia.
Qed.

(** X17. What the listing names can be read: for an entry with a non-empty
    slug, reading the URI the listing gives it ("mcpedia://entries/" and
    the slug) returns the entry's content under that URI and counts as a
    read; a URI without that prefix, or the bare prefix, is refused as
    invalid, and a slug that no entry has is refused with "entry not
    found", all three with error -32002 and nothing changed. *)
Theorem X17_listed_resource_reads_back (now : string) (req : mcp.jsonrpcRequest) (s : mcp.Server)
    (uri : string) :
  db.schema_ok (mcp.DB s) →
  mcp.unmarshal_string "uri" (mcp.req_Params req) = Ok uri →
  (∀ r, r ∈ db.entries (mcp.DB s) → db.e_slug r ≠ "" →
        uri = "mcpedia://entries/" +:+ db.e_slug r →
        mcp.get_field (match mcp.resource_of (db.listed_entry r (db.getTagsForEntry (mcp.DB s) (db.e_id r)) "") with VMap m => m | _ => [] end) "uri" = Some (VString uri)
        ∧ mcp.handleResourcesRead now req s
          = (mcp.rpcResult (mcp.req_ID req)
               (VMap [("contents", VSlice [VMap [("uri", VString uri);
                                                 ("mimeType", VString "text/markdown");
                                                 ("text", VString (db.e_content r))]])]),
             mcp.with_DB s (db.bump_reads now (db.e_id r) (mcp.DB s))))
  ∧ (String.prefix "mcpedia://entries/" uri = false ∨ uri = "mcpedia://entries/" →
     mcp.handleResourcesRead now req s
     = (mcp.rpcErr (mcp.req_ID req) (-32002) ("Invalid resource URI: " +:+ uri), s))
  ∧ (∀ slug, uri = "mcpedia://entries/" +:+ slug → slug ≠ "" →
       slug ∉ db.e_slug <$> db.entries (mcp.DB s) →
       mcp.handleResourcesRead now req s
       = (mcp.rpcErr (mcp.req_ID req) (-32002) ("entry not found: " +:+ slug), s)).
Proof.
  intros (_ & Hslug & _) Huri. unfold mcp.handleResourcesRead. rewrite Huri. cbv zeta. split_and!.
  - intros r Hr Hne ->. split; [done|].
    rewrite TrimPrefix_app. rewrite decide_False; cycle 1.
    { intros [H|H]; [done|]. by apply (app_longer "mcpedia://entries/" (db.e_slug r)) in H. }
    by rewrite (GetEntry_found now _ _ r) by (by rewrite (slug_selects _ r Hslug Hr)).
  - intros [Hp| ->].
    + rewrite (TrimPrefix_none _ _ Hp). rewrite decide_True; [done|by right].
    + rewrite decide_True; [done|by left].
  - intros slug -> Hne Hout. rewrite TrimPrefix_app. rewrite decide_False; cycle 1.
    { intros [H|H]; [done|]. by apply (app_longer "mcpedia://entries/" slug) in H. }
    rewrite (GetEntry_not_found now slug _ Hout). by destruct s.
Qed.

End resources.

Lemma X17_listed_resource_reads_back_witness :
  let req := fixture.call "resources/read" [("uri", VString "mcpedia://entries/go-err")] in
  (db.schema_ok (eng := fixture.engine) (mcp.DB (fixture.server fixture.one))
   ∧ mcp.unmarshal_string "uri" (mcp.req_Params req) = Ok "mcpedia://entries/go-err")
  ∧ (mcp.handleResourcesRead "2026-03-01 10:00:00" req (fixture.server fixture.one)).1
    = mcp.rpcResult (VInt 1)
        (VMap [("contents", VSlice [VMap [("uri", VString "mcpedia://entries/go-err");
                                          ("mimeType", VString "text/markdown");
                                          ("text", VString "wrap errors")]])]).
Proof.
  intros req.
  assert (db.schema_ok (eng := fixture.engine) (mcp.DB (fixture.server fixture.one))) as Hok
    by by_evaluation.
  assert (mcp.unmarshal_string "uri" (mcp.req_Params req) = Ok "mcpedia://entries/go-err") as Hu
    by (vm_compute; reflexivity).
  split; [by split|].
  destruct (X17_listed_resource_reads_back (eng := fixture.engine) "2026-03-01 10:00:00" req
              (fixture.server fixture.one) _ Hok Hu) as (Hread & _).
  destruct (Hread (db.created_row "2026-01-01 00:00:00"
                     (fixture.entry "go-err" "Go errors" "wrap errors" [" errors "; "go"; ""]) 1))
    as [_ ->]; [by_evaluation | discriminate | reflexivity |]. reflexivity.
Defined.

Section transport_facts.
Context {eng : db.Engine} {codec : mcp.Codec}.

(** The check of the Authorization header accepts one value. *)
Lemma bearer_accepts (auth token : string) :
  String.prefix "Bearer " auth = true ∧ mcp.TrimPrefix auth "Bearer " = token
  ↔ auth = "Bearer " +:+ token.
Proof.
  split.
  - intros [Hp Ht]. destruct (prefix_split _ _ Hp) as [rest ->].
    by rewrite TrimPrefix_app in Ht; subst.
  - intros ->. split; [apply prefix_app|apply TrimPrefix_app].
Qed.

(** X18. With a token configured, a POST is let through exactly when its
    Authorization header is "Bearer " followed by the token: any other
    header (none, another scheme, another token, a longer or shorter
    value) is answered 401 before the body is looked at, and nothing
    changes. Without a configured token no request is answered 401. *)
Theorem X18_bearer_token_guards_every_post (now sessionID : string) (r : mcp.httpRequest)
    (s : mcp.Server) :
  mcp.http_Method r = "POST" →
  (mcp.Token s ≠ "" → mcp.Authorization r ≠ "Bearer " +:+ mcp.Token s →
   mcp.serveRequest now sessionID r s = (mcp.HttpError 401 "Unauthorized", s))
  ∧ (mcp.Token s = "" ∨ mcp.Authorization r = "Bearer " +:+ mcp.Token s →
     ∀ msg, (mcp.serveRequest now sessionID r s).1 ≠ mcp.HttpError 401 msg).
Proof.
  intros Hpost. unfold mcp.serveRequest. rewrite decide_False by (by intros ?). split.
  - intros Htok Hauth. rewrite decide_True; [done|]. split; [done|].
    destruct (String.prefix "Bearer " (mcp.Authorization r)) eqn:Hp; [right|by left].
    intros Ht. apply Hauth. by apply bearer_accepts.
  - intros Hpass msg. rewrite decide_False; cycle 1.
    { intros [Htok Hbad]. destruct Hpass as [?|Hauth]; [done|].
      apply bearer_accepts in Hauth as [Hp Ht]. destruct Hbad as [Hbad|Hbad]; [congruence|done]. }
    destruct (mcp.http_Body r) as [[req|]|]; [|done..].
    case_decide; [done|]. destruct (mcp.req_ID req); try done.
    all: case_decide; [done|].
    all: destruct (mcp.dispatch now sessionID req s) as [[resp|pmsg] s1]; [|done].
    all: by case_decide.
Qed.

(** X19. The state of the server (sessions and database) changes through
    the dispatcher only: a request that is not a POST, fails the token
    check, has an unreadable or unparsable body, is not JSON-RPC 2.0,
    carries no id (a notification, answered 202) or names an unknown
    session leaves everything as it was, whatever method and parameters
    it carries. *)
Theorem X19_only_well_framed_requests_act (now sessionID : string) (r : mcp.httpRequest)
    (s : mcp.Server) :
  (mcp.serveRequest now sessionID r s).2 ≠ s →
  mcp.http_Method r = "POST"
  ∧ (mcp.Token s = "" ∨ mcp.Authorization r = "Bearer " +:+ mcp.Token s)
  ∧ ∃ req, mcp.http_Body r = Some (Some req)
           ∧ mcp.req_JSONRPC req = "2.0"
           ∧ mcp.req_ID req ≠ VNil
           ∧ (mcp.req_Method req = "initialize" ∨ mcp.McpSessionId r = ""
              ∨ mcp.McpSessionId r ∈ mcp.sessions s)
           ∧ (mcp.serveRequest now sessionID r s).2 = (mcp.dispatch now sessionID req s).2.
Proof.
  unfold mcp.serveRequest.
  destruct (decide (mcp.http_Method r ≠ "POST")) as [|Hpost%dec_stable]; [done|].
  destruct (decide (mcp.Token s ≠ "" ∧ _)) as [|Hauth]; [done|].
  destruct (mcp.http_Body r) as [[req|]|]; [|done..].
  destruct (decide (mcp.req_JSONRPC req ≠ "2.0")) as [|Hver%dec_stable]; [done|].
  intros Hchanged. split; [done|]. split.
  { destruct (decide (mcp.Token s = "")) as [|Htok]; [by left|right].
    apply bearer_accepts.
    destruct (String.prefix "Bearer " (mcp.Authorization r)) eqn:Hp; cycle 1.
    { exfalso. apply Hauth. split; [done|by left]. }
    split; [done|]. apply dec_stable. intros Hne. apply Hauth. split; [done|by right]. }
  exists req. split; [done|]. split; [done|].
  assert (mcp.req_ID req ≠ VNil) as Hid.
  { intros Hnil. by rewrite Hnil in Hchanged. }
  split; [done|].
  destruct (decide (mcp.req_Method req ≠ "initialize" ∧ mcp.McpSessionId r ≠ ""
                    ∧ mcp.McpSessionId r ∉ mcp.sessions s)) as [|Hsess].
  { by destruct (mcp.req_ID req). }
  split.
  { destruct (decide (mcp.req_Method req = "initialize")); [by left|right].
    destruct (decide (mcp.McpSessionId r = "")); [by left|right].
    apply dec_stable. intros Hout. by apply Hsess. }
  destruct (mcp.req_ID req); [done|..].
  all: destruct (mcp.dispatch now sessionID req s) as [[resp|pmsg] s1]; [|done].
  all: by case_decide.
Qed.


End transport_facts.

Lemma X18_bearer_token_guards_every_post_witness :
  let s := mcp.mkServer fixture.one "secret" ∅ in
  let body := Some (Some (fixture.call "tools/call"
                            [("name", VString "delete_entry");
                             ("arguments", VMap [("slug", VString "go-err")])])) in
  let r := mcp.mkHttpRequest "POST" "Bearer secret-and-more" body "" in
  mcp.http_Method r = "POST"
  ∧ mcp.serveRequest (eng := fixture.engine) (codec := fixture.codec)
      "2026-03-01 10:00:00" "0af3" r s = (mcp.HttpError 401 "Unauthorized", s).
Proof.
  intros s body r. split; [reflexivity|].
  apply (X18_bearer_token_guards_every_post (eng := fixture.engine) (codec := fixture.codec)
           "2026-03-01 10:00:00" "0af3" r s eq_refl); discriminate.
Defined.

Lemma X19_only_well_framed_requests_act_witness :
  let s := fixture.server db.Open in
  let req := mcp.mkRequest "2.0" (VInt 1) "initialize" None in
  let r := mcp.mkHttpRequest "POST" "" (Some (Some req)) "" in
  (mcp.serveRequest (eng := fixture.engine) (codec := fixture.codec)
     "2026-03-01 10:00:00" "0af3" r s).2 ≠ s
  ∧ mcp.http_Method r = "POST"
  ∧ (mcp.serveRequest (eng := fixture.engine) (codec := fixture.codec)
       "2026-03-01 10:00:00" "0af3" r s).2
    = (mcp.dispatch (eng := fixture.engine) (codec := fixture.codec)
         "2026-03-01 10:00:00" "0af3" req s).2.
Proof.
  intros s req r.
  assert ((mcp.serveRequest (eng := fixture.engine) (codec := fixture.codec)
             "2026-03-01 10:00:00" "0af3" r s).2 ≠ s) as Hne.
  { intros H%(f_equal mcp.sessions).
    assert ("0af3" ∈ mcp.sessions s) as Hin; [rewrite <- H; cbn; set_solver|].
    cbn in Hin. set_solver. }
  split; [exact Hne|].
  destruct (X19_only_well_framed_requests_act (eng := fixture.engine) (codec := fixture.codec)
              "2026-03-01 10:00:00" "0af3" r s Hne) as (Hpost & _ & req' & Hbody & _ & _ & _ & Hd).
  injection Hbody as <-. split; [exact Hpost | exact Hd].
Defined.

